(** * ics2tsv: a shallow embedding of the calendar-to-TSV converter

    The program is one Go file (package main).  It reads an iCalendar file,
    keeps the events whose SUMMARY equals an optional filter, builds one
    [Column] per event, sorts the columns by date and start time and writes
    them as delimited text to a file or to standard output.

    Go values are embedded as follows: a Go [string] is a Rocq [string] (a
    sequence of bytes), a Go [int], [rune] or [time.Duration] is a [Z], a
    slice is a [list], a pointer that may be nil is an [option], and a
    function that returns [(T, error)] or may panic returns [exec T]. *)

From Stdlib Require Import ZArith Bool List Ascii String Lia.
From Stdlib Require Import Sorting.Sorted Sorting.Permutation.
From Stdlib Require Import Floats.SpecFloat.
From stdpp Require Import base option list sorting gmap strings.

Local Open Scope string_scope.
Local Open Scope list_scope.
Local Open Scope Z_scope.

(** ** Errors, panics and the result of a call *)

(** The [error] values the program can see. *)
Inductive error : Type :=
| ParseError (Layout Value : string)   (* *time.ParseError of time.Parse *)
| PathError (Op Path : string)         (* *fs.PathError of os.Open, os.Create *)
| CalendarError                        (* the error of ics.ParseCalendar *)
| ErrInvalidDelim.                     (* csv: invalid field or comment delimiter *)

(** A call either returns a value, returns a non-nil [error], or panics.  The
    only panic of this program is the run-time error of reading a field
    through a nil pointer. *)
Inductive exec (A : Type) : Type :=
| Done (a : A)
| Failed (e : error)
| Panicked.

Arguments Done {A} a.
Arguments Failed {A} e.
Arguments Panicked {A}.

Definition exec_bind {A B : Type} (f : A -> exec B) (m : exec A) : exec B :=
  match m with
  | Done a => f a
  | Failed e => Failed e
  | Panicked => Panicked
  end.

#[export] Instance exec_mret : MRet exec := fun A a => Done a.
#[export] Instance exec_mbind : MBind exec := fun A B f m => exec_bind f m.

(** ** Package ics (github.com/arran4/golang-ical), as far as main uses it *)

Module ics.

(** A content line of a component: its name and its value. *)
Record IANAProperty : Type := mkProperty {
  IANAToken : string;
  Value : string
}.

Record VEvent : Type := mkEvent {
  Properties : list IANAProperty
}.

Record Calendar : Type := mkCalendar {
  Events : list VEvent
}.

(** [GetProperty] returns a pointer to the first property of that name, and
    nil when the component has none. *)
Definition GetProperty (event : VEvent) (name : string) : option IANAProperty :=
  List.find (fun p => String.eqb (IANAToken p) name) (Properties event).

End ics.

(** [p.Value] for a pointer [p]: a nil pointer dereference panics. *)
Definition deref_Value (p : option ics.IANAProperty) : exec string :=
  match p with
  | Some q => Done (ics.Value q)
  | None => Panicked
  end.

(** ** The event selector: the loop of main over [cal.Events()] *)

(** One pass of [for _, event := range cal.Events()], with [events] the slice
    built so far. *)
Fixpoint filterEvents (eventSummaryFilter : string) (calEvents : list ics.VEvent)
    (events : list ics.VEvent) : exec (list ics.VEvent) :=
  match calEvents with
  | [] => Done events
  | event :: rest =>
      eventSummary ← deref_Value (ics.GetProperty event "SUMMARY");
      if negb (String.eqb eventSummaryFilter "")
         && negb (String.eqb eventSummary eventSummaryFilter)
      then filterEvents eventSummaryFilter rest events
      else filterEvents eventSummaryFilter rest (events ++ [event])
  end.

(** [events := make([]*ics.VEvent, 0, len(cal.Events()))] and the loop. *)
Definition selectEvents (eventSummaryFilter : string) (cal : ics.Calendar)
    : exec (list ics.VEvent) :=
  filterEvents eventSummaryFilter (ics.Events cal) [].

(** ** Bytes and decimal digits *)

(** [s[i]] as a number. *)
Definition byte_of (c : ascii) : Z := Z.of_N (N_of_ascii c).

Definition ascii_of_byte (b : Z) : ascii := ascii_of_N (Z.to_N b).

(** ['0' <= c && c <= '9'] *)
Definition is_digit (c : ascii) : bool :=
  (48 <=? byte_of c) && (byte_of c <=? 57).

(** [c - '0'] *)
Definition digit_val (c : ascii) : Z := byte_of c - 48.

(** [byte('0' + d)] *)
Definition digit (d : Z) : ascii := ascii_of_byte (48 + d).

(** The decimal digits of [u >= 0], most significant first, put in front of
    [acc]; [fuel] bounds the number of digits. *)
Fixpoint decimal_fuel (fuel : nat) (u : Z) (acc : string) : string :=
  match fuel with
  | O => acc
  | S fuel' =>
      let acc' := String (digit (u mod 10)) acc in
      if u <? 10 then acc' else decimal_fuel fuel' (u / 10) acc'
  end.

Definition decimal (u : Z) : string :=
  decimal_fuel (S (Z.to_nat (Z.log2 u))) u "".

(** [n] copies of the byte ['0'] in front of [s]. *)
Fixpoint zeros (n : nat) (s : string) : string :=
  match n with
  | O => s
  | S n' => String "0" (zeros n' s)
  end.

(** Left padding with ['0'] up to [width] bytes. *)
Definition zero_pad (width : nat) (s : string) : string :=
  zeros (width - String.length s) s.

(** ** Package time, as far as main uses it *)

Module time.

(** A [time.Time] that [Parse] returns for a layout without a zone is an
    instant of UTC.  It is kept as its civil fields; [seconds] gives the
    instant, counted in seconds from 1 January of year 1. *)
Record Time : Type := mkTime {
  year : Z; month : Z; day : Z;
  hour : Z; min : Z; sec : Z; nsec : Z
}.

(** A [time.Duration]: an int64 count of nanoseconds. *)
Definition Duration : Type := Z.

Definition Nanosecond : Duration := 1.
Definition Second : Duration := 1000000000.
Definition Minute : Duration := 60 * Second.
Definition Hour : Duration := 60 * Minute.
Definition minDuration : Duration := - 2 ^ 63.
Definition maxDuration : Duration := 2 ^ 63 - 1.

Definition isLeap (y : Z) : bool :=
  (y mod 4 =? 0) && (negb (y mod 100 =? 0) || (y mod 400 =? 0)).

(** [daysBefore[m]]: the days of a non-leap year before month [m + 1]. *)
Definition daysBefore (m : Z) : Z :=
  match m with
  | 0 => 0 | 1 => 31 | 2 => 59 | 3 => 90 | 4 => 120 | 5 => 151 | 6 => 181
  | 7 => 212 | 8 => 243 | 9 => 273 | 10 => 304 | 11 => 334 | _ => 365
  end.

Definition daysIn (m y : Z) : Z :=
  if (m =? 2) && isLeap y then 29 else daysBefore m - daysBefore (m - 1).

(** The days from 1 January of year 1 to 1 January of year [y]. *)
Definition daysSinceEpoch (y : Z) : Z :=
  365 * (y - 1) + (y - 1) / 4 - (y - 1) / 100 + (y - 1) / 400.

(** The instant of [t] in seconds, as [Date] computes it from the fields:
    the days before the year, before the month and before the day, and the
    time elapsed in the day. *)
Definition seconds (t : Time) : Z :=
  let d := daysSinceEpoch (year t) + daysBefore (month t - 1)
           + (if isLeap (year t) && (3 <=? month t) then 1 else 0)
           + (day t - 1) in
  d * 86400 + hour t * 3600 + min t * 60 + sec t.

(** The instant in nanoseconds. *)
Definition nanoseconds (t : Time) : Z := seconds t * Second + nsec t.

(** [t.Before(u)] *)
Definition Before (t u : Time) : bool := nanoseconds t <? nanoseconds u.

(** [t.Sub(u)]: the difference, or the largest or smallest [Duration] when
    the difference does not fit an int64. *)
Definition Sub (t u : Time) : Duration :=
  let d := nanoseconds t - nanoseconds u in
  if d <? minDuration then minDuration
  else if maxDuration <? d then maxDuration
  else d.

(** *** Parsing *)

(** The elements of a layout that the two layouts of main use. *)
Inductive std : Type :=
| stdLongYear | stdZeroMonth | stdZeroDay
| stdHour | stdZeroMinute | stdZeroSecond.

(** A layout cut into chunks by [nextStdChunk]: the literal text before
    each element, and the element. *)
Definition layout : Type := list (string * std).

(** ["20060102T150405"] *)
Definition layout_20060102T150405 : layout :=
  [("", stdLongYear); ("", stdZeroMonth); ("", stdZeroDay);
   ("T", stdHour); ("", stdZeroMinute); ("", stdZeroSecond)].

(** ["2006/01/02"] *)
Definition layout_2006_01_02 : layout :=
  [("", stdLongYear); ("/", stdZeroMonth); ("/", stdZeroDay)].

(** ["15:04"] *)
Definition layout_15_04 : layout :=
  [("", stdHour); (":", stdZeroMinute)].

(** [leadingInt]: the number written by the leading digits of [s] and the
    rest of [s], with [x] the number read so far; it fails on overflow. *)
Fixpoint leadingInt (s : string) (x : Z) : option (Z * string) :=
  match s with
  | EmptyString => Some (x, s)
  | String c rest =>
      if negb (is_digit c) then Some (x, s)
      else if 2 ^ 63 / 10 <? x then None
      else
        let x' := x * 10 + digit_val c in
        if 2 ^ 63 <? x' then None else leadingInt rest x'
  end.

(** [atoi]: an optional sign and digits up to the end of [s]. *)
Definition atoi (s : string) : option Z :=
  let '(neg, s') :=
    match s with
    | String "-" r => (true, r)
    | String "+" r => (false, r)
    | _ => (false, s)
    end in
  match leadingInt s' 0 with
  | Some (q, EmptyString) => Some (if neg then - q else q)
  | _ => None
  end.

(** [getnum]: a number of two digits, or of one digit when [fixed] is
    false and no second digit follows. *)
Definition getnum (s : string) (fixed : bool) : option (Z * string) :=
  match s with
  | EmptyString => None
  | String c0 s1 =>
      if negb (is_digit c0) then None
      else
        match s1 with
        | String c1 s2 =>
            if is_digit c1 then Some (digit_val c0 * 10 + digit_val c1, s2)
            else if fixed then None else Some (digit_val c0, s1)
        | EmptyString => if fixed then None else Some (digit_val c0, s1)
        end
  end.

(** [skip]: [value] without the literal [prefix].  The prefixes of the
    layouts above hold no space, so the branch of [skip] that collapses
    runs of spaces is left out. *)
Fixpoint skip (value prefix : string) {struct prefix} : option string :=
  match prefix with
  | EmptyString => Some value
  | String p prefix' =>
      match value with
      | String v value' => if Ascii.eqb v p then skip value' prefix' else None
      | EmptyString => None
      end
  end.

Definition commaOrPeriod (c : ascii) : bool :=
  Ascii.eqb c "." || Ascii.eqb c ",".

(** The longest run of digits at the head of [s], and what follows it. *)
Fixpoint span_digits (s : string) : string * string :=
  match s with
  | String c rest =>
      if is_digit c then
        let '(ds, tl) := span_digits rest in (String c ds, tl)
      else (EmptyString, s)
  | EmptyString => (EmptyString, s)
  end.

(** [parseNanoseconds] on a separator followed by the digits [ds]: at most
    nine digits are read, and scaled to nanoseconds. *)
Definition parseNanoseconds (ds : string) : option Z :=
  let ds9 := String.substring 0 9 ds in
  match atoi ds9 with
  | Some ns => Some (ns * 10 ^ (9 - Z.of_nat (String.length ds9)))
  | None => None
  end.

(** The state of the loop of [Parse]: the fields read so far and the rest
    of the value. *)
Record parsing : Type := mkParsing {
  p_year : Z; p_month : Z; p_day : Z;
  p_hour : Z; p_min : Z; p_sec : Z; p_nsec : Z;
  p_value : string
}.

(** One case of the switch of [Parse]; [None] stands for [errBad] and for
    a range error alike, both of which make [Parse] return an error. *)
Definition parse_std (s : std) (p : parsing) : option parsing :=
  let value := p_value p in
  match s with
  | stdLongYear =>
      match value with
      | String c0 (String c1 (String c2 (String c3 value'))) =>
          if negb (is_digit c0) then None
          else
            match atoi (String c0 (String c1 (String c2 (String c3 "")))) with
            | Some y =>
                Some (mkParsing y (p_month p) (p_day p) (p_hour p) (p_min p)
                        (p_sec p) (p_nsec p) value')
            | None => None
            end
      | _ => None
      end
  | stdZeroMonth =>
      match getnum value true with
      | Some (m, value') =>
          if (m <=? 0) || (12 <? m) then None
          else Some (mkParsing (p_year p) m (p_day p) (p_hour p) (p_min p)
                       (p_sec p) (p_nsec p) value')
      | None => None
      end
  | stdZeroDay =>
      (* any day of two digits here; validated once the loop is over *)
      match getnum value true with
      | Some (d, value') =>
          Some (mkParsing (p_year p) (p_month p) d (p_hour p) (p_min p)
                  (p_sec p) (p_nsec p) value')
      | None => None
      end
  | stdHour =>
      match getnum value false with
      | Some (h, value') =>
          if (h <? 0) || (24 <=? h) then None
          else Some (mkParsing (p_year p) (p_month p) (p_day p) h (p_min p)
                       (p_sec p) (p_nsec p) value')
      | None => None
      end
  | stdZeroMinute =>
      match getnum value true with
      | Some (m, value') =>
          if (m <? 0) || (60 <=? m) then None
          else Some (mkParsing (p_year p) (p_month p) (p_day p) (p_hour p) m
                       (p_sec p) (p_nsec p) value')
      | None => None
      end
  | stdZeroSecond =>
      match getnum value true with
      | Some (s, value') =>
          if (s <? 0) || (60 <=? s) then None
          else
            (* a fractional second in the value though the layout has
               none: a comma or period and at least one digit *)
            match value' with
            | String c0 (String c1 rest) =>
                if commaOrPeriod c0 && is_digit c1 then
                  let '(ds, tl) := span_digits (String c1 rest) in
                  match parseNanoseconds ds with
                  | Some ns =>
                      Some (mkParsing (p_year p) (p_month p) (p_day p)
                              (p_hour p) (p_min p) s ns tl)
                  | None => None
                  end
                else
                  Some (mkParsing (p_year p) (p_month p) (p_day p)
                          (p_hour p) (p_min p) s (p_nsec p) value')
            | _ =>
                Some (mkParsing (p_year p) (p_month p) (p_day p)
                        (p_hour p) (p_min p) s (p_nsec p) value')
            end
      | None => None
      end
  end.

(** The loop of [Parse] over the chunks of the layout. *)
Fixpoint parse_chunks (l : layout) (p : parsing) : option parsing :=
  match l with
  | [] => Some p
  | (prefix, s) :: l' =>
      match skip (p_value p) prefix with
      | Some value =>
          match parse_std s (mkParsing (p_year p) (p_month p) (p_day p)
                               (p_hour p) (p_min p) (p_sec p) (p_nsec p) value) with
          | Some p' => parse_chunks l' p'
          | None => None
          end
      | None => None
      end
  end.

(** [time.Parse(layout, value)]: the loop, the check that no text is left,
    the check of the day against the month, and [Date] in UTC.  The fields
    start as in Parse: month and day 1, the rest 0. *)
Definition Parse (l : layout) (layoutText value : string) : exec Time :=
  match parse_chunks l (mkParsing 0 1 1 0 0 0 0 value) with
  | Some p =>
      if negb (String.eqb (p_value p) "") then
        Failed (ParseError layoutText value)   (* extra text *)
      else if (p_day p <? 1) || (daysIn (p_month p) (p_year p) <? p_day p) then
        Failed (ParseError layoutText value)   (* day out of range *)
      else
        Done (mkTime (p_year p) (p_month p) (p_day p)
                (p_hour p) (p_min p) (p_sec p) (p_nsec p))
  | None => Failed (ParseError layoutText value)
  end.

(** *** Formatting *)

(** [appendInt]: the decimal form of [x], a sign in front when negative,
    the digits padded with zeros to [width]. *)
Definition appendInt (x : Z) (width : nat) : string :=
  (if x <? 0 then "-" else "") +:+ zero_pad width (decimal (Z.abs x)).

Definition format_std (t : Time) (s : std) : string :=
  match s with
  | stdLongYear => appendInt (year t) 4
  | stdZeroMonth => appendInt (month t) 2
  | stdZeroDay => appendInt (day t) 2
  | stdHour => appendInt (hour t) 2
  | stdZeroMinute => appendInt (min t) 2
  | stdZeroSecond => appendInt (sec t) 2
  end.

(** [t.Format(layout)] *)
Fixpoint Format (t : Time) (l : layout) : string :=
  match l with
  | [] => ""
  | (prefix, s) :: l' => prefix +:+ format_std t s +:+ Format t l'
  end.

(** *** Durations as floating-point numbers *)

(** A [float64] is a binary64 number of IEEE 754, and its operations are
    those of the standard: the exact result, rounded to the nearest
    number of 53 bits, ties to even. *)
Definition float64 : Type := spec_float.

Definition prec : Z := 53.
Definition emax : Z := 1024.

(** [float64(x)] for an integer [x]. *)
Definition of_int (x : Z) : float64 := binary_normalize prec emax x 0 false.

(** [x + y] and [x / y] *)
Definition add (x y : float64) : float64 := SFadd prec emax x y.
Definition div (x y : float64) : float64 := SFdiv prec emax x y.

(** [int(f)] for a finite [f]: the integer part, rounded toward zero. *)
Definition int (f : float64) : Z :=
  match f with
  | S754_finite s m e =>
      let a := if 0 <=? e then Z.shiftl (Z.pos m) e else Z.shiftr (Z.pos m) (- e) in
      if s then - a else a
  | _ => 0
  end.

(** [d.Hours()]: [hour := d / Hour; nsec := d % Hour;
    float64(hour) + float64(nsec)/(60*60*1e9)], with the truncated
    division of Go. *)
Definition Hours (d : Duration) : float64 :=
  add (of_int (Z.quot d Hour))
    (div (of_int (Z.rem d Hour)) (of_int (60 * 60 * 1000000000))).

(** [d.Minutes()]: [min := d / Minute; nsec := d % Minute;
    float64(min) + float64(nsec)/(60*1e9)]. *)
Definition Minutes (d : Duration) : float64 :=
  add (of_int (Z.quot d Minute))
    (div (of_int (Z.rem d Minute)) (of_int (60 * 1000000000))).

End time.

(** ** Package fmt: the one format string of main *)

Module fmt.

(** The verb [%02d]: at least two bytes, zeros after the sign. *)
Definition verb_02d (n : Z) : string :=
  if n <? 0 then "-" +:+ zero_pad 1 (decimal (- n))
  else zero_pad 2 (decimal n).

(** [fmt.Sprintf("%02d:%02d", a, b)] *)
Definition Sprintf_02d_02d (a b : Z) : string :=
  verb_02d a +:+ ":" +:+ verb_02d b.

End fmt.

(** ** Package utf8: decoding the first rune of a string *)

Module utf8.

Definition RuneError : Z := 0xFFFD.
Definition MaxRune : Z := 0x10FFFF.

(** [utf8.ValidRune]: in range and not a surrogate half. *)
Definition ValidRune (r : Z) : bool :=
  ((0 <=? r) && (r <? 0xD800)) || ((0xDFFF <? r) && (r <=? MaxRune)).

Definition locb : Z := 0x80.
Definition hicb : Z := 0xBF.
Definition maskx : Z := 0x3F.
Definition mask2 : Z := 0x1F.
Definition mask3 : Z := 0x0F.
Definition mask4 : Z := 0x07.

(** What the table [first] and [acceptRanges] say of a first byte: a rune
    of one byte, an invalid byte, or the size of the sequence and the
    range accepted for its second byte. *)
Inductive firstInfo : Type :=
| ASCII
| Invalid
| Lead (size : nat) (lo hi : Z).

Definition first (s0 : Z) : firstInfo :=
  if s0 <? 0x80 then ASCII
  else if s0 <? 0xC2 then Invalid
  else if s0 <? 0xE0 then Lead 2 locb hicb
  else if s0 =? 0xE0 then Lead 3 0xA0 hicb
  else if s0 <? 0xED then Lead 3 locb hicb
  else if s0 =? 0xED then Lead 3 locb 0x9F
  else if s0 <? 0xF0 then Lead 3 locb hicb
  else if s0 =? 0xF0 then Lead 4 0x90 hicb
  else if s0 <? 0xF4 then Lead 4 locb hicb
  else if s0 =? 0xF4 then Lead 4 locb 0x8F
  else Invalid.

(** [utf8.DecodeRuneInString(s)]: the first rune of [s] and its width in
    bytes; [(RuneError, 0)] for the empty string and [(RuneError, 1)] for
    an invalid encoding. *)
Definition DecodeRuneInString (s : string) : Z * Z :=
  match s with
  | EmptyString => (RuneError, 0)
  | String c0 t0 =>
      let s0 := byte_of c0 in
      match first s0 with
      | ASCII => (s0, 1)
      | Invalid => (RuneError, 1)
      | Lead sz lo hi =>
          if (String.length s <? sz)%nat then (RuneError, 1)
          else
            match t0 with
            | EmptyString => (RuneError, 1)
            | String c1 t1 =>
                let s1 := byte_of c1 in
                if (s1 <? lo) || (hi <? s1) then (RuneError, 1)
                else if (sz <=? 2)%nat then
                  (Z.lor (Z.shiftl (Z.land s0 mask2) 6) (Z.land s1 maskx), 2)
                else
                  match t1 with
                  | EmptyString => (RuneError, 1)
                  | String c2 t2 =>
                      let s2 := byte_of c2 in
                      if (s2 <? locb) || (hicb <? s2) then (RuneError, 1)
                      else if (sz <=? 3)%nat then
                        (Z.lor (Z.lor (Z.shiftl (Z.land s0 mask3) 12)
                                  (Z.shiftl (Z.land s1 maskx) 6))
                           (Z.land s2 maskx), 3)
                      else
                        match t2 with
                        | EmptyString => (RuneError, 1)
                        | String c3 _ =>
                            let s3 := byte_of c3 in
                            if (s3 <? locb) || (hicb <? s3) then (RuneError, 1)
                            else
                              (Z.lor (Z.lor (Z.lor (Z.shiftl (Z.land s0 mask4) 18)
                                               (Z.shiftl (Z.land s1 maskx) 12))
                                        (Z.shiftl (Z.land s2 maskx) 6))
                                 (Z.land s3 maskx), 4)
                        end
                  end
            end
      end
  end.


End utf8.

(** ** Package sort: [sort.Slice] *)

Module sort.

(** *** The implementation of the library *)

Section lessSwap.
Context {A : Type}.
Variable less : A -> A -> bool.

(** [data.Less(i, j)] and [data.Swap(i, j)] on the slice [data]; the
    indexes of a run of [Slice] are in range. *)
Definition Less (data : list A) (i j : Z) : bool :=
  match data !! Z.to_nat i, data !! Z.to_nat j with
  | Some x, Some y => less x y
  | _, _ => false
  end.

Definition Swap (data : list A) (i j : Z) : list A :=
  match data !! Z.to_nat i, data !! Z.to_nat j with
  | Some x, Some y => <[Z.to_nat j := x]> (<[Z.to_nat i := y]> data)
  | _, _ => data
  end.

(** [for j := i; j > a && data.Less(j, j-1); j-- { data.Swap(j, j-1) }],
    of at most [n] rounds. *)
Fixpoint sink_left (n : nat) (data : list A) (a j : Z) : list A :=
  match n with
  | O => data
  | S n' =>
      if (a <? j) && Less data j (j - 1)
      then sink_left n' (Swap data j (j - 1)) a (j - 1)
      else data
  end.

(** [for i := a + 1; i < b; i++], from [i] on. *)
Fixpoint insertion_from (n : nat) (data : list A) (a b i : Z) : list A :=
  match n with
  | O => data
  | S n' =>
      if i <? b
      then insertion_from n' (sink_left (Z.to_nat (i - a)) data a i) a b (i + 1)
      else data
  end.

(** [insertionSort_func] sorts [data[a:b]]. *)
Definition insertionSort_func (data : list A) (a b : Z) : list A :=
  insertion_from (Z.to_nat (b - a)) data a b (a + 1).

(** [siftDown_func], from [root] on. *)
Fixpoint siftDown_from (n : nat) (data : list A) (root hi first : Z) : list A :=
  match n with
  | O => data
  | S n' =>
      let child := 2 * root + 1 in
      if hi <=? child then data
      else
        let child :=
          if (child + 1 <? hi) && Less data (first + child) (first + child + 1)
          then child + 1 else child in
        if negb (Less data (first + root) (first + child)) then data
        else siftDown_from n' (Swap data (first + root) (first + child))
               child hi first
  end.

Definition siftDown_func (data : list A) (lo hi first : Z) : list A :=
  siftDown_from (Z.to_nat hi) data lo hi first.

(** [for i := (hi - 1) / 2; i >= 0; i-- { siftDown_func(data, i, hi, first) }] *)
Fixpoint heapify (n : nat) (data : list A) (i hi first : Z) : list A :=
  match n with
  | O => data
  | S n' =>
      if 0 <=? i then heapify n' (siftDown_func data i hi first) (i - 1) hi first
      else data
  end.

(** [for i := hi - 1; i >= 0; i--]: the largest element goes to the end. *)
Fixpoint pop_all (n : nat) (data : list A) (i lo first : Z) : list A :=
  match n with
  | O => data
  | S n' =>
      if 0 <=? i
      then pop_all n' (siftDown_func (Swap data first (first + i)) lo i first)
             (i - 1) lo first
      else data
  end.

Definition heapSort_func (data : list A) (a b : Z) : list A :=
  let first := a in
  let lo := 0 in
  let hi := b - a in
  let data := heapify (Z.to_nat hi) data (Z.quot (hi - 1) 2) hi first in
  pop_all (Z.to_nat hi) data (hi - 1) lo first.

(** [for i <= j && p(i) { i++ }] and [for i <= j && p(j) { j-- }] *)
Fixpoint scan_up (n : nat) (p : Z -> bool) (i j : Z) : Z :=
  match n with
  | O => i
  | S n' => if (i <=? j) && p i then scan_up n' p (i + 1) j else i
  end.

Fixpoint scan_down (n : nat) (p : Z -> bool) (i j : Z) : Z :=
  match n with
  | O => j
  | S n' => if (i <=? j) && p j then scan_down n' p i (j - 1) else j
  end.

Definition span (i j : Z) : nat := Z.to_nat (j - i + 1).

(** The second loop of [partition_func]; it ends with [j]. *)
Fixpoint partition_loop (n : nat) (data : list A) (a i j : Z) : list A * Z :=
  match n with
  | O => (data, j)
  | S n' =>
      let i := scan_up (span i j) (fun i => Less data i a) i j in
      let j := scan_down (span i j) (fun j => negb (Less data j a)) i j in
      if j <? i then (data, j)
      else partition_loop n' (Swap data i j) a (i + 1) (j - 1)
  end.

(** [partition_func]: one quicksort partition of [data[a:b]] around the
    element at [pivot]; the new place of the pivot, and whether the slice
    was partitioned already. *)
Definition partition_func (data : list A) (a b pivot : Z)
    : list A * Z * bool :=
  let data := Swap data a pivot in
  let i := a + 1 in
  let j := b - 1 in
  let i := scan_up (span i j) (fun i => Less data i a) i j in
  let j := scan_down (span i j) (fun j => negb (Less data j a)) i j in
  if j <? i then (Swap data j a, j, true)
  else
    let data := Swap data i j in
    let '(data, j) := partition_loop (span i j) data a (i + 1) (j - 1) in
    (Swap data j a, j, false).

(** The loop of [partitionEqual_func]; it ends with [i]. *)
Fixpoint partitionEqual_loop (n : nat) (data : list A) (a i j : Z)
    : list A * Z :=
  match n with
  | O => (data, i)
  | S n' =>
      let i := scan_up (span i j) (fun i => negb (Less data a i)) i j in
      let j := scan_down (span i j) (fun j => Less data a j) i j in
      if j <? i then (data, i)
      else partitionEqual_loop n' (Swap data i j) a (i + 1) (j - 1)
  end.

(** [partitionEqual_func]: the elements equal to the pivot, then the
    larger ones. *)
Definition partitionEqual_func (data : list A) (a b pivot : Z) : list A * Z :=
  let data := Swap data a pivot in
  partitionEqual_loop (S (span (a + 1) (b - 1))) data a (a + 1) (b - 1).

(** The two shifts of [partialInsertionSort_func]:
    [for j := i - 1; j >= 1; j--] and [for j := i + 1; j < b; j++]. *)
Fixpoint shift_left (n : nat) (data : list A) (j : Z) : list A :=
  match n with
  | O => data
  | S n' =>
      if (1 <=? j) && Less data j (j - 1)
      then shift_left n' (Swap data j (j - 1)) (j - 1)
      else data
  end.

Fixpoint shift_right (n : nat) (data : list A) (j b : Z) : list A :=
  match n with
  | O => data
  | S n' =>
      if (j <? b) && Less data j (j - 1)
      then shift_right n' (Swap data j (j - 1)) (j + 1) b
      else data
  end.

(** [for j := 0; j < maxSteps; j++], with [n] steps left. *)
Fixpoint partialInsertion_steps (n : nat) (data : list A) (a b i : Z)
    : list A * bool :=
  match n with
  | O => (data, false)
  | S n' =>
      let i := scan_up (span i (b - 1)) (fun i => negb (Less data i (i - 1)))
                 i (b - 1) in
      if i =? b then (data, true)
      else if b - a <? 50 then (data, false)
      else
        let data := Swap data i (i - 1) in
        let data :=
          if 2 <=? i - a then shift_left (Z.to_nat i) data (i - 1) else data in
        let data :=
          if 2 <=? b - i then shift_right (Z.to_nat (b - i)) data (i + 1) b
          else data in
        partialInsertion_steps n' data a b i
  end.

(** [partialInsertionSort_func]: whether the slice is sorted at the end. *)
Definition partialInsertionSort_func (data : list A) (a b : Z)
    : list A * bool :=
  partialInsertion_steps 5 data a b (a + 1).

(** [order2_func] and [median_func], with the count of swaps. *)
Definition order2_func (data : list A) (a b swaps : Z) : Z * Z * Z :=
  if Less data b a then (b, a, swaps + 1) else (a, b, swaps).

Definition median_func (data : list A) (a b c swaps : Z) : Z * Z :=
  let '(a, b, swaps) := order2_func data a b swaps in
  let '(b, c, swaps) := order2_func data b c swaps in
  let '(a, b, swaps) := order2_func data a b swaps in
  (b, swaps).

Definition medianAdjacent_func (data : list A) (a swaps : Z) : Z * Z :=
  median_func data (a - 1) a (a + 1) swaps.

Inductive sortedHint : Type :=
| unknownHint
| increasingHint
| decreasingHint.

(** [choosePivot_func]: a static pivot below 8 elements, the median of
    three below 50, and Tukey's ninther from there on. *)
Definition choosePivot_func (data : list A) (a b : Z) : Z * sortedHint :=
  let l := b - a in
  let swaps := 0 in
  let i := a + Z.quot l 4 * 1 in
  let j := a + Z.quot l 4 * 2 in
  let k := a + Z.quot l 4 * 3 in
  let '(j, swaps) :=
    if 8 <=? l then
      let '(i, j, k, swaps) :=
        if 50 <=? l then
          let '(i, swaps) := medianAdjacent_func data i swaps in
          let '(j, swaps) := medianAdjacent_func data j swaps in
          let '(k, swaps) := medianAdjacent_func data k swaps in
          (i, j, k, swaps)
        else (i, j, k, swaps) in
      median_func data i j k swaps
    else (j, swaps) in
  if swaps =? 0 then (j, increasingHint)
  else if swaps =? 4 * 3 then (j, decreasingHint)
  else (j, unknownHint).

(** [reverseRange_func] *)
Fixpoint reverse_from (n : nat) (data : list A) (i j : Z) : list A :=
  match n with
  | O => data
  | S n' =>
      if i <? j then reverse_from n' (Swap data i j) (i + 1) (j - 1) else data
  end.

Definition reverseRange_func (data : list A) (a b : Z) : list A :=
  reverse_from (Z.to_nat (b - a)) data a (b - 1).

(** [bits.Len(uint(length))] *)
Definition bits_Len (x : Z) : Z := if x <=? 0 then 0 else Z.log2 x + 1.

(** [xorshift.Next], on 64 bits. *)
Definition xorshift_Next (r : Z) : Z :=
  let r := Z.lxor r (Z.shiftl r 13 mod 2 ^ 64) in
  let r := Z.lxor r (Z.shiftr r 7) in
  Z.lxor r (Z.shiftl r 17 mod 2 ^ 64).

Definition nextPowerOfTwo (length : Z) : Z := Z.shiftl 1 (bits_Len length).

(** The three swaps of [breakPatterns_func]. *)
Fixpoint breakPatterns_from (n : nat) (data : list A) (a length idx i random
    modulus : Z) : list A :=
  match n with
  | O => data
  | S n' =>
      let random := xorshift_Next random in
      let other := Z.land random (modulus - 1) in
      let other := if length <=? other then other - length else other in
      breakPatterns_from n' (Swap data (idx - 1 + i) (a + other)) a length idx
        (i + 1) random modulus
  end.

Definition breakPatterns_func (data : list A) (a b : Z) : list A :=
  let length := b - a in
  if 8 <=? length then
    breakPatterns_from 3 data a length (a + Z.quot length 4 * 2 - 1) 0
      length (nextPowerOfTwo length)
  else data.

(** [pdqsort_func] sorts [data[a:b]].  Its loop is the call on what is left
    of the slice, with the two flags of the loop; the recursive call of the
    source starts with both flags set.  [fuel] bounds the depth of the
    calls, and no result stands for a run that needs more. *)
Fixpoint pdqsort_loop (fuel : nat) (data : list A) (a b limit : Z)
    (wasBalanced wasPartitioned : bool) : option (list A) :=
  match fuel with
  | O => None
  | S fuel' =>
      let length := b - a in
      if length <=? 12 then Some (insertionSort_func data a b)
      else if limit =? 0 then Some (heapSort_func data a b)
      else
        let '(data, limit) :=
          if negb wasBalanced then (breakPatterns_func data a b, limit - 1)
          else (data, limit) in
        let '(pivot, hint) := choosePivot_func data a b in
        let '(data, pivot, hint) :=
          match hint with
          | decreasingHint =>
              (reverseRange_func data a b, (b - 1) - (pivot - a), increasingHint)
          | _ => (data, pivot, hint)
          end in
        let '(data, sorted) :=
          match hint with
          | increasingHint =>
              if wasBalanced && wasPartitioned
              then partialInsertionSort_func data a b
              else (data, false)
          | _ => (data, false)
          end in
        if sorted then Some data
        else if (0 <? a) && negb (Less data (a - 1) pivot) then
          let '(data, mid) := partitionEqual_func data a b pivot in
          pdqsort_loop fuel' data mid b limit wasBalanced wasPartitioned
        else
          let '(data, mid, alreadyPartitioned) :=
            partition_func data a b pivot in
          let leftLen := mid - a in
          let rightLen := b - mid in
          let balanceThreshold := Z.quot length 8 in
          if leftLen <? rightLen then
            data ← pdqsort_loop fuel' data a mid limit true true;
            pdqsort_loop fuel' data (mid + 1) b limit
              (balanceThreshold <=? leftLen) alreadyPartitioned
          else
            data ← pdqsort_loop fuel' data (mid + 1) b limit true true;
            pdqsort_loop fuel' data a mid limit
              (balanceThreshold <=? rightLen) alreadyPartitioned
  end.

Definition pdqsort_func (fuel : nat) (data : list A) (a b limit : Z)
    : option (list A) :=
  pdqsort_loop fuel data a b limit true true.

End lessSwap.

(** [sort.Slice(x, less)] as the library implements it, by pattern-defeating
    quicksort.  Every call of [pdqsort_func] is on a shorter part of the
    slice, so the fuel is one more than the length; the slice is left as it
    is should that not suffice. *)
Definition Slice (A : Type) (less : A -> A -> bool) (x : list A) : list A :=
  let length := Z.of_nat (List.length x) in
  default x (pdqsort_func less (S (List.length x)) x 0 length (bits_Len length)).

(** *** What [sort.Slice] promises *)

(** The requirement on [less]: a strict weak ordering. *)
Record StrictWeakOrder {A : Type} (less : A -> A -> bool) : Prop := {
  less_irrefl : forall x, less x x = false;
  less_trans : forall x y z, less x y = true -> less y z = true -> less x z = true;
  less_incomparable_trans :
    forall x y z, less x y = false -> less y z = false -> less x z = false
}.

(** Ascending order as determined by [less]: no element is less than one
    that stands before it. *)
Definition Ascending {A : Type} (less : A -> A -> bool) (l : list A) : Prop :=
  StronglySorted (fun x y => less y x = false) l.

(** An implementation of [sort.Slice], for the releases of the library
    differ in theirs. *)
Definition Implementation : Type :=
  forall A : Type, (A -> A -> bool) -> list A -> list A.

(** The promise of its documentation: the slice is rearranged, and the
    result is ascending when [less] is a strict weak ordering.  The sort
    is not guaranteed to be stable. *)
Record Contract (slice : Implementation) : Prop := {
  Slice_Permutation :
    forall (A : Type) (less : A -> A -> bool) (l : list A),
      Permutation (slice A less l) l;
  Slice_Ascending :
    forall (A : Type) (less : A -> A -> bool) (l : list A),
      StrictWeakOrder less -> Ascending less (slice A less l)
}.

(** Insertion sort on lists, the simplest implementation that keeps the
    promise: the element [x] moves left past the elements it is
    less than; [before] holds the sorted elements before it, the nearest
    first. *)
Fixpoint insert_left {A : Type} (less : A -> A -> bool) (x : A)
    (before : list A) : list A :=
  match before with
  | [] => [x]
  | y :: before' =>
      if less x y then y :: insert_left less x before' else x :: before
  end.

Definition insertionSort {A : Type} (less : A -> A -> bool) (l : list A)
    : list A :=
  rev (fold_left (fun before x => insert_left less x before) l []).

End sort.

(** ** Package csv: the delimiter check of [Writer.Write] *)

Module csv.

(** [validDelim] *)
Definition validDelim (r : Z) : bool :=
  negb (r =? 0) && negb (r =? 34) && negb (r =? 13) && negb (r =? 10)
  && utf8.ValidRune r && negb (r =? utf8.RuneError).

(** A [csv.Writer]: the delimiter, and the bytes held by its buffered
    writer until [Flush]. *)
Record Writer : Type := mkWriter {
  Comma : Z;
  buffered : string
}.

(** [csv.NewWriter]: the delimiter is a comma until it is set. *)
Definition NewWriter : Writer := mkWriter 44 "".

End csv.

(** ** The program *)

Record CliArgs : Type := mkCliArgs {
  icsPath : string;
  outPath : string;
  eventSummaryFilter : string;
  name : string;
  comma : string;
  isStdout : bool
}.

Definition parseTime (timeString : string) : exec time.Time :=
  time.Parse time.layout_20060102T150405 "20060102T150405" timeString.

Definition formatDuration (d : time.Duration) : string :=
  let hours := time.int (time.Hours d) in
  let minutes := time.int (time.Minutes d) - hours * 60 in
  fmt.Sprintf_02d_02d hours minutes.

Record Column : Type := mkColumn {
  col_name : string;
  date : string;
  startTime : string;
  endTime : string;
  duration : string
}.

Definition NewColumn (event : ics.VEvent) (name : string) : exec Column :=
  v ← deref_Value (ics.GetProperty event "DTSTART");
  start ← parseTime v;
  v' ← deref_Value (ics.GetProperty event "DTEND");
  end' ← parseTime v';
  Done {|
    col_name := name;
    date := time.Format start time.layout_2006_01_02;
    startTime := time.Format start time.layout_15_04;
    endTime := time.Format end' time.layout_15_04;
    duration := formatDuration (time.Sub end' start)
  |}.

(** The loop that fills [columns]: [columns[i] = column] for the event at
    index [i]; the first failure ends it. *)
Fixpoint fillColumns (events : list ics.VEvent) (name : string) (i : nat)
    (columns : list Column) : exec (list Column) :=
  match events with
  | [] => Done columns
  | event :: rest =>
      column ← NewColumn event name;
      fillColumns rest name (S i) (<[i := column]> columns)
  end.

(** [columns := make([]Column, len(events))] and the loop. *)
Definition createColumns (events : list ics.VEvent) (name : string)
    : exec (list Column) :=
  fillColumns events name 0
    (replicate (List.length events) (mkColumn "" "" "" "" "")).

(** The [less] of the call of [sort.Slice], on the elements at [i] and [j]. *)
Definition less (a b : Column) : bool :=
  String.ltb (date a) (date b)
  || (String.eqb (date a) (date b) && String.ltb (startTime a) (startTime b)).

(** The record that [writeCsv] writes for a column. *)
Definition record_of (col : Column) : list string :=
  [col_name col; date col; startTime col; endTime col; duration col].

(** ** The world of a run: files, standard output and the calls made *)

(** Where the rows go. *)
Inductive sink : Type :=
| Stdout
| File (path : string).

(** The calls of a run that reach the operating system. *)
Inductive effect : Type :=
| EvOpen (path : string)                  (* os.Open *)
| EvCreate (path : string)                (* os.Create *)
| EvWrite (to : sink) (data : string)     (* the bytes flushed to the sink *)
| EvClose (path : string).                (* Close of a file *)

Record World : Type := mkWorld {
  files : gmap string string;     (* the content of each file *)
  readonly : gset string;         (* the paths that cannot be created *)
  stdout : string                 (* the bytes written to os.Stdout so far *)
}.

(** How a run ends: main returns, [log.Fatal] prints the error and exits with
    status 1 without running the deferred calls, or a panic unwinds main. *)
Inductive exit : Type :=
| ExitOk
| ExitFatal (e : error)
| ExitPanic.

Record Run : Type := mkRun {
  run_exit : exit;
  run_world : World;
  run_trace : list effect
}.

(** [os.Create(path)]: the file exists and is empty afterwards. *)
Definition os_Create (w : World) (path : string) : exec World :=
  if decide (path ∈ readonly w) then Failed (PathError "open" path)
  else Done (mkWorld (<[path := ""]> (files w)) (readonly w) (stdout w)).

(** The bytes [data] reach the sink. *)
Definition write_sink (w : World) (to : sink) (data : string) : World :=
  match to with
  | Stdout => mkWorld (files w) (readonly w) (stdout w +:+ data)
  | File path =>
      mkWorld (<[path := default "" (files w !! path) +:+ data]> (files w))
        (readonly w) (stdout w)
  end.

Section Program.

(** The libraries that main calls and that this development does not look
    into: the calendar parser, which turns the content of the file into a
    calendar or fails; the bytes that [csv.Writer.Write] emits for one
    record under a delimiter (the fields, quoted where needed, joined by the
    delimiter and ended by a newline); and the implementation of
    [sort.Slice]. *)
Variable ParseCalendar : string -> option ics.Calendar.
Variable encodeRecord : Z -> list string -> string.
Variable sorter : sort.Implementation.

(** [w.Write(record)]: the delimiter is checked, then the record goes to
    the buffer of the writer. *)
Definition csv_Write (w : csv.Writer) (record : list string) : exec csv.Writer :=
  if negb (csv.validDelim (csv.Comma w)) then Failed ErrInvalidDelim
  else Done (csv.mkWriter (csv.Comma w)
               (csv.buffered w +:+ encodeRecord (csv.Comma w) record)).

(** [writeCsv] receives a copy of the writer, which shares the buffer of
    the original; the buffer is returned here. *)
Fixpoint writeCsv (w : csv.Writer) (cols : list Column) : exec csv.Writer :=
  match cols with
  | [] => Done w
  | col :: rest =>
      w' ← csv_Write w (record_of col);
      writeCsv w' rest
  end.

(** [sort.Slice(columns, less)] *)
Definition sortColumns (columns : list Column) : list Column :=
  sorter Column less columns.

(** [c, _ := utf8.DecodeRuneInString(args.comma)] *)
Definition delimiter (args : CliArgs) : Z :=
  fst (utf8.DecodeRuneInString (comma args)).

(** The rows go through a [csv.Writer] on the sink [writer], whose
    delimiter is set after [csv.NewWriter].  On return the deferred calls
    run: [w.Flush()], then [closing], then [icsFile.Close()]. *)
Definition writeRows (args : CliArgs) (columns : list Column) (writer : sink)
    (w : World) (trace closing : list effect) : Run :=
  let cw := csv.mkWriter (delimiter args) (csv.buffered csv.NewWriter) in
  match writeCsv cw columns with
  | Done cw' =>
      mkRun ExitOk (write_sink w writer (csv.buffered cw'))
        (trace ++ [EvWrite writer (csv.buffered cw')] ++ closing
           ++ [EvClose (icsPath args)])
  | Failed e => mkRun (ExitFatal e) w trace
  | Panicked => mkRun ExitPanic w (trace ++ closing ++ [EvClose (icsPath args)])
  end.

(** The last part of main, from [// write csv] on: the sink is standard
    output, or the file that [os.Create] opens. *)
Definition writeOutput (args : CliArgs) (columns : list Column)
    (w : World) (trace : list effect) : Run :=
  if isStdout args then writeRows args columns Stdout w trace []
  else
    match os_Create w (outPath args) with
    | Done w' =>
        writeRows args columns (File (outPath args)) w'
          (trace ++ [EvCreate (outPath args)]) [EvClose (outPath args)]
    | Failed e => mkRun (ExitFatal e) w (trace ++ [EvCreate (outPath args)])
    | Panicked => mkRun ExitPanic w (trace ++ [EvClose (icsPath args)])
    end.

(** [main], with the parsed arguments and the world it runs in.  A panic
    runs the deferred [icsFile.Close()]; [log.Fatal] runs nothing. *)
Definition main (args : CliArgs) (w : World) : Run :=
  let trace := [EvOpen (icsPath args)] in
  match files w !! icsPath args with
  | None => mkRun (ExitFatal (PathError "open" (icsPath args))) w trace
  | Some content =>
      match ParseCalendar content with
      | None => mkRun (ExitFatal CalendarError) w trace
      | Some cal =>
          match selectEvents (eventSummaryFilter args) cal with
          | Panicked => mkRun ExitPanic w (trace ++ [EvClose (icsPath args)])
          | Failed e => mkRun (ExitFatal e) w trace
          | Done events =>
              match createColumns events (name args) with
              | Panicked => mkRun ExitPanic w (trace ++ [EvClose (icsPath args)])
              | Failed e => mkRun (ExitFatal e) w trace
              | Done columns => writeOutput args (sortColumns columns) w trace
              end
          end
      end
  end.

End Program.

(** * The vocabulary of the statements *)

(** ** Checking a property of every number of a range *)

(** [p] holds of the [n] numbers from [lo] on. *)
Fixpoint all_from (p : Z -> bool) (n : nat) (lo : Z) : bool :=
  match n with
  | O => true
  | S n' => if p lo then all_from p n' (lo + 1) else false
  end.

(** ** Fixed-width decimal fields *)

Definition two_digits (n : Z) : string :=
  String (digit (n / 10)) (String (digit (n mod 10)) "").

Definition four_digits (n : Z) : string :=
  String (digit (n / 1000)) (String (digit (n / 100 mod 10))
    (String (digit (n / 10 mod 10)) (String (digit (n mod 10)) ""))).

Fixpoint all_digits (s : string) : bool :=
  match s with
  | EmptyString => true
  | String c rest => is_digit c && all_digits rest
  end.

(** The number that the digits of [s] write, after the digits of [x]. *)
Fixpoint number (s : string) (x : Z) : Z :=
  match s with
  | EmptyString => x
  | String c rest => number rest (x * 10 + digit_val c)
  end.

(** ** Events *)

Definition has_summary (event : ics.VEvent) : Prop :=
  is_Some (ics.GetProperty event "SUMMARY").

Definition summary_is (text : string) (event : ics.VEvent) : bool :=
  match ics.GetProperty event "SUMMARY" with
  | Some p => String.eqb (ics.Value p) text
  | None => false
  end.

(** What the selector is to return: every event for the empty filter, and
    otherwise the events whose summary is the filter, in their order. *)
Definition selected (filter : string) (events : list ics.VEvent)
    : list ics.VEvent :=
  if String.eqb filter "" then events
  else List.filter (summary_is filter) events.

(** ** Timestamps *)

(** The fields of a date and time of day that exist. *)
Definition valid_civil (t : time.Time) : Prop :=
  0 <= time.year t <= 9999
  /\ 1 <= time.month t <= 12
  /\ 1 <= time.day t <= time.daysIn (time.month t) (time.year t)
  /\ 0 <= time.hour t <= 23
  /\ 0 <= time.min t <= 59
  /\ 0 <= time.sec t <= 59.

(** The text [YYYYMMDDThhmmss] of [t]. *)
Definition compact (t : time.Time) : string :=
  time.Format t time.layout_20060102T150405.

(** A string matches the pattern when it is the compact text of a valid
    date and time. *)
Definition matches_pattern (s : string) : Prop :=
  exists t, valid_civil t /\ time.nsec t = 0 /\ s = compact t.

(** The nanoseconds that the digits [ds] of a fractional second stand for:
    the first nine digits count. *)
Definition fraction_nsec (ds : string) : Z :=
  let ds9 := String.substring 0 9 ds in
  number ds9 0 * 10 ^ (9 - Z.of_nat (String.length ds9)).

(** A fractional second: nothing, or a period or comma and at least one
    digit, and only digits. *)
Inductive fraction : string -> Z -> Prop :=
| fraction_none : fraction "" 0
| fraction_some (c : ascii) (ds : string) :
    time.commaOrPeriod c = true ->
    ds <> "" ->
    all_digits ds = true ->
    fraction (String c ds) (fraction_nsec ds).

(** The sort key of the row of a timestamp: [less] on the rows of [t] and
    [u] compares the formatted date, then the formatted start time. *)
Definition key_before (t u : time.Time) : bool :=
  String.ltb (time.Format t time.layout_2006_01_02)
    (time.Format u time.layout_2006_01_02)
  || (String.eqb (time.Format t time.layout_2006_01_02)
        (time.Format u time.layout_2006_01_02)
      && String.ltb (time.Format t time.layout_15_04)
           (time.Format u time.layout_15_04)).

(** Comparing first by [c], then by [k]. *)
Definition lex (c k : comparison) : comparison :=
  match c with
  | Eq => k
  | _ => c
  end.

(** The day of the year of [t], from 0. *)
Definition yday (t : time.Time) : Z :=
  time.daysBefore (time.month t - 1)
  + (if time.isLeap (time.year t) && (3 <=? time.month t) then 1 else 0)
  + (time.day t - 1).

(** The minute in which the instant [t] lies, counted from 1 January of
    year 1. *)
Definition minute_of (t : time.Time) : Z := time.seconds t / 60.

(** ** Rows and their order *)

(** Lexicographic comparison of strings, byte by byte. *)
Definition string_lt (s t : string) : Prop := String.ltb s t = true.
Definition string_le (s t : string) : Prop := String.leb s t = true.

(** The composite key in words: [a] comes no later than [b] when its date
    is smaller, or the dates are equal and its start time is not larger. *)
Definition key_le (a b : Column) : Prop :=
  string_lt (date a) (date b)
  \/ (date a = date b /\ string_le (startTime a) (startTime b)).

(** The rows with the date and start time of [k]. *)
Definition same_key (k a : Column) : bool :=
  String.eqb (date a) (date k) && String.eqb (startTime a) (startTime k).

(** Stability: among the rows of any one key, the output keeps the order
    of the input. *)
Definition stable (input output : list Column) : Prop :=
  forall k, List.filter (same_key k) output = List.filter (same_key k) input.

(** A second way to meet the promise of [sort.Slice]: equal elements come
    out in the reverse of their original order. *)
Definition reversingSort {A : Type} (less : A -> A -> bool) (l : list A)
    : list A :=
  sort.insertionSort less (rev l).

(** ** Durations *)

(** The text [HH:MM] of a span in words: the whole hours of the span, and
    the whole minutes that remain, each of two digits at least. *)
Definition hh_mm (d : time.Duration) : string :=
  fmt.verb_02d (d / time.Hour) +:+ ":" +:+ fmt.verb_02d (d / time.Minute mod 60).

(** ** Runes *)








(** ** Rows of a calendar *)



Definition well_formed (event : ics.VEvent) (prop : string) : Prop :=
  exists p t, ics.GetProperty event prop = Some p
              /\ parseTime (ics.Value p) = Done t.


(** The rows of a list of events, one after the other; the first failure
    is the result. *)
Fixpoint buildAll (events : list ics.VEvent) (name : string)
    : exec (list Column) :=
  match events with
  | [] => Done []
  | event :: rest =>
      column ← NewColumn event name;
      columns ← buildAll rest name;
      Done (column :: columns)
  end.



(** The bytes of all the rows, in their order. *)
Fixpoint serialize (encodeRecord : Z -> list string -> string) (delim : Z)
    (columns : list Column) : string :=
  match columns with
  | [] => ""
  | col :: rest =>
      encodeRecord delim (record_of col) +:+ serialize encodeRecord delim rest
  end.

(** The sorted rows of the content of a calendar file: parse, select, build
    and sort. *)
Definition rows_of (ParseCalendar : string -> option ics.Calendar)
    (sorter : sort.Implementation) (args : CliArgs) (content : string)
    : exec (list Column) :=
  match ParseCalendar content with
  | None => Failed CalendarError
  | Some cal =>
      events ← selectEvents (eventSummaryFilter args) cal;
      columns ← createColumns events (name args);
      Done (sortColumns sorter columns)
  end.


(** ** A sample calendar *)

Definition event_of (summary dtstart dtend : string) : ics.VEvent :=
  ics.mkEvent [ics.mkProperty "SUMMARY" summary;
               ics.mkProperty "DTSTART" dtstart;
               ics.mkProperty "DTEND" dtend].

Definition standup : ics.VEvent :=
  event_of "Standup" "20240101T090000" "20240101T091500".

Definition lunch : ics.VEvent :=
  event_of "Lunch" "20240101T120000" "20240101T130000".

(** An event without SUMMARY, and one without DTEND. *)
Definition untitled : ics.VEvent :=
  ics.mkEvent [ics.mkProperty "DTSTART" "20240101T090000";
               ics.mkProperty "DTEND" "20240101T091500"].

Definition open_ended : ics.VEvent :=
  ics.mkEvent [ics.mkProperty "SUMMARY" "Standup";
               ics.mkProperty "DTSTART" "20240101T090000"].

Definition sample_calendar : ics.Calendar := ics.mkCalendar [lunch; standup].

(** A stand-in for the calendar parser: it knows three files by their
    content. *)
Definition sample_parser (content : string) : option ics.Calendar :=
  if String.eqb content "lunch, standup" then Some sample_calendar
  else if String.eqb content "lunch, untitled" then
    Some (ics.mkCalendar [lunch; untitled])
  else if String.eqb content "lunch, open-ended" then
    Some (ics.mkCalendar [lunch; open_ended])
  else None.

Definition tab : string := String (ascii_of_byte 9) "".
Definition newline : string := String (ascii_of_byte 10) "".

(** A stand-in for the record encoder: the fields joined by the delimiter,
    when it is a single byte, and a newline; no field is quoted. *)
Definition sample_encode (delim : Z) (record : list string) : string :=
  String.concat (String (ascii_of_byte delim) "") record +:+ newline.

Definition sample_args : CliArgs :=
  mkCliArgs "in.ics" "out.csv" "" "Alice" tab true.

Definition sample_world : World :=
  mkWorld {[ "in.ics" := "lunch, standup" ]} ∅ "".

(** Two rows with one key. *)
Definition tie_first : Column :=
  mkColumn "Alice" "2024/01/01" "09:00" "10:00" "01:00".

Definition tie_second : Column :=
  mkColumn "Alice" "2024/01/01" "09:00" "09:30" "00:30".




(** A world with more in it than the sample: another file, and bytes on
    standard output already. *)
Definition other_world : World :=
  mkWorld {[ "in.ics" := "lunch, standup"; "notes.txt" := "remember" ]} ∅
    "earlier output".

(** The sample arguments for a run to the file [out.csv], the same with no
    delimiter given, and the same with a filter that no event of the
    sample matches. *)
Definition file_args : CliArgs :=
  mkCliArgs "in.ics" "out.csv" "" "Alice" tab false.

Definition bare_args : CliArgs :=
  mkCliArgs "in.ics" "out.csv" "" "Alice" "" false.

Definition dinner_args : CliArgs :=
  mkCliArgs "in.ics" "out.csv" "Dinner" "Alice" tab true.

(** The rows of the sample calendar, sorted. *)
Definition sample_rows : list Column :=
  [mkColumn "Alice" "2024/01/01" "09:00" "09:15" "00:15";
   mkColumn "Alice" "2024/01/01" "12:00" "13:00" "01:00"].

(** * Properties *)

(** ** Bounded checking *)

Lemma all_from_spec (p : Z -> bool) (n : nat) (lo : Z) :
  all_from p n lo = true -> forall z, lo <= z < lo + Z.of_nat n -> p z = true.
Proof.
  revert lo. induction n as [|n IH]; intros lo Hall z Hz; [lia|].
  simpl in Hall. destruct (p lo) eqn:Hp; [|discriminate].
  destruct (decide (z = lo)) as [->|Hne]; [done|].
  apply (IH (lo + 1)); [done|lia].
Qed.

Lemma all_below (p : Z -> bool) (n : Z) :
  all_from p (Z.to_nat n) 0 = true -> forall z, 0 <= z < n -> p z = true.
Proof. intros Hall z Hz. apply (all_from_spec p (Z.to_nat n) 0 Hall). lia. Qed.

(** [check_below n p z]: [p z] holds because [p] holds, by evaluation, of
    every number below [n]. *)
Ltac check_below n p z :=
  let H := fresh "Hchk" in
  assert (H : p z = true)
    by (apply (all_below p n); [vm_compute; reflexivity | lia]);
  cbv beta in H.

(** Linear arithmetic with division and remainder by constants. *)
Ltac div_lia := Z.div_mod_to_equations; lia.

(** ** Digits and fixed-width fields *)

Lemma is_digit_inv (c : ascii) :
  is_digit c = true -> 0 <= digit_val c <= 9 /\ c = digit (digit_val c).
Proof.
  destruct c as [[] [] [] [] [] [] [] []]; vm_compute; intros H;
    first [discriminate H | split; [split; discriminate | reflexivity]].
Qed.

Lemma digit_is_digit (d : Z) :
  0 <= d <= 9 -> is_digit (digit d) = true /\ digit_val (digit d) = d.
Proof.
  intros Hd.
  check_below 10 (fun d => is_digit (digit d) && (digit_val (digit d) =? d)) d.
  apply andb_true_iff in Hchk as [H1 H2]. split; [done|lia].
Qed.

Lemma appendInt_2 (n : Z) : 0 <= n < 100 -> time.appendInt n 2 = two_digits n.
Proof.
  intros Hn.
  check_below 100 (fun n => String.eqb (time.appendInt n 2) (two_digits n)) n.
  by apply String.eqb_eq.
Qed.

Lemma appendInt_4 (n : Z) : 0 <= n < 10000 -> time.appendInt n 4 = four_digits n.
Proof.
  intros Hn.
  check_below 10000 (fun n => String.eqb (time.appendInt n 4) (four_digits n)) n.
  by apply String.eqb_eq.
Qed.


Lemma atoi_four_digits (n : Z) :
  0 <= n < 10000 -> time.atoi (four_digits n) = Some n.
Proof.
  intros Hn.
  check_below 10000
    (fun n => match time.atoi (four_digits n) with
              | Some m => m =? n
              | None => false
              end) n.
  destruct (time.atoi (four_digits n)); [f_equal; lia|done].
Qed.

(** ** The event selector *)

Lemma filterEvents_with_summaries (filter : string) (calEvents events : list ics.VEvent) :
  Forall has_summary calEvents ->
  filterEvents filter calEvents events = Done (events ++ selected filter calEvents).
Proof.
  intros Hall. revert events.
  induction Hall as [|event rest [p Hp] _ IH]; intros events.
  - unfold selected. destruct (String.eqb filter ""); simpl; by rewrite app_nil_r.
  - simpl. rewrite Hp. simpl. unfold selected in *. unfold summary_is at 1.
    simpl. rewrite Hp.
    destruct (String.eqb filter "") eqn:Hf; simpl.
    + rewrite IH. by rewrite <- app_assoc.
    + destruct (String.eqb (ics.Value p) filter); simpl; rewrite IH;
        unfold summary_is; by rewrite <- ?app_assoc.
Qed.

Lemma filterEvents_without_summary (filter : string) (calEvents events : list ics.VEvent) :
  Exists (fun event => ics.GetProperty event "SUMMARY" = None) calEvents ->
  filterEvents filter calEvents events = Panicked.
Proof.
  intros Hex. revert events.
  induction Hex as [event rest Hnone | event rest _ IH]; intros events; simpl.
  - by rewrite Hnone.
  - destruct (ics.GetProperty event "SUMMARY") as [p|]; simpl; [|done].
    destruct (_ && _); apply IH.
Qed.

Lemma filterEvents_never_fails (filter : string) (calEvents events : list ics.VEvent) e :
  filterEvents filter calEvents events <> Failed e.
Proof.
  revert events. induction calEvents as [|event rest IH]; intros events; simpl; [done|].
  destruct (ics.GetProperty event "SUMMARY") as [p|]; simpl; [|done].
  destruct (_ && _); apply IH.
Qed.

(** ** The time parser *)

Lemma two_digits_of_digits (a b : Z) :
  0 <= a <= 9 -> 0 <= b <= 9 ->
  two_digits (a * 10 + b) = String (digit a) (String (digit b) "").
Proof.
  intros Ha Hb. unfold two_digits.
  replace ((a * 10 + b) / 10) with a by div_lia.
  replace ((a * 10 + b) mod 10) with b by div_lia. done.
Qed.

Lemma getnum_fixed_inv (s rest : string) (n : Z) :
  time.getnum s true = Some (n, rest) ->
  0 <= n <= 99 /\ s = two_digits n +:+ rest.
Proof.
  destruct s as [|c0 [|c1 s2]]; simpl; [done| |].
  - by destruct (is_digit c0).
  - destruct (is_digit c0) eqn:H0; simpl; [|done].
    destruct (is_digit c1) eqn:H1; [|done].
    intros [= <- <-].
    apply is_digit_inv in H0 as [B0 E0], H1 as [B1 E1].
    rewrite two_digits_of_digits by done. simpl. rewrite <- E0, <- E1.
    split; [lia|done].
Qed.

Lemma getnum_two_digits (n : Z) (rest : string) (fixed : bool) :
  0 <= n <= 99 -> time.getnum (two_digits n +:+ rest) fixed = Some (n, rest).
Proof.
  intros Hn. unfold two_digits. simpl.
  destruct (digit_is_digit (n / 10)) as [-> ->]; [div_lia|].
  destruct (digit_is_digit (n mod 10)) as [-> ->]; [div_lia|].
  simpl. do 2 f_equal. div_lia.
Qed.

(** Without [fixed], a number of one digit is read only when no digit
    follows it. *)
Lemma getnum_free_inv (s rest : string) (n : Z) :
  time.getnum s false = Some (n, rest) ->
  (0 <= n <= 99 /\ s = two_digits n +:+ rest) \/ time.getnum rest true = None.
Proof.
  destruct s as [|c0 [|c1 s2]]; simpl; [done| |].
  - destruct (is_digit c0); simpl; [|done]. intros [= <- <-]. by right.
  - destruct (is_digit c0) eqn:H0; simpl; [|done].
    destruct (is_digit c1) eqn:H1.
    + intros [= <- <-]. left.
      apply is_digit_inv in H0 as [B0 E0], H1 as [B1 E1].
      rewrite two_digits_of_digits by done. simpl. rewrite <- E0, <- E1.
      split; [lia|done].
    + intros [= <- <-]. right. simpl. by rewrite H1.
Qed.

Lemma leadingInt_whole (s : string) (x q : Z) :
  time.leadingInt s x = Some (q, "") -> all_digits s = true /\ q = number s x.
Proof.
  revert x. induction s as [|c rest IH]; intros x; simpl.
  - by intros [= <-].
  - destruct (is_digit c); simpl; [|done].
    destruct (_ <? x); [done|]. destruct (_ <? _); [done|]. apply IH.
Qed.

Lemma leadingInt_digits (s : string) (x : Z) (k : nat) :
  all_digits s = true -> 0 <= x < 10 ^ Z.of_nat k ->
  (k + String.length s <= 17)%nat ->
  time.leadingInt s x = Some (number s x, "").
Proof.
  revert x k. induction s as [|c rest IH]; intros x k Hall Hx Hk; simpl in *; [done|].
  apply andb_true_iff in Hall as [Hc Hrest]. rewrite Hc. simpl.
  apply is_digit_inv in Hc as [Hv _].
  assert (10 ^ Z.of_nat k <= 10 ^ 16) by (apply Z.pow_le_mono_r; lia).
  assert (10 ^ Z.of_nat (S k) = 10 * 10 ^ Z.of_nat k)
    by (rewrite Nat2Z.inj_succ, Z.pow_succ_r; lia).
  change (2 ^ 63 / 10) with 922337203685477580.
  change (2 ^ 63) with 9223372036854775808.
  change (10 ^ 16) with 10000000000000000 in *.
  destruct (_ <? x) eqn:E1; [lia|].
  destruct (_ <? x * 10 + _) eqn:E2; [lia|].
  apply (IH _ (S k)); [done|lia|lia].
Qed.

Lemma atoi_digit_head (c : ascii) (rest : string) :
  is_digit c = true ->
  time.atoi (String c rest) =
  match time.leadingInt (String c rest) 0 with
  | Some (q, EmptyString) => Some q
  | _ => None
  end.
Proof.
  destruct c as [[] [] [] [] [] [] [] []]; intros H;
    first [discriminate H | reflexivity].
Qed.

Lemma atoi_all_digits (s : string) :
  all_digits s = true -> (String.length s <= 9)%nat ->
  time.atoi s = Some (number s 0).
Proof.
  intros Hall Hlen. destruct s as [|c rest]; [done|].
  rewrite atoi_digit_head by (simpl in Hall; by apply andb_true_iff in Hall as [? _]).
  rewrite (leadingInt_digits _ 0 0); [done|done|simpl; lia|lia].
Qed.

Lemma four_digits_of_digits (a b c d : Z) :
  0 <= a <= 9 -> 0 <= b <= 9 -> 0 <= c <= 9 -> 0 <= d <= 9 ->
  four_digits (((a * 10 + b) * 10 + c) * 10 + d)
  = String (digit a) (String (digit b) (String (digit c) (String (digit d) ""))).
Proof.
  intros Ha Hb Hc Hd. unfold four_digits.
  replace ((((a * 10 + b) * 10 + c) * 10 + d) / 1000) with a by div_lia.
  replace ((((a * 10 + b) * 10 + c) * 10 + d) / 100 mod 10) with b by div_lia.
  replace ((((a * 10 + b) * 10 + c) * 10 + d) / 10 mod 10) with c by div_lia.
  replace ((((a * 10 + b) * 10 + c) * 10 + d) mod 10) with d by div_lia.
  done.
Qed.

Lemma atoi_year_inv (c0 c1 c2 c3 : ascii) (y : Z) :
  is_digit c0 = true ->
  time.atoi (String c0 (String c1 (String c2 (String c3 "")))) = Some y ->
  0 <= y <= 9999
  /\ String c0 (String c1 (String c2 (String c3 ""))) = four_digits y.
Proof.
  intros H0. rewrite atoi_digit_head by done.
  destruct (time.leadingInt _ 0) as [[q [|]]|] eqn:E; [|done..].
  intros [= ->]. apply leadingInt_whole in E as [Hall ->].
  simpl in Hall. rewrite !andb_true_iff in Hall.
  destruct Hall as (_ & H1 & H2 & H3 & _).
  apply is_digit_inv in H0 as [B0 E0], H1 as [B1 E1], H2 as [B2 E2], H3 as [B3 E3].
  simpl number. rewrite Z.mul_0_l, Z.add_0_l.
  rewrite four_digits_of_digits by done.
  rewrite <- E0, <- E1, <- E2, <- E3. split; [lia|done].
Qed.

Lemma skip_T (value value' : string) :
  time.skip value "T" = Some value' <-> value = "T" +:+ value'.
Proof.
  destruct value as [|c rest]; cbn [time.skip String.append]; [done|].
  destruct (Ascii.eqb_spec c "T") as [->|Hne].
  - split; [by intros [= ->]|by intros [= ->]].
  - split; [done|]. intros [= -> _]. done.
Qed.

Lemma skip_nil (value : string) : time.skip value "" = Some value.
Proof. reflexivity. Qed.

(** *** Fractional seconds *)

Lemma span_digits_all (s : string) :
  all_digits s = true -> time.span_digits s = (s, "").
Proof.
  induction s as [|c rest IH]; simpl; [done|].
  intros [Hc Hrest]%andb_true_iff. by rewrite Hc, IH.
Qed.

Lemma span_digits_whole (s ds : string) :
  time.span_digits s = (ds, "") -> ds = s /\ all_digits s = true.
Proof.
  revert ds. induction s as [|c rest IH]; intros ds; simpl.
  - by intros [= <-].
  - destruct (is_digit c); [|done].
    destruct (time.span_digits rest) as [ds' tl] eqn:E. intros [= <- ->].
    destruct (IH _ eq_refl) as [-> ->]. done.
Qed.

Lemma substring_all_digits (s : string) (n : nat) :
  all_digits s = true -> all_digits (String.substring 0 n s) = true.
Proof.
  revert n. induction s as [|c rest IH]; intros [|n]; simpl; try done.
  intros [Hc Hrest]%andb_true_iff. by rewrite Hc, IH.
Qed.

Lemma substring_length_le (s : string) (n : nat) :
  (String.length (String.substring 0 n s) <= n)%nat.
Proof.
  revert n. induction s as [|c rest IH]; intros [|n]; simpl; try lia.
  specialize (IH n). lia.
Qed.

Lemma parseNanoseconds_digits (ds : string) :
  all_digits ds = true -> time.parseNanoseconds ds = Some (fraction_nsec ds).
Proof.
  intros Hall. unfold time.parseNanoseconds, fraction_nsec.
  rewrite atoi_all_digits; [done|by apply substring_all_digits|apply substring_length_le].
Qed.

(** *** Strings *)

Lemma append_cons (c : ascii) (s t : string) :
  String c s +:+ t = String c (s +:+ t).
Proof. reflexivity. Qed.

Lemma append_nil_l (s : string) : "" +:+ s = s.
Proof. reflexivity. Qed.

Lemma append_nil_r (s : string) : s +:+ "" = s.
Proof. induction s as [|c s IH]; [done|]. by rewrite append_cons, IH. Qed.

Lemma append_assoc (s t u : string) : (s +:+ t) +:+ u = s +:+ (t +:+ u).
Proof. induction s as [|c s IH]; [done|]. by rewrite !append_cons, IH. Qed.

Lemma length_append (s t : string) :
  String.length (s +:+ t) = (String.length s + String.length t)%nat.
Proof. induction s as [|c s IH]; [done|]. rewrite append_cons. simpl. by rewrite IH. Qed.

(** *** The cases of the switch of Parse, read backwards and forwards *)

Lemma parse_year_inv (p p' : time.parsing) :
  time.parse_std time.stdLongYear p = Some p' ->
  exists y rest, 0 <= y <= 9999
    /\ time.p_value p = four_digits y +:+ rest
    /\ p' = time.mkParsing y (time.p_month p) (time.p_day p) (time.p_hour p)
              (time.p_min p) (time.p_sec p) (time.p_nsec p) (rest).
Proof.
  unfold time.parse_std.
  destruct (time.p_value p) as [|c0 [|c1 [|c2 [|c3 rest]]]]; try done.
  destruct (is_digit c0) eqn:H0; [|done]. cbn [negb].
  destruct (time.atoi _) as [y|] eqn:E; [|done]. intros [= <-].
  apply atoi_year_inv in E as [Hy Hs]; [|done].
  exists y, rest. split; [done|]. split; [|done].
  rewrite <- Hs. done.
Qed.

Lemma parse_year_fwd (y y0 m d h mi s ns : Z) (rest : string) :
  0 <= y <= 9999 ->
  time.parse_std time.stdLongYear
    (time.mkParsing y0 m d h mi s ns (four_digits y +:+ rest))
  = Some (time.mkParsing y m d h mi s ns rest).
Proof.
  intros Hy. unfold time.parse_std. cbn [time.p_value].
  pose proof (atoi_four_digits y ltac:(lia)) as Ha.
  unfold four_digits in *. rewrite !append_cons, append_nil_l.
  destruct (digit_is_digit (y / 1000)) as [-> _]; [div_lia|].
  cbn [negb]. by rewrite Ha.
Qed.

Lemma parse_month_inv (p p' : time.parsing) :
  time.parse_std time.stdZeroMonth p = Some p' ->
  exists m rest, 1 <= m <= 12
    /\ time.p_value p = two_digits m +:+ rest
    /\ p' = time.mkParsing (time.p_year p) m (time.p_day p) (time.p_hour p)
              (time.p_min p) (time.p_sec p) (time.p_nsec p) (rest).
Proof.
  unfold time.parse_std.
  destruct (time.getnum _ true) as [[m rest]|] eqn:E; [|done].
  destruct (_ || _) eqn:Hr; [done|]. intros [= <-].
  apply getnum_fixed_inv in E as [_ ->].
  exists m, rest. split; [lia|done].
Qed.

Lemma parse_month_fwd (m y m0 d h mi s ns : Z) (rest : string) :
  1 <= m <= 12 ->
  time.parse_std time.stdZeroMonth
    (time.mkParsing y m0 d h mi s ns (two_digits m +:+ rest))
  = Some (time.mkParsing y m d h mi s ns rest).
Proof.
  intros Hm. unfold time.parse_std. cbn [time.p_value time.p_year time.p_day
    time.p_hour time.p_min time.p_sec time.p_nsec].
  rewrite getnum_two_digits by lia.
  destruct (_ || _) eqn:Hr; [lia|done].
Qed.

Lemma parse_day_inv (p p' : time.parsing) :
  time.parse_std time.stdZeroDay p = Some p' ->
  exists d rest, 0 <= d <= 99
    /\ time.p_value p = two_digits d +:+ rest
    /\ p' = time.mkParsing (time.p_year p) (time.p_month p) d (time.p_hour p)
              (time.p_min p) (time.p_sec p) (time.p_nsec p) (rest).
Proof.
  unfold time.parse_std.
  destruct (time.getnum _ true) as [[d rest]|] eqn:E; [|done].
  intros [= <-]. apply getnum_fixed_inv in E as [Hd ->].
  exists d, rest. done.
Qed.

Lemma parse_day_fwd (d y m d0 h mi s ns : Z) (rest : string) :
  0 <= d <= 99 ->
  time.parse_std time.stdZeroDay
    (time.mkParsing y m d0 h mi s ns (two_digits d +:+ rest))
  = Some (time.mkParsing y m d h mi s ns rest).
Proof.
  intros Hd. unfold time.parse_std. cbn [time.p_value time.p_year time.p_month
    time.p_hour time.p_min time.p_sec time.p_nsec].
  by rewrite getnum_two_digits by lia.
Qed.

(** The hour is read without [fixed]; what follows decides the case of one
    digit. *)
Lemma parse_hour_inv (p p' : time.parsing) :
  time.parse_std time.stdHour p = Some p' ->
  (exists h rest, 0 <= h <= 23
     /\ time.p_value p = two_digits h +:+ rest
     /\ p' = time.mkParsing (time.p_year p) (time.p_month p) (time.p_day p) h
               (time.p_min p) (time.p_sec p) (time.p_nsec p) rest)
  \/ time.getnum (time.p_value p') true = None.
Proof.
  unfold time.parse_std.
  destruct (time.getnum _ false) as [[h rest]|] eqn:E; [|done].
  destruct (_ || _) eqn:Hr; [done|]. intros [= <-].
  apply getnum_free_inv in E as [[_ ->]|E]; [left|by right].
  exists h, rest. split; [lia|done].
Qed.

Lemma parse_hour_fwd (h y m d h0 mi s ns : Z) (rest : string) :
  0 <= h <= 23 ->
  time.parse_std time.stdHour
    (time.mkParsing y m d h0 mi s ns (two_digits h +:+ rest))
  = Some (time.mkParsing y m d h mi s ns rest).
Proof.
  intros Hh. unfold time.parse_std. cbn [time.p_value time.p_year time.p_month
    time.p_day time.p_min time.p_sec time.p_nsec].
  rewrite getnum_two_digits by lia.
  destruct (_ || _) eqn:Hr; [lia|done].
Qed.

Lemma parse_minute_inv (p p' : time.parsing) :
  time.parse_std time.stdZeroMinute p = Some p' ->
  exists mi rest, 0 <= mi <= 59
    /\ time.p_value p = two_digits mi +:+ rest
    /\ p' = time.mkParsing (time.p_year p) (time.p_month p) (time.p_day p)
              (time.p_hour p) mi (time.p_sec p) (time.p_nsec p) (rest).
Proof.
  unfold time.parse_std.
  destruct (time.getnum _ true) as [[mi rest]|] eqn:E; [|done].
  destruct (_ || _) eqn:Hr; [done|]. intros [= <-].
  apply getnum_fixed_inv in E as [_ ->].
  exists mi, rest. split; [lia|done].
Qed.

Lemma parse_minute_fwd (mi y m d h mi0 s ns : Z) (rest : string) :
  0 <= mi <= 59 ->
  time.parse_std time.stdZeroMinute
    (time.mkParsing y m d h mi0 s ns (two_digits mi +:+ rest))
  = Some (time.mkParsing y m d h mi s ns rest).
Proof.
  intros Hm. unfold time.parse_std. cbn [time.p_value time.p_year time.p_month
    time.p_day time.p_hour time.p_sec time.p_nsec].
  rewrite getnum_two_digits by lia.
  destruct (_ || _) eqn:Hr; [lia|done].
Qed.

(** The seconds, when they end the value: a fractional second may follow. *)
Lemma parse_second_inv (p p' : time.parsing) :
  time.parse_std time.stdZeroSecond p = Some p' ->
  time.p_nsec p = 0 ->
  time.p_value p' = "" ->
  exists s frac ns, 0 <= s <= 59
    /\ fraction frac ns
    /\ time.p_value p = two_digits s +:+ frac
    /\ p' = time.mkParsing (time.p_year p) (time.p_month p) (time.p_day p)
              (time.p_hour p) (time.p_min p) s ns "".
Proof.
  unfold time.parse_std. intros H Hns.
  destruct (time.getnum _ true) as [[s rest]|] eqn:E; [|done].
  destruct (_ || _) eqn:Hr; [done|].
  apply getnum_fixed_inv in E as [_ ->].
  destruct rest as [|c0 [|c1 rest]].
  - injection H as <-. intros _. exists s, "", 0. rewrite Hns.
    split; [lia|]. split; [constructor|done].
  - injection H as <-. done.
  - destruct (time.commaOrPeriod c0 && is_digit c1) eqn:Hc.
    + apply andb_true_iff in Hc as [Hc0 Hc1].
      destruct (time.span_digits _) as [ds tl] eqn:Hsp.
      destruct (time.parseNanoseconds ds) as [ns|] eqn:Hp; [|done].
      injection H as <-. cbn [time.p_value time.p_nsec]. intros ->.
      apply span_digits_whole in Hsp as [-> Hall].
      rewrite parseNanoseconds_digits in Hp by done. injection Hp as <-.
      exists s, (String c0 (String c1 rest)), (fraction_nsec (String c1 rest)).
      split; [lia|]. split; [by constructor|done].
    + injection H as <-. done.
Qed.

Lemma parse_second_fwd (s y m d h mi s0 ns : Z) (frac : string) :
  0 <= s <= 59 -> fraction frac ns ->
  time.parse_std time.stdZeroSecond
    (time.mkParsing y m d h mi s0 0 (two_digits s +:+ frac))
  = Some (time.mkParsing y m d h mi s ns "").
Proof.
  intros Hs Hfrac. unfold time.parse_std. cbn [time.p_value time.p_year
    time.p_month time.p_day time.p_hour time.p_min time.p_nsec].
  rewrite getnum_two_digits by lia.
  destruct (_ || _) eqn:Hr; [lia|].
  destruct Hfrac as [|c ds Hc Hne Hall]; [done|].
  destruct ds as [|c1 rest]; [done|].
  pose proof Hall as Hall'. simpl in Hall'. apply andb_true_iff in Hall' as [H1 _].
  rewrite Hc, H1. cbn [andb].
  rewrite span_digits_all by done. by rewrite parseNanoseconds_digits.
Qed.

(** *** The whole parser *)

Lemma daysIn_bounds (m y : Z) : 1 <= m <= 12 -> 28 <= time.daysIn m y <= 31.
Proof.
  intros Hm. unfold time.daysIn.
  assert (m = 1 \/ m = 2 \/ m = 3 \/ m = 4 \/ m = 5 \/ m = 6 \/ m = 7 \/ m = 8
          \/ m = 9 \/ m = 10 \/ m = 11 \/ m = 12) as Hcases by lia.
  destruct (time.isLeap y);
    repeat (destruct Hcases as [->|Hcases]; [vm_compute; split; discriminate|]);
    subst m; vm_compute; split; discriminate.
Qed.

Lemma compact_valid (t : time.Time) :
  valid_civil t ->
  compact t =
  four_digits (time.year t) +:+ two_digits (time.month t)
  +:+ two_digits (time.day t) +:+ "T" +:+ two_digits (time.hour t)
  +:+ two_digits (time.min t) +:+ two_digits (time.sec t).
Proof.
  intros (Hy & Hm & Hd & Hh & Hmi & Hs).
  pose proof (daysIn_bounds (time.month t) (time.year t) Hm).
  unfold compact. cbn [time.Format time.layout_20060102T150405 time.format_std].
  rewrite appendInt_4 by lia. rewrite !appendInt_2 by lia.
  by rewrite !append_nil_l, append_nil_r.
Qed.

Lemma compact_length (t : time.Time) :
  valid_civil t -> String.length (compact t) = 15%nat.
Proof. intros Hv. by rewrite compact_valid. Qed.

Lemma Parse_compact (t : time.Time) (frac : string) :
  valid_civil t -> fraction frac (time.nsec t) ->
  parseTime (compact t +:+ frac) = Done t.
Proof.
  intros Hv Hfrac. rewrite compact_valid by done.
  destruct Hv as (Hy & Hm & Hd & Hh & Hmi & Hs).
  pose proof (daysIn_bounds (time.month t) (time.year t) Hm).
  unfold parseTime, time.Parse.
  cbn [time.parse_chunks time.layout_20060102T150405 time.p_value
       time.p_year time.p_month time.p_day time.p_hour time.p_min time.p_sec
       time.p_nsec].
  rewrite !append_assoc.
  rewrite skip_nil, parse_year_fwd by done.
  cbn [time.p_value time.p_year time.p_month time.p_day time.p_hour
       time.p_min time.p_sec time.p_nsec].
  rewrite skip_nil, parse_month_fwd by done.
  cbn [time.p_value time.p_year time.p_month time.p_day time.p_hour
       time.p_min time.p_sec time.p_nsec].
  rewrite skip_nil, parse_day_fwd by lia.
  cbn [time.p_value time.p_year time.p_month time.p_day time.p_hour
       time.p_min time.p_sec time.p_nsec].
  rewrite (proj2 (skip_T _ _) eq_refl).
  rewrite parse_hour_fwd by done.
  cbn [time.p_value time.p_year time.p_month time.p_day time.p_hour
       time.p_min time.p_sec time.p_nsec].
  rewrite skip_nil, parse_minute_fwd by done.
  cbn [time.p_value time.p_year time.p_month time.p_day time.p_hour
       time.p_min time.p_sec time.p_nsec].
  rewrite skip_nil, (parse_second_fwd _ _ _ _ _ _ _ (time.nsec t)) by done.
  cbn [time.p_value time.p_year time.p_month time.p_day time.p_hour
       time.p_min time.p_sec time.p_nsec String.eqb negb].
  destruct (_ || _) eqn:Hr; [lia|]. by destruct t.
Qed.

Lemma Parse_Done_inv (s : string) (t : time.Time) :
  parseTime s = Done t ->
  valid_civil t /\ exists frac, fraction frac (time.nsec t) /\ s = compact t +:+ frac.
Proof.
  unfold parseTime, time.Parse.
  destruct (time.parse_chunks _ _) as [p|] eqn:E; [|done].
  destruct (negb (String.eqb (time.p_value p) "")) eqn:Hv; [done|].
  apply negb_false_iff, String.eqb_eq in Hv.
  destruct (_ || _) eqn:Hr; [done|]. intros [= <-].
  cbn [time.parse_chunks time.layout_20060102T150405] in E.
  cbn [time.skip] in E.
  destruct (time.parse_std time.stdLongYear _) as [p1|] eqn:E1; [|done].
  apply parse_year_inv in E1 as (y & v1 & Hy & V1 & ->).
  cbn [time.p_value time.p_year time.p_month time.p_day time.p_hour
       time.p_min time.p_sec time.p_nsec] in *.
  destruct (time.parse_std time.stdZeroMonth _) as [p2|] eqn:E2; [|done].
  apply parse_month_inv in E2 as (m & v2 & Hm & V2 & ->).
  cbn [time.p_value time.p_year time.p_month time.p_day time.p_hour
       time.p_min time.p_sec time.p_nsec] in *.
  destruct (time.parse_std time.stdZeroDay _) as [p3|] eqn:E3; [|done].
  apply parse_day_inv in E3 as (d & v3 & Hd & V3 & ->).
  cbn [time.p_value time.p_year time.p_month time.p_day time.p_hour
       time.p_min time.p_sec time.p_nsec] in *.
  destruct v3 as [|cT v4]; [done|].
  destruct (Ascii.eqb_spec cT "T") as [->|]; [|done].
  cbn [time.skip] in E.
  destruct (time.parse_std time.stdHour _) as [p4|] eqn:E4; [|done].
  destruct (time.parse_std time.stdZeroMinute _) as [p5|] eqn:E5; [|done].
  apply parse_hour_inv in E4 as [(h & v5 & Hh & V5 & ->)|E4]; cycle 1.
  { unfold time.parse_std in E5.
    cbn [time.p_value] in E5. by rewrite E4 in E5. }
  cbn [time.p_value time.p_year time.p_month time.p_day time.p_hour
       time.p_min time.p_sec time.p_nsec] in *.
  apply parse_minute_inv in E5 as (mi & v6 & Hmi & V6 & ->).
  cbn [time.p_value time.p_year time.p_month time.p_day time.p_hour
       time.p_min time.p_sec time.p_nsec] in *.
  destruct (time.parse_std time.stdZeroSecond _) as [p6|] eqn:E6; [|done].
  injection E as ->.
  apply parse_second_inv in E6 as (sec & frac & ns & Hs & Hfrac & V7 & ->); [|done..].
  cbn [time.p_value time.p_year time.p_month time.p_day time.p_hour
       time.p_min time.p_sec time.p_nsec] in *.
  apply orb_false_iff in Hr as [Hr1%Z.ltb_ge Hr2%Z.ltb_ge].
  assert (Hvalid : valid_civil (time.mkTime y m d h mi sec ns)).
  { unfold valid_civil.
    cbn [time.year time.month time.day time.hour time.min time.sec]. lia. }
  split; [done|]. exists frac. split; [done|].
  rewrite compact_valid by done. cbn [time.year time.month time.day time.hour
    time.min time.sec].
  rewrite V1, V2, V3, V5, V6, V7. by rewrite !append_assoc.
Qed.

Lemma parseTime_total (s : string) :
  (exists t, parseTime s = Done t)
  \/ parseTime s = Failed (ParseError "20060102T150405" s).
Proof.
  unfold parseTime, time.Parse.
  destruct (time.parse_chunks _ _) as [p|]; [|by right].
  destruct (negb _); [by right|]. destruct (_ || _); [by right|]. left. eauto.
Qed.

(** ** Keys and chronological order *)

Lemma string_compare_refl (s : string) : String.compare s s = Eq.
Proof.
  induction s as [|c s IH]; [done|]. simpl.
  unfold Ascii.compare. by rewrite N.compare_refl.
Qed.

Lemma string_eqb_compare (s t : string) :
  String.eqb s t = match String.compare s t with Eq => true | _ => false end.
Proof.
  destruct (String.eqb_spec s t) as [->|Hne].
  - by rewrite string_compare_refl.
  - destruct (String.compare s t) eqn:E; [|done..].
    by apply String.compare_eq_iff in E.
Qed.

Lemma compare_same_head (c : ascii) (s t : string) :
  String.compare (String c s) (String c t) = String.compare s t.
Proof. simpl. unfold Ascii.compare. by rewrite N.compare_refl. Qed.

Lemma digit_compare (a b : Z) :
  0 <= a <= 9 -> 0 <= b <= 9 -> Ascii.compare (digit a) (digit b) = (a ?= b).
Proof.
  intros Ha Hb.
  assert (Hbyte : forall d, 0 <= d <= 9 -> N_of_ascii (digit d) = Z.to_N (48 + d)).
  { intros d Hd.
    check_below 10 (fun d => N.eqb (N_of_ascii (digit d)) (Z.to_N (48 + d))) d.
    by apply N.eqb_eq. }
  unfold Ascii.compare. rewrite !Hbyte by done.
  rewrite Z2N.inj_compare by lia. apply Z.add_compare_mono_l.
Qed.

Lemma compare_two_digits (a b : Z) (s t : string) :
  0 <= a <= 99 -> 0 <= b <= 99 ->
  String.compare (two_digits a +:+ s) (two_digits b +:+ t)
  = lex (a ?= b) (String.compare s t).
Proof.
  intros Ha Hb. unfold two_digits. rewrite !append_cons, !append_nil_l.
  cbn [String.compare]. rewrite !digit_compare by div_lia.
  destruct (Z.compare_spec (a / 10) (b / 10)), (Z.compare_spec (a mod 10) (b mod 10)),
    (Z.compare_spec a b); try done; exfalso; div_lia.
Qed.

Lemma four_digits_split (a : Z) :
  0 <= a <= 9999 ->
  four_digits a = two_digits (a / 100) +:+ two_digits (a mod 100).
Proof.
  intros Ha. unfold four_digits, two_digits.
  rewrite !append_cons, append_nil_l.
  replace (a / 100 / 10) with (a / 1000) by div_lia.
  replace (a mod 100 / 10) with (a / 10 mod 10) by div_lia.
  replace (a mod 100 mod 10) with (a mod 10) by div_lia.
  done.
Qed.

Lemma compare_four_digits (a b : Z) (s t : string) :
  0 <= a <= 9999 -> 0 <= b <= 9999 ->
  String.compare (four_digits a +:+ s) (four_digits b +:+ t)
  = lex (a ?= b) (String.compare s t).
Proof.
  intros Ha Hb. rewrite !four_digits_split, !append_assoc by done.
  rewrite !compare_two_digits by div_lia.
  destruct (Z.compare_spec (a / 100) (b / 100)),
    (Z.compare_spec (a mod 100) (b mod 100)),
    (Z.compare_spec a b); try done; exfalso; div_lia.
Qed.

Lemma Format_date_valid (t : time.Time) :
  valid_civil t ->
  time.Format t time.layout_2006_01_02 =
  four_digits (time.year t) +:+ String "/" (two_digits (time.month t)
    +:+ String "/" (two_digits (time.day t) +:+ "")).
Proof.
  intros (Hy & Hm & Hd & _).
  pose proof (daysIn_bounds (time.month t) (time.year t) Hm).
  cbn [time.Format time.layout_2006_01_02 time.format_std].
  rewrite appendInt_4 by lia. rewrite !appendInt_2 by lia.
  by rewrite !append_nil_l.
Qed.

Lemma Format_clock_valid (t : time.Time) :
  valid_civil t ->
  time.Format t time.layout_15_04 =
  two_digits (time.hour t) +:+ String ":" (two_digits (time.min t) +:+ "").
Proof.
  intros (_ & _ & _ & Hh & Hmi & _).
  cbn [time.Format time.layout_15_04 time.format_std].
  rewrite !appendInt_2 by lia. by rewrite !append_nil_l.
Qed.

Lemma compare_date (t u : time.Time) :
  valid_civil t -> valid_civil u ->
  String.compare (time.Format t time.layout_2006_01_02)
    (time.Format u time.layout_2006_01_02)
  = lex (time.year t ?= time.year u)
      (lex (time.month t ?= time.month u) (time.day t ?= time.day u)).
Proof.
  intros Ht Hu. rewrite !Format_date_valid by done.
  destruct Ht as (Hy & Hm & Hd & _), Hu as (Hy' & Hm' & Hd' & _).
  pose proof (daysIn_bounds (time.month t) (time.year t) Hm).
  pose proof (daysIn_bounds (time.month u) (time.year u) Hm').
  rewrite compare_four_digits, compare_same_head by done.
  rewrite compare_two_digits, compare_same_head by lia.
  rewrite compare_two_digits by lia. simpl String.compare.
  by destruct (time.day t ?= time.day u).
Qed.

Lemma compare_clock (t u : time.Time) :
  valid_civil t -> valid_civil u ->
  String.compare (time.Format t time.layout_15_04)
    (time.Format u time.layout_15_04)
  = lex (time.hour t ?= time.hour u) (time.min t ?= time.min u).
Proof.
  intros Ht Hu. rewrite !Format_clock_valid by done.
  destruct Ht as (_ & _ & _ & Hh & Hmi & _), Hu as (_ & _ & _ & Hh' & Hmi' & _).
  rewrite compare_two_digits, compare_same_head by lia.
  rewrite compare_two_digits by lia. simpl String.compare.
  by destruct (time.min t ?= time.min u).
Qed.

(** *** The calendar *)

Ltac month_cases m :=
  let H := fresh "Hcases" in
  assert (m = 1 \/ m = 2 \/ m = 3 \/ m = 4 \/ m = 5 \/ m = 6 \/ m = 7 \/ m = 8
          \/ m = 9 \/ m = 10 \/ m = 11 \/ m = 12) as H by lia;
  repeat (destruct H as [H|H]); subst m.

(** The table [daysBefore] at given months, evaluated. *)
Ltac eval_daysBefore :=
  repeat match goal with
    | |- context [time.daysBefore ?x] =>
        let v := eval vm_compute in (time.daysBefore x) in
        change (time.daysBefore x) with v
    | H : context [time.daysBefore ?x] |- _ =>
        let v := eval vm_compute in (time.daysBefore x) in
        change (time.daysBefore x) with v in H
    end.

Lemma yday_bounds (t : time.Time) :
  valid_civil t ->
  0 <= yday t < 365 + (if time.isLeap (time.year t) then 1 else 0).
Proof.
  destruct t as [y m d h mi s ns]. unfold valid_civil, yday, time.daysIn.
  cbn [time.year time.month time.day time.hour time.min time.sec].
  intros (_ & Hm & Hd & _). destruct (time.isLeap y); month_cases m;
    cbn in Hd |- *; eval_daysBefore; lia.
Qed.

Lemma yday_compare (t u : time.Time) :
  valid_civil t -> valid_civil u -> time.year t = time.year u ->
  lex (time.month t ?= time.month u) (time.day t ?= time.day u)
  = (yday t ?= yday u).
Proof.
  destruct t as [y m d h mi s ns], u as [y' m' d' h' mi' s' ns'].
  unfold valid_civil, yday, time.daysIn.
  cbn [time.year time.month time.day time.hour time.min time.sec].
  intros (_ & Hm & Hd & _) (_ & Hm' & Hd' & _) <-.
  destruct (Z.compare_spec m m') as [<-|Hlt|Hgt]; cbn [lex].
  - destruct (Z.compare_spec d d'); symmetry;
      [apply Z.compare_eq_iff|apply Z.compare_lt_iff|apply Z.compare_gt_iff]; lia.
  - symmetry. apply Z.compare_lt_iff.
    destruct (time.isLeap y); month_cases m; month_cases m';
      cbn in Hd, Hd' |- *; eval_daysBefore; lia.
  - symmetry. apply Z.compare_gt_iff.
    destruct (time.isLeap y); month_cases m; month_cases m';
      cbn in Hd, Hd' |- *; eval_daysBefore; lia.
Qed.

Lemma daysSinceEpoch_next (y : Z) :
  time.daysSinceEpoch (y + 1)
  = time.daysSinceEpoch y + 365 + (if time.isLeap y then 1 else 0).
Proof.
  unfold time.daysSinceEpoch, time.isLeap.
  replace (y + 1 - 1) with y by lia.
  destruct (Z.eqb_spec (y mod 4) 0), (Z.eqb_spec (y mod 100) 0),
    (Z.eqb_spec (y mod 400) 0); cbn [negb andb orb]; div_lia.
Qed.

Lemma daysSinceEpoch_mono (y y' : Z) :
  y <= y' -> time.daysSinceEpoch y <= time.daysSinceEpoch y'.
Proof. unfold time.daysSinceEpoch. intros Hy. div_lia. Qed.

Lemma seconds_eq (t : time.Time) :
  time.seconds t
  = (time.daysSinceEpoch (time.year t) + yday t) * 86400
    + time.hour t * 3600 + time.min t * 60 + time.sec t.
Proof. unfold time.seconds, yday. lia. Qed.

Lemma days_compare (t u : time.Time) :
  valid_civil t -> valid_civil u ->
  lex (time.year t ?= time.year u)
    (lex (time.month t ?= time.month u) (time.day t ?= time.day u))
  = (time.daysSinceEpoch (time.year t) + yday t
     ?= time.daysSinceEpoch (time.year u) + yday u).
Proof.
  intros Ht Hu.
  pose proof (yday_bounds t Ht) as Bt. pose proof (yday_bounds u Hu) as Bu.
  destruct (Z.compare_spec (time.year t) (time.year u)) as [Heq|Hlt|Hgt]; cbn [lex].
  - rewrite yday_compare by done. rewrite Heq. symmetry. apply Z.add_compare_mono_l.
  - symmetry. apply Z.compare_lt_iff.
    pose proof (daysSinceEpoch_next (time.year t)).
    pose proof (daysSinceEpoch_mono (time.year t + 1) (time.year u) ltac:(lia)).
    lia.
  - symmetry. apply Z.compare_gt_iff.
    pose proof (daysSinceEpoch_next (time.year u)).
    pose proof (daysSinceEpoch_mono (time.year u + 1) (time.year t) ltac:(lia)).
    lia.
Qed.

Lemma minute_of_eq (t : time.Time) :
  valid_civil t ->
  minute_of t
  = (time.daysSinceEpoch (time.year t) + yday t) * 1440
    + time.hour t * 60 + time.min t.
Proof.
  intros (_ & _ & _ & Hh & Hmi & Hs). unfold minute_of. rewrite seconds_eq.
  div_lia.
Qed.

Lemma lex_assoc (a b c : comparison) : lex (lex a b) c = lex a (lex b c).
Proof. by destruct a. Qed.

(** The key of a row orders the rows as the minutes of their timestamps. *)
Lemma key_before_minute (t u : time.Time) :
  valid_civil t -> valid_civil u ->
  key_before t u = (minute_of t <? minute_of u).
Proof.
  intros Ht Hu. unfold key_before, String.ltb.
  rewrite string_eqb_compare, compare_date, compare_clock by done.
  rewrite days_compare by done.
  rewrite !minute_of_eq by done.
  destruct Ht as (_ & _ & _ & Hh & Hmi & _), Hu as (_ & _ & _ & Hh' & Hmi' & _).
  destruct (Z.compare_spec (time.daysSinceEpoch (time.year t) + yday t)
              (time.daysSinceEpoch (time.year u) + yday u)),
    (Z.compare_spec (time.hour t) (time.hour u)),
    (Z.compare_spec (time.min t) (time.min u)); cbn [lex orb andb];
    symmetry; first [apply Z.ltb_lt; lia | apply Z.ltb_ge; lia].
Qed.

(** *** Fractional seconds are below one second *)

Lemma number_bounds (s : string) (x : Z) :
  all_digits s = true -> 0 <= x ->
  x * 10 ^ Z.of_nat (String.length s) <= number s x
  < (x + 1) * 10 ^ Z.of_nat (String.length s).
Proof.
  revert x. induction s as [|c rest IH]; intros x Hall Hx.
  - simpl. lia.
  - simpl in Hall. apply andb_true_iff in Hall as [Hc Hrest].
    apply is_digit_inv in Hc as [Hv _].
    cbn [number String.length]. rewrite Nat2Z.inj_succ, Z.pow_succ_r by lia.
    specialize (IH (x * 10 + digit_val c) Hrest ltac:(lia)).
    assert (0 < 10 ^ Z.of_nat (String.length rest)) by (apply Z.pow_pos_nonneg; lia).
    nia.
Qed.

Lemma fraction_nsec_bounds (ds : string) :
  all_digits ds = true -> 0 <= fraction_nsec ds < 1000000000.
Proof.
  intros Hall. unfold fraction_nsec.
  pose proof (substring_length_le ds 9) as Hlen.
  pose proof (number_bounds _ 0 (substring_all_digits ds 9 Hall) ltac:(lia)) as Hn.
  set (ds9 := String.substring 0 9 ds) in *.
  set (n := Z.of_nat (String.length ds9)) in *.
  assert (Hpow : 10 ^ n * 10 ^ (9 - n) = 1000000000).
  { rewrite <- Z.pow_add_r by lia. by replace (n + (9 - n)) with 9 by lia. }
  assert (0 < 10 ^ (9 - n)) by (apply Z.pow_pos_nonneg; lia).
  nia.
Qed.

Lemma fraction_bounds (frac : string) (ns : Z) :
  fraction frac ns -> 0 <= ns < 1000000000.
Proof.
  intros [|c ds _ _ Hall]; [lia|]. by apply fraction_nsec_bounds.
Qed.

Lemma parseTime_nsec (s : string) (t : time.Time) :
  parseTime s = Done t -> 0 <= time.nsec t < 1000000000.
Proof.
  intros (_ & frac & Hfrac & _)%Parse_Done_inv. by apply fraction_bounds in Hfrac.
Qed.

Lemma minute_of_Before (t u : time.Time) :
  0 <= time.nsec t < 1000000000 -> 0 <= time.nsec u < 1000000000 ->
  (minute_of t < minute_of u -> time.Before t u = true)
  /\ (time.Before t u = true -> minute_of t <= minute_of u).
Proof.
  intros Ht Hu. unfold time.Before, time.nanoseconds, minute_of, time.Second.
  split.
  - intros Hlt. apply Z.ltb_lt. div_lia.
  - intros Hlt%Z.ltb_lt. div_lia.
Qed.

(** ** Sorting *)

Section Insertion.
Context {A : Type} (less : A -> A -> bool).
Hypothesis Hswo : sort.StrictWeakOrder less.

Lemma less_asym (x y : A) : less x y = true -> less y x = false.
Proof.
  intros Hxy. destruct (less y x) eqn:Hyx; [|done].
  pose proof (sort.less_trans less Hswo x y x Hxy Hyx) as Hxx.
  by rewrite (sort.less_irrefl less Hswo) in Hxx.
Qed.

Lemma insert_left_Permutation (x : A) (before : list A) :
  Permutation (sort.insert_left less x before) (x :: before).
Proof.
  induction before as [|y before IH]; simpl; [done|].
  destruct (less x y); [|done].
  rewrite IH. apply perm_swap.
Qed.

Lemma insert_left_descending (x : A) (before : list A) :
  StronglySorted (fun u v => less u v = false) before ->
  StronglySorted (fun u v => less u v = false) (sort.insert_left less x before).
Proof.
  induction 1 as [|y before Hsorted IH Hy]; simpl.
  - repeat constructor.
  - destruct (less x y) eqn:Hxy.
    + constructor; [done|]. rewrite insert_left_Permutation.
      constructor; [by apply less_asym|done].
    + constructor; [by constructor|]. constructor; [done|].
      eapply Forall_impl; [exact Hy|]. intros z Hyz. simpl in Hyz.
      by apply (sort.less_incomparable_trans less Hswo x y z).
Qed.

Lemma fold_insert_left_descending (l before : list A) :
  StronglySorted (fun u v => less u v = false) before ->
  StronglySorted (fun u v => less u v = false)
    (fold_left (fun before x => sort.insert_left less x before) l before).
Proof.
  revert before. induction l as [|x l IH]; intros before Hs; simpl; [done|].
  apply IH. by apply insert_left_descending.
Qed.
End Insertion.

Lemma fold_insert_left_Permutation {A : Type} (less : A -> A -> bool)
    (l before : list A) :
  Permutation (fold_left (fun before x => sort.insert_left less x before) l before)
    (l ++ before).
Proof.
  revert before. induction l as [|x l IH]; intros before; simpl; [done|].
  rewrite IH, insert_left_Permutation. by rewrite Permutation_middle.
Qed.

Lemma StronglySorted_rev {A : Type} (R : A -> A -> Prop) (l : list A) :
  StronglySorted R l -> StronglySorted (fun x y => R y x) (rev l).
Proof.
  induction 1 as [|x l Hs IH Hx]; simpl; [constructor|].
  apply StronglySorted_app_2; [|done|repeat constructor].
  intros u v Hu Hv. apply list_elem_of_singleton in Hv as ->.
  rewrite List.Forall_forall in Hx. apply Hx.
  apply in_rev. by apply list_elem_of_In.
Qed.

Lemma insertionSort_Permutation {A : Type} (less : A -> A -> bool) (l : list A) :
  Permutation (sort.insertionSort less l) l.
Proof.
  unfold sort.insertionSort.
  rewrite <- Permutation_rev, fold_insert_left_Permutation. by rewrite app_nil_r.
Qed.

Lemma insertionSort_Ascending {A : Type} (less : A -> A -> bool) (l : list A) :
  sort.StrictWeakOrder less -> sort.Ascending less (sort.insertionSort less l).
Proof.
  intros Hswo. unfold sort.Ascending, sort.insertionSort.
  apply (StronglySorted_rev (fun u v => less u v = false)).
  apply fold_insert_left_descending; [done|constructor].
Qed.



Lemma reversingSort_Permutation {A : Type} (less : A -> A -> bool) (l : list A) :
  Permutation (reversingSort less l) l.
Proof.
  unfold reversingSort. rewrite insertionSort_Permutation.
  symmetry. apply Permutation_rev.
Qed.

Lemma reversingSort_Ascending {A : Type} (less : A -> A -> bool) (l : list A) :
  sort.StrictWeakOrder less -> sort.Ascending less (reversingSort less l).
Proof. intros Hswo. by apply insertionSort_Ascending. Qed.

Definition reversing_sorter : sort.Implementation := @reversingSort.

Lemma reversing_sorter_Contract : sort.Contract reversing_sorter.
Proof.
  split.
  - apply @reversingSort_Permutation.
  - apply @reversingSort_Ascending.
Qed.

(** *** The order of the rows *)

Lemma ltb_leb (s t : string) : String.ltb s t = negb (String.leb t s).
Proof.
  unfold String.ltb, String.leb. rewrite (String.compare_antisym t s).
  by destruct (String.compare s t).
Qed.

Lemma string_le_refl (s : string) : string_le s s.
Proof. unfold string_le, String.leb. by rewrite string_compare_refl. Qed.

Lemma string_le_trans (s t u : string) :
  string_le s t -> string_le t u -> string_le s u.
Proof.
  unfold string_le. intros H1%Is_true_true H2%Is_true_true. apply Is_true_true.
  by apply (@transitivity _ String.le _ s t u).
Qed.

Lemma string_le_antisym (s t : string) : string_le s t -> string_le t s -> s = t.
Proof. apply String.leb_antisym. Qed.

Lemma string_le_total (s t : string) : string_le s t \/ string_le t s.
Proof. apply String.leb_total. Qed.

(** [less a b] fails exactly when [b] comes no later than [a]. *)
Lemma less_false_iff (a b : Column) : less a b = false <-> key_le b a.
Proof.
  unfold less, key_le, string_lt, string_le. rewrite !ltb_leb.
  destruct (String.eqb_spec (date a) (date b)) as [Heq|Hne].
  - rewrite Heq. fold (string_le (date b) (date b)).
    pose proof (string_le_refl (date b)) as Hr. unfold string_le in Hr. rewrite Hr.
    cbn [negb orb andb]. rewrite negb_false_iff.
    split; [by right|by intros [H|[_ H]]].
  - rewrite andb_false_l, orb_false_r, negb_false_iff.
    destruct (String.leb (date b) (date a)) eqn:Hba.
    + destruct (String.leb (date a) (date b)) eqn:Hab.
      * exfalso. apply Hne. by apply string_le_antisym.
      * naive_solver.
    + split; [done|]. intros [H|[H _]]; [|congruence].
      apply negb_true_iff in H.
      destruct (string_le_total (date a) (date b)) as [H'|H'];
        unfold string_le in H'; congruence.
Qed.

Lemma key_le_refl (a : Column) : key_le a a.
Proof. right. split; [done|apply string_le_refl]. Qed.

Lemma string_lt_le (s t : string) : string_lt s t -> string_le s t.
Proof.
  unfold string_lt, string_le. rewrite ltb_leb, negb_true_iff. intros H.
  destruct (string_le_total s t) as [H'|H']; unfold string_le in H'; congruence.
Qed.

Lemma string_lt_le_trans (s t u : string) :
  string_lt s t -> string_le t u -> string_lt s u.
Proof.
  unfold string_lt. rewrite !ltb_leb, !negb_true_iff. intros Hts Htu.
  destruct (String.leb u s) eqn:Hus; [|done].
  pose proof (string_le_trans t u s Htu Hus) as H. unfold string_le in H. congruence.
Qed.

Lemma string_le_lt_trans (s t u : string) :
  string_le s t -> string_lt t u -> string_lt s u.
Proof.
  unfold string_lt. rewrite !ltb_leb, !negb_true_iff. intros Hst Hut.
  destruct (String.leb u s) eqn:Hus; [|done].
  pose proof (string_le_trans u s t Hus Hst) as H. unfold string_le in H. congruence.
Qed.

Lemma key_le_trans (a b c : Column) : key_le a b -> key_le b c -> key_le a c.
Proof.
  intros [Hab|[Eab Hab]] [Hbc|[Ebc Hbc]].
  - left. eapply string_lt_le_trans; [done|by apply string_lt_le].
  - left. by rewrite <- Ebc.
  - left. by rewrite Eab.
  - right. split; [congruence|by eapply string_le_trans].
Qed.

Lemma key_le_total (a b : Column) : key_le a b \/ key_le b a.
Proof.
  destruct (String.eqb_spec (date a) (date b)) as [Heq|Hne].
  - destruct (string_le_total (startTime a) (startTime b)); [left|right]; by right.
  - destruct (string_le_total (date a) (date b)) as [H|H]; [left|right]; left;
      unfold string_lt; rewrite ltb_leb, negb_true_iff;
      destruct (String.leb _ _) eqn:E; try done; exfalso; apply Hne;
      by apply string_le_antisym.
Qed.

(** The [less] of main meets the requirement of [sort.Slice]. *)
Lemma less_StrictWeakOrder : sort.StrictWeakOrder less.
Proof.
  split.
  - intros x. apply less_false_iff, key_le_refl.
  - intros x y z Hxy Hyz. destruct (less x z) eqn:Hxz; [done|].
    apply less_false_iff in Hxz.
    destruct (key_le_total x y) as [H|H].
    + pose proof (key_le_trans z x y Hxz H) as H'.
      apply less_false_iff in H'. congruence.
    + apply less_false_iff in H. congruence.
  - intros x y z Hxy%less_false_iff Hyz%less_false_iff.
    apply less_false_iff. by eapply key_le_trans.
Qed.

(** ** Rounding in binary64 *)

Lemma digits2_pos_size (p : positive) : digits2_pos p = Pos.size p.
Proof. induction p as [p IH|p IH|]; simpl; by rewrite ?IH. Qed.

Lemma Zdigits2_log2 (n : Z) : 0 < n -> Zdigits2 n = Z.log2 n + 1.
Proof.
  destruct n as [|p|p]; [lia| |lia]. intros _. simpl. rewrite digits2_pos_size.
  destruct p as [p|p|]; simpl; lia.
Qed.

Lemma log2_bounds (n : Z) : 0 < n -> 2 ^ Z.log2 n <= n < 2 ^ (Z.log2 n + 1).
Proof. intros Hn. apply Z.log2_spec in Hn. by rewrite <- Z.add_1_r in Hn. Qed.

Lemma log2_unique' (n k : Z) : 0 <= k -> 2 ^ k <= n < 2 ^ (k + 1) -> Z.log2 n = k.
Proof. intros Hk Hn. apply Z.log2_unique; [done|]. by rewrite <- Z.add_1_r. Qed.

Lemma shr_record_of_loc_m (m : Z) (l : location) :
  shr_m (shr_record_of_loc m l) = m.
Proof. by destruct l as [|[]]. Qed.

Lemma shr_1_m (mrs : shr_record) :
  0 <= shr_m mrs -> shr_m (shr_1 mrs) = shr_m mrs / 2.
Proof.
  destruct mrs as [m r s]. simpl. intros Hm.
  destruct m as [|[p|p|]|p]; simpl; try done; try lia.
  - rewrite Pos2Z.inj_xI. apply Z.div_unique with 1; lia.
  - rewrite Pos2Z.inj_xO. apply Z.div_unique with 0; lia.
Qed.

Lemma pow2_xO (p : positive) : 2 ^ Z.pos p~0 = 2 ^ Z.pos p * 2 ^ Z.pos p.
Proof. rewrite <- Z.pow_add_r by lia. f_equal. lia. Qed.

Lemma pow2_xI (p : positive) : 2 ^ Z.pos p~1 = 2 * (2 ^ Z.pos p * 2 ^ Z.pos p).
Proof.
  rewrite <- Z.pow_add_r, <- Z.pow_succ_r by lia. f_equal. lia.
Qed.

Lemma iter_shr_1_m (p : positive) (mrs : shr_record) :
  0 <= shr_m mrs ->
  shr_m (SpecFloat.iter_pos shr_1 p mrs) = shr_m mrs / 2 ^ Z.pos p.
Proof.
  revert mrs. induction p as [p IH|p IH|]; intros mrs Hm; cbn [SpecFloat.iter_pos].
  - assert (H1 := shr_1_m mrs Hm).
    assert (0 <= shr_m (shr_1 mrs)) by (rewrite H1; apply Z.div_pos; lia).
    assert (H2 := IH (shr_1 mrs) ltac:(done)).
    assert (0 <= shr_m (SpecFloat.iter_pos shr_1 p (shr_1 mrs)))
      by (rewrite H2; apply Z.div_pos; lia).
    rewrite IH, H2, H1 by done.
    rewrite !Z.div_div by lia. by rewrite pow2_xI, Z.mul_assoc.
  - assert (H2 := IH mrs Hm).
    assert (0 <= shr_m (SpecFloat.iter_pos shr_1 p mrs))
      by (rewrite H2; apply Z.div_pos; lia).
    rewrite IH, H2 by done. rewrite Z.div_div by lia. by rewrite pow2_xO.
  - rewrite shr_1_m by done. by rewrite Z.pow_1_r.
Qed.

(** [shr] by [k >= 0] bits divides the mantissa by [2^k]. *)
Lemma shr_m_div (mrs : shr_record) (e k : Z) :
  0 <= shr_m mrs -> 0 <= k ->
  shr_m (fst (shr mrs e k)) = shr_m mrs / 2 ^ k /\ snd (shr mrs e k) = e + k.
Proof.
  intros Hm Hk. destruct k as [|p|p]; [| |lia]; simpl.
  - rewrite Z.div_1_r. split; [done|lia].
  - split; [|done]. by apply iter_shr_1_m.
Qed.

Lemma round_nearest_even_bounds (m : Z) (l : location) :
  m <= round_nearest_even m l <= m + 1.
Proof. destruct l as [|[]]; simpl; try lia. destruct (Z.even m); lia. Qed.

Lemma pos_iter_xO (m d : positive) :
  Z.pos (Pos.iter xO m d) = Z.pos m * 2 ^ Z.pos d.
Proof.
  induction d as [|d IH] using Pos.peano_ind.
  - simpl. lia.
  - rewrite Pos.iter_succ, Pos2Z.inj_xO, IH, Pos2Z.inj_succ, Z.pow_succ_r by lia.
    lia.
Qed.

Lemma fexp_normal (x : Z) : -1074 <= x - 53 -> fexp 53 1024 x = x - 53.
Proof. intros Hx. unfold fexp, emin. lia. Qed.

(** [shr_fexp] on a mantissa of [53 + k] bits drops [k] bits. *)
Lemma shr_fexp_div (M e k : Z) (loc : location) :
  0 <= k -> 2 ^ (52 + k) <= M < 2 ^ (53 + k) -> -1074 <= e + k ->
  shr_m (fst (shr_fexp 53 1024 M e loc)) = M / 2 ^ k
  /\ snd (shr_fexp 53 1024 M e loc) = e + k.
Proof.
  intros Hk HM He. unfold shr_fexp.
  assert (0 < 2 ^ (52 + k)) by (apply Z.pow_pos_nonneg; lia).
  rewrite Zdigits2_log2 by lia.
  rewrite (log2_unique' M (52 + k)) by (try lia; by replace (52 + k + 1) with (53 + k) by lia).
  rewrite fexp_normal by lia.
  replace (52 + k + 1 + e - 53 - e) with k by lia.
  destruct (shr_m_div (shr_record_of_loc M loc) e k) as [H1 H2];
    [rewrite shr_record_of_loc_m; lia|done|].
  by rewrite shr_record_of_loc_m in H1.
Qed.

Lemma pow2_split (a b : Z) : 0 <= a -> 0 <= b -> 2 ^ (a + b) = 2 ^ a * 2 ^ b.
Proof. intros. by rewrite Z.pow_add_r. Qed.

(** Rounding a mantissa [M] of [53 + k] bits at exponent [e]: a number of
    53 bits at exponent [e + k], or the next power of two; its mantissa is
    [M / 2^k] or one more, whatever the bits that were dropped. *)
Lemma binary_round_aux_bounds (M e k : Z) (loc : location) :
  0 <= k -> 2 ^ (52 + k) <= M < 2 ^ (53 + k) ->
  -1074 <= e + k -> e + k + 1 <= 971 ->
  exists m' e',
    binary_round_aux 53 1024 false M e loc = S754_finite false m' e'
    /\ e + k <= e' <= e + k + 1
    /\ 2 ^ 52 <= Z.pos m' < 2 ^ 53
    /\ M / 2 ^ k <= Z.pos m' * 2 ^ (e' - e - k) <= M / 2 ^ k + 1.
Proof.
  intros Hk HM He Hmax. unfold binary_round_aux.
  destruct (shr_fexp_div M e k loc Hk HM He) as [Hm1 He1].
  destruct (shr_fexp 53 1024 M e loc) as [mrs' e1]. cbn [fst snd] in Hm1, He1.
  subst e1.
  pose proof (round_nearest_even_bounds (shr_m mrs') (loc_of_shr_record mrs')) as Hr.
  set (M1 := round_nearest_even (shr_m mrs') (loc_of_shr_record mrs')) in *.
  rewrite Hm1 in Hr.
  assert (Hp : 0 < 2 ^ k) by (apply Z.pow_pos_nonneg; lia).
  assert (HN : 2 ^ 52 <= M / 2 ^ k < 2 ^ 53).
  { rewrite !(Z.add_comm _ k), !pow2_split in HM by lia. split.
    - apply Z.div_le_lower_bound; lia.
    - apply Z.div_lt_upper_bound; lia. }
  destruct (Z.eq_dec M1 (2 ^ 53)) as [Heq|Hne].
  - (* the mantissa reached 2^53: one more bit is dropped *)
    destruct (shr_fexp_div M1 (e + k) 1 loc_Exact) as [Hm2 He2];
      [lia|rewrite Heq; by vm_compute|lia|].
    destruct (shr_fexp 53 1024 M1 (e + k) loc_Exact) as [mrs'' e2].
    cbn [fst snd] in Hm2, He2. subst e2. rewrite Hm2, Heq.
    change (2 ^ 53 / 2 ^ 1) with (Z.pos (2 ^ 52)).
    destruct (Z.leb_spec (e + k + 1) (1024 - 53)) as [_|]; [|lia].
    exists (2 ^ 52)%positive, (e + k + 1). split; [done|].
    split; [lia|]. split; [by vm_compute|].
    replace (e + k + 1 - e - k) with 1 by lia.
    change (Z.pos (2 ^ 52) * 2 ^ 1) with (2 ^ 53). lia.
  - destruct (shr_fexp_div M1 (e + k) 0 loc_Exact) as [Hm2 He2];
      [lia|change (52 + 0) with 52; change (53 + 0) with 53; lia|lia|].
    destruct (shr_fexp 53 1024 M1 (e + k) loc_Exact) as [mrs'' e2].
    cbn [fst snd] in Hm2, He2. subst e2. rewrite Hm2, Z.pow_0_r, Z.div_1_r.
    destruct M1 as [|m1|m1]; [lia| |lia].
    rewrite Z.add_0_r.
    destruct (Z.leb_spec (e + k) (1024 - 53)) as [_|]; [|lia].
    exists m1, (e + k). split; [done|]. split; [lia|]. split; [lia|].
    replace (e + k - e - k) with 0 by lia. rewrite Z.pow_0_r. lia.
Qed.

(** With nothing to drop, nothing changes. *)
Lemma binary_round_aux_exact (m : positive) (e : Z) :
  2 ^ 52 <= Z.pos m < 2 ^ 53 -> -1074 <= e <= 971 ->
  binary_round_aux 53 1024 false (Z.pos m) e loc_Exact = S754_finite false m e.
Proof.
  intros Hm He. unfold binary_round_aux, shr_fexp.
  rewrite Zdigits2_log2 by lia.
  rewrite (log2_unique' (Z.pos m) 52) by (try lia; done).
  rewrite fexp_normal by lia.
  replace (52 + 1 + e - 53 - e) with 0 by lia.
  cbn [shr shr_record_of_loc shr_m loc_of_shr_record round_nearest_even].
  rewrite Zdigits2_log2 by lia.
  rewrite (log2_unique' (Z.pos m) 52) by (try lia; done).
  rewrite fexp_normal by lia.
  replace (52 + 1 + e - 53 - e) with 0 by lia.
  cbn [shr shr_record_of_loc shr_m].
  destruct (Z.leb_spec e (1024 - 53)) as [_|]; [done|lia].
Qed.

Lemma shl_align_fst (m : positive) (e e' : Z) :
  e' <= e -> Z.pos (fst (shl_align m e e')) = Z.pos m * 2 ^ (e - e').
Proof.
  intros He. unfold shl_align. destruct (e' - e) as [|d|d] eqn:E; cbn [fst].
  - replace (e - e') with 0 by lia. rewrite Z.pow_0_r. lia.
  - lia.
  - rewrite pos_iter_xO. f_equal. f_equal. lia.
Qed.

Lemma shl_align_same (m : positive) (e e' : Z) :
  e <= e' -> shl_align m e e' = (m, e).
Proof. intros He. unfold shl_align. destruct (e' - e) as [|d|d] eqn:E; [done|done|lia]. Qed.

(** [float64(n)] is [n], written with a mantissa of 53 bits. *)
Lemma of_int_pos (n : Z) :
  0 < n < 2 ^ 53 ->
  exists m, time.of_int n = S754_finite false m (Z.log2 n - 52)
    /\ Z.pos m = n * 2 ^ (52 - Z.log2 n)
    /\ 2 ^ 52 <= Z.pos m < 2 ^ 53.
Proof.
  intros Hn. pose proof (log2_bounds n ltac:(lia)) as HL.
  assert (0 <= Z.log2 n) by apply Z.log2_nonneg.
  assert (Z.log2 n <= 52).
  { destruct (Z.le_gt_cases (Z.log2 n) 52) as [|Hgt]; [done|].
    assert (2 ^ 53 <= 2 ^ Z.log2 n) by (apply Z.pow_le_mono_r; lia). lia. }
  destruct n as [|p|p]; [lia| |lia].
  unfold time.of_int, time.prec, time.emax, binary_normalize, binary_round.
  change (Z.pos (digits2_pos p)) with (Zdigits2 (Z.pos p)).
  rewrite Zdigits2_log2, fexp_normal by lia.
  set (L := Z.log2 (Z.pos p)) in *.
  assert (Hpow : 0 < 2 ^ (52 - L)) by (apply Z.pow_pos_nonneg; lia).
  assert (Hm : 2 ^ 52 <= Z.pos p * 2 ^ (52 - L) < 2 ^ 53).
  { assert (2 ^ 52 = 2 ^ L * 2 ^ (52 - L))
      by (rewrite <- Z.pow_add_r by lia; f_equal; lia).
    assert (2 ^ 53 = 2 ^ (L + 1) * 2 ^ (52 - L))
      by (rewrite <- Z.pow_add_r by lia; f_equal; lia).
    nia. }
  destruct (shl_align p 0 (L + 1 + 0 - 53)) as [mz ez] eqn:E.
  pose proof (shl_align_fst p 0 (L + 1 + 0 - 53) ltac:(lia)) as Hfst.
  rewrite E in Hfst. cbn [fst] in Hfst.
  replace (0 - (L + 1 + 0 - 53)) with (52 - L) in Hfst by lia.
  assert (ez = L - 52) as ->.
  { unfold shl_align in E. destruct (L + 1 + 0 - 53 - 0) eqn:E'; injection E as _ <-; lia. }
  exists mz. rewrite binary_round_aux_exact by lia.
  split; [done|]. split; [done|]. by rewrite Hfst.
Qed.

(** The quotient of two numbers of 53 bits: at most two units of the last
    place of the exact quotient above it. *)
Lemma SFdiv_bounds (mx my : positive) (ex ey : Z) :
  2 ^ 52 <= Z.pos mx < 2 ^ 53 -> 2 ^ 52 <= Z.pos my < 2 ^ 53 ->
  -1074 <= ex - ey - 53 -> ex - ey - 51 <= 971 ->
  exists mq eq,
    time.div (S754_finite false mx ex) (S754_finite false my ey)
    = S754_finite false mq eq
    /\ 2 ^ 52 <= Z.pos mq < 2 ^ 53
    /\ ex - ey - 53 <= eq <= ex - ey - 51
    /\ Z.pos mq * 2 ^ (eq - (ex - ey - 53)) * Z.pos my
       <= Z.pos mx * 2 ^ 53 + 2 * Z.pos my.
Proof.
  intros Hx Hy Hlo Hhi.
  unfold time.div, time.prec, time.emax, SFdiv, SFdiv_core_binary.
  rewrite !Zdigits2_log2 by lia.
  rewrite (log2_unique' (Z.pos mx) 52), (log2_unique' (Z.pos my) 52) by (try lia; done).
  replace (52 + 1 + ex - (52 + 1 + ey)) with (ex - ey) by lia.
  rewrite fexp_normal by lia.
  rewrite Z.min_l by lia.
  replace (ex - ey - (ex - ey - 53)) with 53 by lia.
  cbn match. rewrite Z.shiftl_mul_pow2 by lia.
  pose proof (Z_div_mod (Z.pos mx * 2 ^ 53) (Z.pos my) ltac:(lia)) as Hdiv.
  destruct (Z.div_eucl (Z.pos mx * 2 ^ 53) (Z.pos my)) as [q r].
  destruct Hdiv as [Hq Hr]. cbn [xorb].
  assert (Hqb : 2 ^ 52 <= q < 2 ^ 54).
  { change (2 ^ 54) with (2 * 2 ^ 53). change (2 ^ 53) with (2 * 2 ^ 52) in *. nia. }
  destruct (Z.lt_ge_cases q (2 ^ 53)) as [Hsmall|Hbig].
  - destruct (binary_round_aux_bounds q (ex - ey - 53) 0
                (new_location (Z.pos my) r)) as (mq & eq & -> & He & Hm & Hv);
      [lia|change (52 + 0) with 52; change (53 + 0) with 53; lia|lia|lia|].
    exists mq, eq. split; [done|]. split; [done|]. split; [lia|].
    rewrite Z.pow_0_r, Z.div_1_r in Hv.
    replace (eq - (ex - ey - 53) - 0) with (eq - (ex - ey - 53)) in Hv by lia.
    nia.
  - destruct (binary_round_aux_bounds q (ex - ey - 53) 1
                (new_location (Z.pos my) r)) as (mq & eq & -> & He & Hm & Hv);
      [lia|change (52 + 1) with 53; change (53 + 1) with 54; lia|lia|lia|].
    exists mq, eq. split; [done|]. split; [done|]. split; [lia|].
    replace (eq - (ex - ey - 53)) with (eq - (ex - ey - 53) - 1 + 1) by lia.
    rewrite Z.pow_add_r, Z.pow_1_r by lia.
    change (2 ^ 1) with 2 in Hv.
    assert (0 < 2 ^ (eq - (ex - ey - 53) - 1)) by (apply Z.pow_pos_nonneg; lia).
    assert (2 * (q / 2) <= q) by div_lia.
    nia.
Qed.

(** The integer part of a float of 53 bits at a negative exponent. *)
Lemma int_finite (m : positive) (e : Z) :
  e < 0 -> time.int (S754_finite false m e) = Z.pos m / 2 ^ (- e).
Proof.
  intros He. unfold time.int. destruct (Z.leb_spec 0 e); [lia|].
  by rewrite Z.shiftr_div_pow2 by lia.
Qed.

(** Adding a fraction [q] to an integer [a]: when [q] is below one by more
    than a unit of the last place of [a], the integer part of the sum is
    [a]. *)
Lemma SFadd_int (mh mq : positive) (eh eq a : Z) :
  2 ^ 52 <= Z.pos mh < 2 ^ 53 -> 2 ^ 52 <= Z.pos mq < 2 ^ 53 ->
  -1074 <= eq -> eq <= eh -> -52 <= eh <= -2 ->
  Z.pos mh = a * 2 ^ (- eh) ->
  Z.pos mq + 2 ^ (eh - eq) < 2 ^ (- eq) ->
  time.int (time.add (S754_finite false mh eh) (S754_finite false mq eq)) = a.
Proof.
  intros Hh Hq Hlo Hle Heh Ha Hsmall.
  unfold time.add, time.prec, time.emax, SFadd. rewrite Z.min_r by lia.
  cbn [cond_Zopp].
  rewrite (shl_align_fst mh eh eq), (shl_align_fst mq eq eq) by lia.
  rewrite Z.sub_diag, Z.pow_0_r, Z.mul_1_r.
  remember (Z.pos mh * 2 ^ (eh - eq) + Z.pos mq) as M eqn:EM.
  assert (HU : 0 < 2 ^ (- eh)) by (apply Z.pow_pos_nonneg; lia).
  assert (HG : 0 < 2 ^ (eh - eq)) by (apply Z.pow_pos_nonneg; lia).
  assert (Hsplit : 2 ^ (- eq) = 2 ^ (- eh) * 2 ^ (eh - eq))
    by (rewrite <- Z.pow_add_r by lia; f_equal; lia).
  assert (H53 : 2 ^ (53 + eh) * 2 ^ (- eh) = 2 ^ 53)
    by (rewrite <- Z.pow_add_r by lia; f_equal; lia).
  assert (Ha1 : a + 1 <= 2 ^ (53 + eh)).
  { assert (a < 2 ^ (53 + eh)) by nia. lia. }
  assert (Ha0 : 0 < a) by nia.
  assert (HMlo : 2 ^ 52 <= M) by nia.
  assert (HMhi : M < 2 ^ (53 + eh - eq)).
  { replace (53 + eh - eq) with (53 + eh + (- eq)) by lia.
    rewrite Z.pow_add_r by lia. nia. }
  set (k := Z.log2 M - 52).
  pose proof (log2_bounds M ltac:(lia)) as HL.
  assert (Hk0 : 0 <= k).
  { unfold k. assert (52 <= Z.log2 M); [|lia].
    apply Z.log2_le_pow2; lia. }
  assert (Hk1 : k <= eh - eq).
  { unfold k. assert (Z.log2 M < 53 + eh - eq); [|lia].
    apply Z.log2_lt_pow2; lia. }
  replace (Z.log2 M) with (52 + k) in HL by (unfold k; lia).
  replace (52 + k + 1) with (53 + k) in HL by lia.
  assert (HMpos : 0 < M) by lia.
  destruct M as [|m|m]; [lia| |lia].
  unfold binary_normalize, binary_round.
  change (Z.pos (digits2_pos m)) with (Zdigits2 (Z.pos m)).
  rewrite Zdigits2_log2 by lia.
  fold k. replace (Z.log2 (Z.pos m)) with (52 + k) by (unfold k; lia).
  rewrite fexp_normal by lia.
  rewrite shl_align_same by lia.
  destruct (binary_round_aux_bounds (Z.pos m) eq k loc_Exact)
    as (m' & e' & -> & He' & Hm' & Hv); [done|done|lia|lia|].
  rewrite int_finite by lia.
  (* all exponents as products of four powers of two *)
  set (t := e' - eq - k) in *.
  assert (HP : 0 < 2 ^ k) by (apply Z.pow_pos_nonneg; lia).
  assert (HT : 0 < 2 ^ (eh - eq - k)) by (apply Z.pow_pos_nonneg; lia).
  assert (Ht : 0 < 2 ^ t) by (apply Z.pow_pos_nonneg; unfold t; lia).
  assert (HW : 0 < 2 ^ (- e')) by (apply Z.pow_pos_nonneg; lia).
  assert (HG' : 2 ^ (eh - eq) = 2 ^ (eh - eq - k) * 2 ^ k)
    by (rewrite <- Z.pow_add_r by lia; f_equal; lia).
  assert (HW' : 2 ^ (- e') * 2 ^ t = 2 ^ (- eh) * 2 ^ (eh - eq - k))
    by (rewrite <- !Z.pow_add_r by (unfold t; lia); f_equal; unfold t; lia).
  pose proof (Z_div_mod (Z.pos m) (2 ^ k) ltac:(lia)) as Hdm.
  unfold Z.div in Hv |- *.
  destruct (Z.div_eucl (Z.pos m) (2 ^ k)) as [N rem]. destruct Hdm as [HN Hrem].
  cbn [fst] in Hv.
  change (fst (Z.div_eucl (Z.pos m') (2 ^ (- e')))) with (Z.pos m' / 2 ^ (- e')).
  rewrite HG', Hsplit, HG' in Hsmall. rewrite HG' in EM.
  set (U := 2 ^ (- eh)) in *. set (T := 2 ^ (eh - eq - k)) in *.
  set (P := 2 ^ k) in *. set (W := 2 ^ (- e')) in *. set (X := 2 ^ t) in *.
  assert (HNlo : a * (U * T) <= N) by nia.
  assert (HNhi : N + 1 <= (a + 1) * (U * T) - T) by nia.
  assert (H1 : a * W * X <= Z.pos m' * X).
  { rewrite <- Z.mul_assoc, HW'. lia. }
  assert (H2 : Z.pos m' * X < (a + 1) * W * X).
  { rewrite <- (Z.mul_assoc (a + 1)), HW'. lia. }
  apply Z.mul_le_mono_pos_r in H1; [|done].
  apply Z.mul_lt_mono_pos_r in H2; [|done].
  symmetry. apply Z.div_unique with (Z.pos m' - a * W); lia.
Qed.

Lemma margin_arith (r c g pc h : Z) :
  0 < r < c -> 1 <= g -> 1 <= pc -> 0 < h ->
  c * (1 + h) < (c - r) * 2 ^ 52 ->
  r * (pc * g) * 2 ^ 53 + 2 * (c * pc) + h * 2 * g * (c * pc)
  < 2 ^ 53 * g * (c * pc).
Proof.
  intros Hr Hg Hpc Hh Hmargin.
  change (2 ^ 53) with (2 * 2 ^ 52). set (D := 2 ^ 52) in *.
  assert (H1 : r * D + c * (1 + h) < D * c) by lia.
  assert (H2 : g * (r * D + c * (1 + h)) < g * (D * c))
    by (apply Z.mul_lt_mono_pos_l; lia).
  assert (H3 : c <= c * g) by nia.
  assert (H4 : r * g * D + c + h * g * c < D * g * c) by lia.
  assert (H5 : pc * (r * g * D + c + h * g * c) < pc * (D * g * c))
    by (apply Z.mul_lt_mono_pos_l; lia).
  lia.
Qed.

Lemma of_int_zero : time.of_int 0 = S754_zero false.
Proof. reflexivity. Qed.

Lemma log2_le_52 (n : Z) : 0 < n < 2 ^ 53 -> 0 <= Z.log2 n <= 52.
Proof.
  intros Hn. split; [apply Z.log2_nonneg|].
  assert (Z.log2 n < 53); [|lia]. apply Z.log2_lt_pow2; lia.
Qed.

(** The quotient [r / c] of two integers, [r] below [c] by a margin, is a
    float below one by more than [2^E]. *)
Lemma div_of_int_small (r c E : Z) :
  0 < r < c -> c < 2 ^ 53 -> -52 <= E <= -2 ->
  c * (1 + 2 ^ (E + 52)) < (c - r) * 2 ^ 52 ->
  exists mq eq,
    time.div (time.of_int r) (time.of_int c) = S754_finite false mq eq
    /\ 2 ^ 52 <= Z.pos mq < 2 ^ 53
    /\ -1074 <= eq <= -53
    /\ Z.pos mq + 2 ^ (E - eq) < 2 ^ (- eq).
Proof.
  intros Hr Hc HE Hmargin.
  destruct (of_int_pos r ltac:(lia)) as (mx & -> & Hmx & Bx).
  destruct (of_int_pos c ltac:(lia)) as (my & -> & Hmy & By).
  pose proof (log2_le_52 r ltac:(lia)) as HLr.
  pose proof (log2_le_52 c ltac:(lia)) as HLc.
  assert (HL : Z.log2 r <= Z.log2 c) by (apply Z.log2_le_mono; lia).
  set (Lr := Z.log2 r) in *. set (Lc := Z.log2 c) in *.
  destruct (SFdiv_bounds mx my (Lr - 52) (Lc - 52)) as (mq & eq & -> & Bq & He & Hd);
    [done|done|lia|lia|].
  exists mq, eq. split; [done|]. split; [done|].
  replace (Lr - 52 - (Lc - 52) - 53) with (Lr - Lc - 53) in * by lia.
  replace (Lr - 52 - (Lc - 52) - 51) with (Lr - Lc - 51) in * by lia.
  set (t := eq - (Lr - Lc - 53)) in *.
  assert (Hg : 0 < 2 ^ (Lc - Lr)) by (apply Z.pow_pos_nonneg; lia).
  assert (Hpc : 0 < 2 ^ (52 - Lc)) by (apply Z.pow_pos_nonneg; lia).
  assert (Hh : 0 < 2 ^ (E + 52)) by (apply Z.pow_pos_nonneg; lia).
  assert (Ht : 0 < 2 ^ t) by (apply Z.pow_pos_nonneg; unfold t; lia).
  assert (Hpr : 2 ^ (52 - Lr) = 2 ^ (52 - Lc) * 2 ^ (Lc - Lr))
    by (rewrite <- Z.pow_add_r by lia; f_equal; lia).
  assert (HK := margin_arith r c (2 ^ (Lc - Lr)) (2 ^ (52 - Lc)) (2 ^ (E + 52))
                  Hr ltac:(lia) ltac:(lia) Hh Hmargin).
  rewrite <- Hpr, <- Hmx, <- Hmy in HK.
  (* the quotient is below one *)
  assert (HS : 2 ^ 53 * 2 ^ (Lc - Lr) = 2 ^ (53 + Lc - Lr))
    by (rewrite <- Z.pow_add_r by lia; f_equal; lia).
  assert (Hlt : Z.pos mq * 2 ^ t < 2 ^ (53 + Lc - Lr)).
  { rewrite HS in HK.
    assert (0 <= 2 ^ (E + 52) * 2 * 2 ^ (Lc - Lr) * Z.pos my) by nia.
    assert (Z.pos mq * 2 ^ t * Z.pos my < 2 ^ (53 + Lc - Lr) * Z.pos my) by lia.
    eapply Z.mul_lt_mono_pos_r; [|done]. lia. }
  assert (Heq : eq <= -53).
  { destruct (Z.le_gt_cases eq (-53)) as [|Hgt]; [done|exfalso].
    assert (t = 53 + Lc - Lr + eq) by (unfold t; lia).
    assert (53 + Lc - Lr <= 52 + t) by lia.
    assert (2 ^ (53 + Lc - Lr) <= 2 ^ (52 + t)) by (apply Z.pow_le_mono_r; lia).
    rewrite Z.pow_add_r in * by (unfold t; lia). nia. }
  split; [lia|].
  assert (HS' : 2 ^ (- eq) * 2 ^ t = 2 ^ (53 + Lc - Lr))
    by (rewrite <- Z.pow_add_r by (unfold t; lia); f_equal; unfold t; lia).
  assert (HE' : 2 ^ (E - eq) * 2 ^ t = 2 ^ (E + 52) * 2 * 2 ^ (Lc - Lr)).
  { rewrite <- Z.pow_add_r by (unfold t; lia).
    replace (2 ^ (E + 52) * 2) with (2 ^ (E + 52 + 1))
      by (rewrite Z.pow_add_r by lia; done).
    rewrite <- Z.pow_add_r by lia. f_equal. unfold t. lia. }
  rewrite HS, <- HS', <- HE' in HK.
  assert (HK' : (Z.pos mq * 2 ^ t + 2 ^ (E - eq) * 2 ^ t) * Z.pos my
                < 2 ^ (- eq) * 2 ^ t * Z.pos my) by lia.
  apply Z.mul_lt_mono_pos_r in HK'; [|lia].
  rewrite <- Z.mul_add_distr_r in HK'.
  apply Z.mul_lt_mono_pos_r in HK'; [done|lia].
Qed.

(** [int(float64(a) + float64(r)/float64(c))] is [a] when [r / c] is below
    one by a margin that grows with [a]. *)
Lemma int_add_div (a r c : Z) :
  0 <= a < 2 ^ 51 -> 0 <= r < c -> c < 2 ^ 53 ->
  c * (a + 2) < (c - r) * 2 ^ 52 ->
  time.int (time.add (time.of_int a) (time.div (time.of_int r) (time.of_int c)))
  = a.
Proof.
  intros Ha Hr Hc Hmargin.
  destruct (Z.eq_dec r 0) as [->|Hr0].
  - rewrite of_int_zero.
    destruct (of_int_pos c ltac:(lia)) as (my & -> & _ & _).
    change (time.div (S754_zero false) (S754_finite false my (Z.log2 c - 52)))
      with (S754_zero false).
    destruct (Z.eq_dec a 0) as [->|Ha0]; [done|].
    destruct (of_int_pos a ltac:(lia)) as (mh & -> & Hmh & _).
    change (time.add (S754_finite false mh (Z.log2 a - 52)) (S754_zero false))
      with (S754_finite false mh (Z.log2 a - 52)).
    assert (Z.log2 a < 51) by (apply Z.log2_lt_pow2; lia).
    rewrite int_finite by lia. rewrite Hmh.
    replace (- (Z.log2 a - 52)) with (52 - Z.log2 a) by lia.
    apply Z.div_mul. apply Z.pow_nonzero; lia.
  - destruct (Z.eq_dec a 0) as [->|Ha0].
    + destruct (div_of_int_small r c (-52)) as (mq & eq & -> & Bq & He & HG);
        [lia|lia|lia|change (2 ^ (-52 + 52)) with 1; lia|].
      rewrite of_int_zero.
      change (time.add (S754_zero false) (S754_finite false mq eq))
        with (S754_finite false mq eq).
      rewrite int_finite by lia. apply Z.div_small.
      assert (0 < 2 ^ (-52 - eq)) by (apply Z.pow_pos_nonneg; lia). lia.
    + assert (HLa : 0 <= Z.log2 a < 51).
      { split; [apply Z.log2_nonneg|apply Z.log2_lt_pow2; lia]. }
      pose proof (log2_bounds a ltac:(lia)) as Hla.
      destruct (div_of_int_small r c (Z.log2 a - 52)) as (mq & eq & -> & Bq & He & HG);
        [lia|lia|lia| |].
      { replace (Z.log2 a - 52 + 52) with (Z.log2 a) by lia. nia. }
      destruct (of_int_pos a ltac:(lia)) as (mh & -> & Hmh & Bh).
      apply SFadd_int; try lia.
      rewrite Hmh. f_equal. f_equal. lia.
Qed.

(** ** The duration formatter *)

Lemma Hours_int (d : time.Duration) :
  0 <= d <= time.maxDuration -> d mod time.Minute <= time.Minute - 4000 ->
  time.int (time.Hours d) = d / time.Hour.
Proof.
  unfold time.maxDuration, time.Hours, time.Hour, time.Minute, time.Second.
  intros Hd Hm.
  rewrite Z.quot_div_nonneg, Z.rem_mod_nonneg by lia.
  change (60 * (60 * 1000000000)) with 3600000000000 in *.
  change (60 * 60 * 1000000000) with 3600000000000.
  change (60 * 1000000000) with 60000000000 in *.
  change (2 ^ 63 - 1) with 9223372036854775807 in Hd.
  apply int_add_div.
  - change (2 ^ 51) with 2251799813685248. div_lia.
  - div_lia.
  - by vm_compute.
  - change (2 ^ 52) with 4503599627370496. div_lia.
Qed.

Lemma Minutes_int (d : time.Duration) :
  0 <= d <= time.maxDuration -> d mod time.Minute <= time.Minute - 4000 ->
  time.int (time.Minutes d) = d / time.Minute.
Proof.
  unfold time.maxDuration, time.Minutes, time.Minute, time.Second.
  intros Hd Hm.
  rewrite Z.quot_div_nonneg, Z.rem_mod_nonneg by lia.
  change (60 * 1000000000) with 60000000000 in *.
  change (2 ^ 63 - 1) with 9223372036854775807 in Hd.
  apply int_add_div.
  - change (2 ^ 51) with 2251799813685248. div_lia.
  - div_lia.
  - by vm_compute.
  - change (2 ^ 52) with 4503599627370496. div_lia.
Qed.

Lemma formatDuration_hh_mm (d : time.Duration) :
  0 <= d <= time.maxDuration -> d mod time.Minute <= time.Minute - 4000 ->
  formatDuration d = hh_mm d.
Proof.
  intros Hd Hm. unfold formatDuration, hh_mm, fmt.Sprintf_02d_02d.
  rewrite Hours_int, Minutes_int by done.
  do 3 f_equal. unfold time.Hour, time.Minute, time.Second. div_lia.
Qed.

(** ** The first rune of the delimiter *)








(** ** Building the rows *)

Lemma fillColumns_buildAll (events : list ics.VEvent) (name : string) (i : nat)
    (columns : list Column) :
  (i + List.length events <= List.length columns)%nat ->
  fillColumns events name i columns =
  (built ← buildAll events name;
   Done (take i columns ++ built ++ drop (i + List.length events) columns)).
Proof.
  revert i columns. induction events as [|event rest IH]; intros i columns Hlen.
  - cbn. rewrite Nat.add_0_r. by rewrite take_drop.
  - cbn [fillColumns buildAll List.length] in *.
    destruct (NewColumn event name) as [column| |]; cbn; [|done..].
    rewrite IH by (rewrite length_insert; lia).
    destruct (buildAll rest name) as [built| |]; cbn; [|done..].
    f_equal.
    rewrite (take_S_r _ _ column) by (apply list_lookup_insert_eq; lia).
    rewrite take_insert_ge by lia.
    rewrite drop_insert_lt by lia.
    rewrite <- app_assoc. cbn. by rewrite Nat.add_succ_r.
Qed.

Lemma createColumns_buildAll (events : list ics.VEvent) (name : string) :
  createColumns events name = buildAll events name.
Proof.
  unfold createColumns. rewrite fillColumns_buildAll by (rewrite length_replicate; lia).
  destruct (buildAll events name) as [built| |]; cbn; [|done..].
  rewrite take_0, drop_ge by (rewrite length_replicate; lia).
  by rewrite app_nil_r.
Qed.





(** ** Writing the rows *)

Section Writing.
Variable encodeRecord : Z -> list string -> string.

Lemma writeCsv_valid (delim : Z) (buf : string) (columns : list Column) :
  csv.validDelim delim = true ->
  writeCsv encodeRecord (csv.mkWriter delim buf) columns
  = Done (csv.mkWriter delim (buf +:+ serialize encodeRecord delim columns)).
Proof.
  intros Hv. revert buf. induction columns as [|col rest IH]; intros buf; cbn.
  - by rewrite append_nil_r.
  - unfold csv_Write. cbn. rewrite Hv. cbn. rewrite IH. by rewrite append_assoc.
Qed.

Lemma writeCsv_invalid (delim : Z) (buf : string) (columns : list Column) :
  csv.validDelim delim = false -> columns <> [] ->
  writeCsv encodeRecord (csv.mkWriter delim buf) columns = Failed ErrInvalidDelim.
Proof.
  intros Hv Hne. destruct columns as [|col rest]; [done|]. cbn.
  unfold csv_Write. cbn. by rewrite Hv.
Qed.

(** The writer ends with its buffer, or with the error of the delimiter. *)
Lemma writeCsv_cases (delim : Z) (columns : list Column) :
  writeCsv encodeRecord (csv.mkWriter delim "") columns
  = Done (csv.mkWriter delim (serialize encodeRecord delim columns))
  \/ writeCsv encodeRecord (csv.mkWriter delim "") columns
     = Failed ErrInvalidDelim.
Proof.
  destruct (csv.validDelim delim) eqn:Hv.
  - left. by rewrite writeCsv_valid.
  - destruct columns as [|col rest]; [by left|right].
    by apply writeCsv_invalid.
Qed.
End Writing.

(** ** Runs of main *)

Section Runs.
Variable ParseCalendar : string -> option ics.Calendar.
Variable encodeRecord : Z -> list string -> string.
Variable sorter : sort.Implementation.


(** main is the pipeline of the rows followed by the output stage. *)
Lemma main_rows (args : CliArgs) (w : World) :
  main ParseCalendar encodeRecord sorter args w =
  match files w !! icsPath args with
  | None =>
      mkRun (ExitFatal (PathError "open" (icsPath args))) w [EvOpen (icsPath args)]
  | Some content =>
      match rows_of ParseCalendar sorter args content with
      | Done columns =>
          writeOutput encodeRecord args columns w [EvOpen (icsPath args)]
      | Failed e => mkRun (ExitFatal e) w [EvOpen (icsPath args)]
      | Panicked =>
          mkRun ExitPanic w [EvOpen (icsPath args); EvClose (icsPath args)]
      end
  end.
Proof.
  unfold main, rows_of.
  destruct (files w !! icsPath args) as [content|]; [|done].
  destruct (ParseCalendar content) as [cal|]; [|done].
  destruct (selectEvents _ cal) as [events| |]; cbn; [|done..].
  by destruct (createColumns events (name args)) as [columns| |].
Qed.

(** The output stage on standard output. *)
Lemma writeOutput_stdout (args : CliArgs) (columns : list Column) (w : World)
    (trace : list effect) :
  isStdout args = true ->
  writeOutput encodeRecord args columns w trace
  = mkRun ExitOk
      (mkWorld (files w) (readonly w)
         (stdout w +:+ serialize encodeRecord (delimiter args) columns))
      (trace ++ [EvWrite Stdout (serialize encodeRecord (delimiter args) columns);
                 EvClose (icsPath args)])
  \/ writeOutput encodeRecord args columns w trace
     = mkRun (ExitFatal ErrInvalidDelim) w trace.
Proof.
  intros Hs. unfold writeOutput, writeRows. rewrite Hs. cbn.
  destruct (writeCsv_cases encodeRecord (delimiter args) columns) as [-> | ->];
    [left|right]; done.
Qed.

(** The output stage on a file. *)
Lemma writeOutput_file (args : CliArgs) (columns : list Column) (w : World)
    (trace : list effect) :
  isStdout args = false ->
  (outPath args ∈ readonly w
   /\ writeOutput encodeRecord args columns w trace
      = mkRun (ExitFatal (PathError "open" (outPath args))) w
          (trace ++ [EvCreate (outPath args)]))
  \/ ((outPath args ∉ readonly w)
      /\ (writeOutput encodeRecord args columns w trace
          = mkRun ExitOk
              (mkWorld
                 (<[outPath args := serialize encodeRecord (delimiter args) columns]>
                    (files w))
                 (readonly w) (stdout w))
              ((trace ++ [EvCreate (outPath args)])
               ++ [EvWrite (File (outPath args))
                     (serialize encodeRecord (delimiter args) columns);
                   EvClose (outPath args); EvClose (icsPath args)])
          \/ writeOutput encodeRecord args columns w trace
             = mkRun (ExitFatal ErrInvalidDelim)
                 (mkWorld (<[outPath args := ""]> (files w)) (readonly w) (stdout w))
                 (trace ++ [EvCreate (outPath args)]))).
Proof.
  intros Hs. unfold writeOutput, writeRows, os_Create. rewrite Hs.
  destruct (decide (outPath args ∈ readonly w)) as [Hro|Hro]; [left; done|right].
  split; [done|]. cbn.
  destruct (writeCsv_cases encodeRecord (delimiter args) columns) as [-> | ->];
    [left|right]; [|done].
  cbn. rewrite lookup_insert_eq. cbn. rewrite append_nil_l.
  by rewrite insert_insert_eq.
Qed.
End Runs.

(** ** The sort of the library returns *)

Section Returns.
Context {A : Type}.
Variable less : A -> A -> bool.

Lemma scan_up_bounds (n : nat) (p : Z -> bool) (i j : Z) :
  i <= sort.scan_up n p i j <= Z.max i (j + 1).
Proof.
  revert i. induction n as [|n IH]; intros i; cbn; [lia|].
  destruct ((i <=? j) && p i) eqn:E; [|lia].
  apply andb_true_iff in E as [E _]. apply Z.leb_le in E.
  specialize (IH (i + 1)). lia.
Qed.

Lemma scan_down_bounds (n : nat) (p : Z -> bool) (i j : Z) :
  Z.min j (i - 1) <= sort.scan_down n p i j <= j.
Proof.
  revert j. induction n as [|n IH]; intros j; cbn; [lia|].
  destruct ((i <=? j) && p j) eqn:E; [|lia].
  apply andb_true_iff in E as [E _]. apply Z.leb_le in E.
  specialize (IH (j - 1)). lia.
Qed.

Lemma partition_loop_bounds (n : nat) (data : list A) (a i j lo hi : Z) :
  lo + 1 <= i -> lo <= j <= hi ->
  lo <= snd (sort.partition_loop less n data a i j) <= hi.
Proof.
  revert data i j. induction n as [|n IH]; intros data i j Hi Hj; cbn; [done|].
  set (i' := sort.scan_up _ _ i j).
  set (j' := sort.scan_down _ _ i' j).
  pose proof (scan_up_bounds (sort.span i j)
                (fun i => sort.Less less data i a) i j) as Hi'.
  pose proof (scan_down_bounds (sort.span i' j)
                (fun j => negb (sort.Less less data j a)) i' j) as Hj'.
  fold i' in Hi'. fold j' in Hj'.
  destruct (j' <? i') eqn:E; cbn; [lia|].
  apply Z.ltb_ge in E. apply IH; lia.
Qed.

(** The new place of the pivot is inside the slice. *)
Lemma partition_func_bounds (data : list A) (a b pivot : Z) :
  a < b ->
  a <= snd (fst (sort.partition_func less data a b pivot)) <= b - 1.
Proof.
  intros Hab. unfold sort.partition_func.
  set (data' := sort.Swap data a pivot).
  set (i' := sort.scan_up _ _ (a + 1) (b - 1)).
  set (j' := sort.scan_down _ _ i' (b - 1)).
  pose proof (scan_up_bounds (sort.span (a + 1) (b - 1))
                (fun i => sort.Less less data' i a) (a + 1) (b - 1)) as Hi'.
  pose proof (scan_down_bounds (sort.span i' (b - 1))
                (fun j => negb (sort.Less less data' j a)) i' (b - 1)) as Hj'.
  fold i' in Hi'. fold j' in Hj'.
  destruct (j' <? i') eqn:E; cbn; [lia|].
  apply Z.ltb_ge in E.
  pose proof (partition_loop_bounds (sort.span i' j') (sort.Swap data' i' j') a
                (i' + 1) (j' - 1) a (b - 1)) as Hloop.
  destruct (sort.partition_loop _ _ _ _ _ _) as [data'' j'']. cbn in *. lia.
Qed.

Lemma partitionEqual_loop_bounds (n : nat) (data : list A) (a i j : Z) :
  i <= snd (sort.partitionEqual_loop less n data a i j).
Proof.
  revert data i j. induction n as [|n IH]; intros data i j; cbn; [done|].
  set (i' := sort.scan_up _ _ i j).
  pose proof (scan_up_bounds (sort.span i j)
                (fun i => negb (sort.Less less data a i)) i j) as Hi'.
  fold i' in Hi'.
  destruct (_ <? i'); cbn; [lia|].
  etrans; [|apply IH]. lia.
Qed.

Lemma partitionEqual_func_bounds (data : list A) (a b pivot : Z) :
  a + 1 <= snd (sort.partitionEqual_func less data a b pivot).
Proof. apply partitionEqual_loop_bounds. Qed.

(** Every call is on a shorter part of the slice, so fuel beyond the
    length is enough. *)
Lemma pdqsort_loop_returns (fuel : nat) (data : list A) (a b limit : Z)
    (wasBalanced wasPartitioned : bool) :
  (Z.to_nat (b - a) < fuel)%nat ->
  is_Some (sort.pdqsort_loop less fuel data a b limit wasBalanced wasPartitioned).
Proof.
  revert data a b limit wasBalanced wasPartitioned.
  induction fuel as [|fuel IH]; intros data a b limit wb wp Hfuel; [lia|].
  cbn [sort.pdqsort_loop].
  destruct (b - a <=? 12) eqn:Hlen; [done|]. apply Z.leb_gt in Hlen.
  destruct (limit =? 0); [done|].
  destruct (if negb wb then _ else _) as [data1 limit1].
  destruct (sort.choosePivot_func less data1 a b) as [pivot hint].
  destruct (match hint with sort.decreasingHint => _ | _ => _ end)
    as [[data2 pivot2] hint2].
  destruct (match hint2 with sort.increasingHint => _ | _ => _ end)
    as [data3 sorted].
  destruct sorted; [done|].
  destruct ((0 <? a) && _).
  - pose proof (partitionEqual_func_bounds data3 a b pivot2) as Hmid.
    destruct (sort.partitionEqual_func less data3 a b pivot2) as [data4 mid].
    cbn [snd] in Hmid. apply IH. lia.
  - pose proof (partition_func_bounds data3 a b pivot2 ltac:(lia)) as Hmid.
    destruct (sort.partition_func less data3 a b pivot2) as [[data4 mid] already].
    cbn [fst snd] in Hmid.
    destruct (mid - a <? b - mid).
    + destruct (IH data4 a mid limit1 true true ltac:(lia)) as [data5 ->]. cbn.
      apply IH. lia.
    + destruct (IH data4 (mid + 1) b limit1 true true ltac:(lia)) as [data5 ->].
      cbn. apply IH. lia.
Qed.

End Returns.

(** [sort.Slice] is the result of [pdqsort_func]. *)
Lemma Slice_returns {A : Type} (less : A -> A -> bool) (x : list A) :
  sort.pdqsort_func less (S (List.length x)) x 0 (Z.of_nat (List.length x))
    (sort.bits_Len (Z.of_nat (List.length x)))
  = Some (sort.Slice A less x).
Proof.
  unfold sort.Slice, sort.pdqsort_func.
  destruct (pdqsort_loop_returns less (S (List.length x)) x 0
              (Z.of_nat (List.length x))
              (sort.bits_Len (Z.of_nat (List.length x))) true true ltac:(lia))
    as [data ->].
  done.
Qed.

(** ** The sort of the library rearranges *)

Section Rearranges.
Context {A : Type}.
Variable less : A -> A -> bool.

Lemma insert_at_length (l1 : list A) (x y : A) (l2 : list A) :
  <[List.length l1 := y]> (l1 ++ x :: l2) = l1 ++ y :: l2.
Proof. induction l1 as [|z l1 IH]; [done|]. cbn. f_equal. exact IH. Qed.

(** What [Swap] does to a slice cut at its two indexes. *)
Lemma Swap_split (l1 : list A) (x : A) (l2 : list A) (y : A) (l3 : list A)
    (i j : Z) :
  Z.to_nat i = List.length l1 ->
  Z.to_nat j = List.length (l1 ++ x :: l2) ->
  sort.Swap (l1 ++ x :: l2 ++ y :: l3) i j = l1 ++ y :: l2 ++ x :: l3
  /\ sort.Swap (l1 ++ x :: l2 ++ y :: l3) j i = l1 ++ y :: l2 ++ x :: l3.
Proof.
  intros Hi Hj. unfold sort.Swap. rewrite Hi, Hj.
  assert ((l1 ++ x :: l2 ++ y :: l3) !! List.length l1 = Some x) as ->
    by (by rewrite list_lookup_middle).
  assert ((l1 ++ x :: l2 ++ y :: l3) !! List.length (l1 ++ x :: l2) = Some y)
    as -> by (change (l1 ++ x :: l2 ++ y :: l3) with (l1 ++ (x :: l2) ++ y :: l3);
              rewrite (app_assoc l1 (x :: l2) (y :: l3));
              by rewrite list_lookup_middle).
  split.
  - rewrite insert_at_length.
    change (l1 ++ y :: l2 ++ y :: l3) with (l1 ++ (y :: l2) ++ y :: l3).
    rewrite (app_assoc l1 (y :: l2) (y :: l3)).
    replace (List.length (l1 ++ x :: l2)) with (List.length (l1 ++ y :: l2))
      by (by rewrite !length_app).
    rewrite insert_at_length. by rewrite <- app_assoc.
  - change (l1 ++ x :: l2 ++ y :: l3) with (l1 ++ (x :: l2) ++ y :: l3).
    rewrite (app_assoc l1 (x :: l2) (y :: l3)), insert_at_length.
    rewrite <- app_assoc. cbn. by rewrite insert_at_length.
Qed.

Lemma lookup_split (l : list A) (i j : nat) (x y : A) :
  (i < j)%nat -> l !! i = Some x -> l !! j = Some y ->
  exists l1 l2 l3,
    l = l1 ++ x :: l2 ++ y :: l3
    /\ List.length l1 = i /\ List.length (l1 ++ x :: l2) = j.
Proof.
  intros Hlt Hi Hj.
  pose proof (lookup_lt_Some _ _ _ Hi) as Hli.
  pose proof (lookup_lt_Some _ _ _ Hj) as Hlj.
  assert (drop (S i) l !! (j - S i)%nat = Some y) as Hj'
    by (rewrite lookup_drop; rewrite <- Hj; f_equal; lia).
  exists (take i l), (take (j - S i) (drop (S i) l)),
    (drop (S (j - S i)) (drop (S i) l)).
  split; [|split].
  - rewrite (take_drop_middle _ _ _ Hj'). by rewrite (take_drop_middle _ _ _ Hi).
  - rewrite length_take. lia.
  - rewrite length_app. cbn. rewrite !length_take, length_drop. lia.
Qed.

Lemma Swap_Permutation (data : list A) (i j : Z) :
  sort.Swap data i j ≡ₚ data.
Proof.
  destruct (data !! Z.to_nat i) as [x|] eqn:Hi;
    [|unfold sort.Swap; by rewrite Hi].
  destruct (data !! Z.to_nat j) as [y|] eqn:Hj;
    [|unfold sort.Swap; by rewrite Hi, Hj].
  destruct (lt_eq_lt_dec (Z.to_nat i) (Z.to_nat j)) as [[Hlt|Heq]|Hgt].
  - destruct (lookup_split data _ _ x y Hlt Hi Hj) as (l1 & l2 & l3 & -> & H1 & H2).
    rewrite (proj1 (Swap_split l1 x l2 y l3 i j (eq_sym H1) (eq_sym H2))).
    apply Permutation_app_head. rewrite <- !Permutation_middle. apply perm_swap.
  - unfold sort.Swap. rewrite Hi, Hj. rewrite Heq in *. simplify_eq.
    rewrite list_insert_id; by rewrite list_insert_id.
  - destruct (lookup_split data _ _ y x Hgt Hj Hi) as (l1 & l2 & l3 & -> & H1 & H2).
    rewrite (proj2 (Swap_split l1 y l2 x l3 j i (eq_sym H1) (eq_sym H2))).
    apply Permutation_app_head. rewrite <- !Permutation_middle. apply perm_swap.
Qed.

Lemma sink_left_Permutation (n : nat) (data : list A) (a j : Z) :
  sort.sink_left less n data a j ≡ₚ data.
Proof.
  revert data j. induction n as [|n IH]; intros data j; cbn; [done|].
  destruct (_ && _); [|done]. by rewrite IH, Swap_Permutation.
Qed.

Lemma insertion_from_Permutation (n : nat) (data : list A) (a b i : Z) :
  sort.insertion_from less n data a b i ≡ₚ data.
Proof.
  revert data i. induction n as [|n IH]; intros data i; cbn; [done|].
  destruct (i <? b); [|done]. by rewrite IH, sink_left_Permutation.
Qed.

Lemma insertionSort_func_Permutation (data : list A) (a b : Z) :
  sort.insertionSort_func less data a b ≡ₚ data.
Proof. apply insertion_from_Permutation. Qed.

Lemma siftDown_from_Permutation (n : nat) (data : list A) (root hi first : Z) :
  sort.siftDown_from less n data root hi first ≡ₚ data.
Proof.
  revert data root. induction n as [|n IH]; intros data root; cbn; [done|].
  destruct (hi <=? 2 * root + 1); [done|].
  destruct (negb _); [done|]. by rewrite IH, Swap_Permutation.
Qed.

Lemma heapify_Permutation (n : nat) (data : list A) (i hi first : Z) :
  sort.heapify less n data i hi first ≡ₚ data.
Proof.
  revert data i. induction n as [|n IH]; intros data i; cbn; [done|].
  destruct (0 <=? i); [|done].
  rewrite IH. apply siftDown_from_Permutation.
Qed.

Lemma pop_all_Permutation (n : nat) (data : list A) (i lo first : Z) :
  sort.pop_all less n data i lo first ≡ₚ data.
Proof.
  revert data i. induction n as [|n IH]; intros data i; cbn; [done|].
  destruct (0 <=? i); [|done].
  rewrite IH. unfold sort.siftDown_func.
  by rewrite siftDown_from_Permutation, Swap_Permutation.
Qed.

Lemma heapSort_func_Permutation (data : list A) (a b : Z) :
  sort.heapSort_func less data a b ≡ₚ data.
Proof.
  unfold sort.heapSort_func. by rewrite pop_all_Permutation, heapify_Permutation.
Qed.

Lemma partition_loop_Permutation (n : nat) (data : list A) (a i j : Z) :
  fst (sort.partition_loop less n data a i j) ≡ₚ data.
Proof.
  revert data i j. induction n as [|n IH]; intros data i j; cbn; [done|].
  destruct (_ <? _); [done|]. by rewrite IH, Swap_Permutation.
Qed.

Lemma partition_func_Permutation (data : list A) (a b pivot : Z) :
  fst (fst (sort.partition_func less data a b pivot)) ≡ₚ data.
Proof.
  unfold sort.partition_func.
  destruct (_ <? _); cbn; [by rewrite !Swap_Permutation|].
  match goal with
  | |- context [sort.partition_loop less ?n ?d ?a ?i ?j] =>
      pose proof (partition_loop_Permutation n d a i j) as H;
      destruct (sort.partition_loop less n d a i j) as [data' j']
  end.
  cbn in *. by rewrite Swap_Permutation, H, !Swap_Permutation.
Qed.

Lemma partitionEqual_loop_Permutation (n : nat) (data : list A) (a i j : Z) :
  fst (sort.partitionEqual_loop less n data a i j) ≡ₚ data.
Proof.
  revert data i j. induction n as [|n IH]; intros data i j; cbn; [done|].
  destruct (_ <? _); [done|]. by rewrite IH, Swap_Permutation.
Qed.

Lemma partitionEqual_func_Permutation (data : list A) (a b pivot : Z) :
  fst (sort.partitionEqual_func less data a b pivot) ≡ₚ data.
Proof.
  unfold sort.partitionEqual_func.
  by rewrite partitionEqual_loop_Permutation, Swap_Permutation.
Qed.

Lemma shift_left_Permutation (n : nat) (data : list A) (j : Z) :
  sort.shift_left less n data j ≡ₚ data.
Proof.
  revert data j. induction n as [|n IH]; intros data j; cbn; [done|].
  destruct (_ && _); [|done]. by rewrite IH, Swap_Permutation.
Qed.

Lemma shift_right_Permutation (n : nat) (data : list A) (j b : Z) :
  sort.shift_right less n data j b ≡ₚ data.
Proof.
  revert data j. induction n as [|n IH]; intros data j; cbn; [done|].
  destruct (_ && _); [|done]. by rewrite IH, Swap_Permutation.
Qed.

Lemma partialInsertion_steps_Permutation (n : nat) (data : list A) (a b i : Z) :
  fst (sort.partialInsertion_steps less n data a b i) ≡ₚ data.
Proof.
  revert data i. induction n as [|n IH]; intros data i; cbn; [done|].
  destruct (_ =? b); [done|]. destruct (b - a <? 50); [done|].
  rewrite IH.
  destruct (2 <=? b - _), (2 <=? _ - a);
    by rewrite ?shift_right_Permutation, ?shift_left_Permutation, Swap_Permutation.
Qed.

Lemma reverse_from_Permutation (n : nat) (data : list A) (i j : Z) :
  sort.reverse_from n data i j ≡ₚ data.
Proof.
  revert data i j. induction n as [|n IH]; intros data i j; cbn; [done|].
  destruct (i <? j); [|done]. by rewrite IH, Swap_Permutation.
Qed.

Lemma breakPatterns_from_Permutation (n : nat) (data : list A)
    (a length idx i random modulus : Z) :
  sort.breakPatterns_from n data a length idx i random modulus ≡ₚ data.
Proof.
  revert data i random. induction n as [|n IH]; intros data i random; cbn; [done|].
  by rewrite IH, Swap_Permutation.
Qed.

Lemma breakPatterns_func_Permutation (data : list A) (a b : Z) :
  sort.breakPatterns_func data a b ≡ₚ data.
Proof.
  unfold sort.breakPatterns_func. destruct (8 <=? b - a); [|done].
  apply breakPatterns_from_Permutation.
Qed.

Lemma pdqsort_loop_Permutation (fuel : nat) (data : list A) (a b limit : Z)
    (wasBalanced wasPartitioned : bool) (sorted : list A) :
  sort.pdqsort_loop less fuel data a b limit wasBalanced wasPartitioned
  = Some sorted ->
  sorted ≡ₚ data.
Proof.
  revert data a b limit wasBalanced wasPartitioned sorted.
  induction fuel as [|fuel IH]; intros data a b limit wb wp sorted; [done|].
  cbn [sort.pdqsort_loop].
  destruct (b - a <=? 12);
    [intros [= <-]; apply insertionSort_func_Permutation|].
  destruct (limit =? 0); [intros [= <-]; apply heapSort_func_Permutation|].
  assert (fst (if negb wb
               then (sort.breakPatterns_func data a b, limit - 1)
               else (data, limit)) ≡ₚ data) as H1
    by (destruct wb; cbn [negb fst]; [done|apply breakPatterns_func_Permutation]).
  destruct (if negb wb then _ else _) as [data1 limit1]. cbn [fst] in H1.
  destruct (sort.choosePivot_func less data1 a b) as [pivot hint].
  assert (fst (fst (match hint with
                    | sort.decreasingHint =>
                        (sort.reverseRange_func data1 a b, b - 1 - (pivot - a),
                         sort.increasingHint)
                    | _ => (data1, pivot, hint)
                    end)) ≡ₚ data1) as H2
    by (destruct hint; cbn [fst]; try done; apply reverse_from_Permutation).
  destruct (match hint with sort.decreasingHint => _ | _ => _ end)
    as [[data2 pivot2] hint2]. cbn [fst] in H2.
  assert (fst (match hint2 with
               | sort.increasingHint =>
                   if wb && wp then sort.partialInsertionSort_func less data2 a b
                   else (data2, false)
               | _ => (data2, false)
               end) ≡ₚ data2) as H3.
  { destruct hint2; cbn [fst]; try done. destruct (wb && wp); cbn [fst]; [|done].
    apply partialInsertion_steps_Permutation. }
  destruct (match hint2 with sort.increasingHint => _ | _ => _ end)
    as [data3 done3]. cbn [fst] in H3.
  destruct done3; [intros [= <-]; by rewrite H3, H2|].
  destruct ((0 <? a) && _).
  - pose proof (partitionEqual_func_Permutation data3 a b pivot2) as H4.
    destruct (sort.partitionEqual_func less data3 a b pivot2) as [data4 mid].
    cbn [fst] in H4. intros Hrec. apply IH in Hrec. by rewrite Hrec, H4, H3, H2.
  - pose proof (partition_func_Permutation data3 a b pivot2) as H4.
    destruct (sort.partition_func less data3 a b pivot2) as [[data4 mid] already].
    cbn [fst] in H4.
    destruct (mid - a <? b - mid).
    + destruct (sort.pdqsort_loop less fuel data4 a mid limit1 true true)
        as [data5|] eqn:E5; cbn; [|done].
      intros Hrec. apply IH in Hrec. apply IH in E5.
      by rewrite Hrec, E5, H4, H3, H2.
    + destruct (sort.pdqsort_loop less fuel data4 (mid + 1) b limit1 true true)
        as [data5|] eqn:E5; cbn; [|done].
      intros Hrec. apply IH in Hrec. apply IH in E5.
      by rewrite Hrec, E5, H4, H3, H2.
Qed.

End Rearranges.

Lemma Slice_Permutation_library {A : Type} (less : A -> A -> bool) (x : list A) :
  sort.Slice A less x ≡ₚ x.
Proof.
  pose proof (Slice_returns less x) as H.
  by apply pdqsort_loop_Permutation in H.
Qed.

(** ** Short slices: insertion sort *)

Section Short.
Context {A : Type}.
Variable less : A -> A -> bool.

Lemma length_insert_left (x : A) (before : list A) :
  List.length (sort.insert_left less x before) = S (List.length before).
Proof.
  induction before as [|y before IH]; cbn; [done|].
  destruct (less x y); cbn; by rewrite ?IH.
Qed.

(** The inner loop of [insertionSort_func] moves the element at [j] as
    [insert_left] does. *)
Lemma sink_left_insert_left (pre post : list A) (x : A) (n : nat) (j : Z) :
  j = Z.of_nat (List.length pre) ->
  (List.length pre <= n)%nat ->
  sort.sink_left less n (pre ++ x :: post) 0 j
  = rev (sort.insert_left less x (rev pre)) ++ post.
Proof.
  revert post n j. induction pre as [|y pre IH] using rev_ind;
    intros post n j Hj Hn.
  - subst j. destruct n; cbn; done.
  - rewrite length_app in Hj, Hn. cbn in Hj, Hn.
    destruct n as [|n]; [lia|]. cbn [sort.sink_left].
    assert ((0 <? j) = true) as -> by (apply Z.ltb_lt; lia).
    rewrite rev_app_distr. cbn [rev app sort.insert_left].
    assert (sort.Less less ((pre ++ [y]) ++ x :: post) j (j - 1) = less x y) as ->.
    { unfold sort.Less.
      rewrite (list_lookup_middle (pre ++ [y]) post x (Z.to_nat j))
        by (rewrite length_app; cbn; lia).
      rewrite <- app_assoc. cbn.
      rewrite (list_lookup_middle pre (x :: post) y (Z.to_nat (j - 1))) by lia.
      done. }
    cbn [andb]. destruct (less x y).
    + rewrite <- app_assoc. cbn [app].
      pose proof (proj2 (Swap_split pre y [] x post (j - 1) j ltac:(lia)
                           ltac:(rewrite length_app; cbn; lia))) as Hswap.
      cbn [app] in Hswap. rewrite Hswap.
      rewrite (IH (y :: post) n (j - 1)) by lia.
      cbn [rev]. by rewrite <- app_assoc.
    + cbn [rev]. rewrite rev_involutive. by rewrite <- !app_assoc.
Qed.

Lemma insertion_from_fold (acc rest : list A) (n : nat) (b i : Z) :
  i = Z.of_nat (List.length acc) ->
  b = Z.of_nat (List.length acc + List.length rest) ->
  (List.length rest <= n)%nat ->
  sort.insertion_from less n (rev acc ++ rest) 0 b i
  = rev (fold_left (fun before x => sort.insert_left less x before) rest acc).
Proof.
  revert acc n i. induction rest as [|x rest IH]; intros acc n i Hi Hb Hn.
  - cbn [List.length] in Hb. rewrite app_nil_r. destruct n; cbn; [done|].
    assert ((i <? b) = false) as -> by (apply Z.ltb_ge; lia). done.
  - cbn [List.length] in Hb, Hn. destruct n as [|n]; [lia|].
    cbn [sort.insertion_from fold_left].
    assert ((i <? b) = true) as -> by (apply Z.ltb_lt; lia).
    rewrite (sink_left_insert_left (rev acc) rest x (Z.to_nat (i - 0)) i)
      by (rewrite length_rev; lia).
    rewrite rev_involutive.
    apply IH; rewrite ?length_insert_left; lia.
Qed.

(** On a whole slice [insertionSort_func] is insertion sort on lists. *)
Lemma insertionSort_func_insertionSort (data : list A) :
  sort.insertionSort_func less data 0 (Z.of_nat (List.length data))
  = sort.insertionSort less data.
Proof.
  unfold sort.insertionSort_func, sort.insertionSort.
  destruct data as [|x rest]; [done|].
  cbn [fold_left sort.insert_left].
  apply (insertion_from_fold [x] rest); cbn [List.length]; lia.
Qed.

(** Up to twelve elements, [sort.Slice] is insertion sort. *)
Lemma Slice_short (x : list A) :
  (List.length x <= 12)%nat -> sort.Slice A less x = sort.insertionSort less x.
Proof.
  intros Hlen. unfold sort.Slice, sort.pdqsort_func. cbn [sort.pdqsort_loop].
  assert ((Z.of_nat (List.length x) - 0 <=? 12) = true) as ->
    by (apply Z.leb_le; lia).
  cbn [default]. apply insertionSort_func_insertionSort.
Qed.

(** Insertion sort keeps the order of the elements of a class [P] within
    which no element is less than another. *)
Lemma insert_left_filter (P : A -> bool) (x : A) (before : list A) :
  (forall u v, P u = true -> P v = true -> less u v = false) ->
  List.filter P (rev (sort.insert_left less x before))
  = List.filter P (rev before) ++ List.filter P [x].
Proof.
  intros HP. induction before as [|y before IH]; [done|].
  cbn [sort.insert_left]. destruct (less x y) eqn:E; cbn [rev].
  - rewrite !List.filter_app, IH, <- !app_assoc. f_equal. cbn.
    destruct (P x) eqn:Px, (P y) eqn:Py; try done.
    rewrite (HP x y Px Py) in E. done.
  - by rewrite List.filter_app.
Qed.

Lemma fold_insert_left_filter (P : A -> bool) (l acc : list A) :
  (forall u v, P u = true -> P v = true -> less u v = false) ->
  List.filter P (rev (fold_left (fun before x => sort.insert_left less x before)
                        l acc))
  = List.filter P (rev acc) ++ List.filter P l.
Proof.
  intros HP. revert acc. induction l as [|x l IH]; intros acc; cbn [fold_left].
  - by rewrite app_nil_r.
  - rewrite IH, insert_left_filter by done. rewrite <- app_assoc. f_equal.
    cbn. by destruct (P x).
Qed.

Lemma insertionSort_filter (P : A -> bool) (l : list A) :
  (forall u v, P u = true -> P v = true -> less u v = false) ->
  List.filter P (sort.insertionSort less l) = List.filter P l.
Proof. intros HP. unfold sort.insertionSort. by rewrite fold_insert_left_filter. Qed.

End Short.

Lemma same_key_not_less (k u v : Column) :
  same_key k u = true -> same_key k v = true -> less u v = false.
Proof.
  unfold same_key, less. rewrite !andb_true_iff, !String.eqb_eq.
  intros [-> ->] [-> ->]. unfold String.ltb.
  rewrite !string_compare_refl. by rewrite andb_false_r.
Qed.

(** * The properties of the converter *)

(** ** Facts shared by the statements below *)

Lemma StronglySorted_weaken {A : Type} (R S : A -> A -> Prop) (l : list A) :
  (forall x y, R x y -> S x y) -> StronglySorted R l -> StronglySorted S l.
Proof.
  intros HRS. induction 1 as [|x l Hl IH Hx]; constructor; [done|].
  clear Hl IH. induction Hx as [|y l Hy Hx IH]; constructor; [by apply HRS|done].
Qed.

Lemma summaries_dec (events : list ics.VEvent) :
  Forall has_summary events
  \/ Exists (fun event => ics.GetProperty event "SUMMARY" = None) events.
Proof.
  induction events as [|event rest [IH|IH]].
  - left. constructor.
  - destruct (ics.GetProperty event "SUMMARY") as [p|] eqn:E.
    + left. constructor; [|done]. unfold has_summary. rewrite E. by eexists.
    + right. by constructor.
  - right. by constructor 2.
Qed.

Lemma selected_nil_filter (events : list ics.VEvent) :
  selected "" events = events.
Proof. done. Qed.

Lemma selected_filter (filter : string) (events : list ics.VEvent) :
  filter <> "" -> selected filter events = List.filter (summary_is filter) events.
Proof.
  intros Hne. unfold selected.
  by destruct (String.eqb_spec filter "").
Qed.




(** The output stage in two worlds that agree on whether the output path
    can be created. *)
Lemma writeOutput_two_worlds (encodeRecord : Z -> list string -> string)
    (args : CliArgs) (columns : list Column) (w1 w2 : World)
    (trace : list effect) :
  (outPath args ∈ readonly w1 <-> outPath args ∈ readonly w2) ->
  run_exit (writeOutput encodeRecord args columns w1 trace)
  = run_exit (writeOutput encodeRecord args columns w2 trace)
  /\ run_trace (writeOutput encodeRecord args columns w1 trace)
     = run_trace (writeOutput encodeRecord args columns w2 trace)
  /\ (isStdout args = false ->
      run_exit (writeOutput encodeRecord args columns w1 trace) = ExitOk ->
      files (run_world (writeOutput encodeRecord args columns w1 trace))
        !! outPath args
      = files (run_world (writeOutput encodeRecord args columns w2 trace))
          !! outPath args).
Proof.
  intros Hro. destruct (isStdout args) eqn:Hs.
  - destruct (writeOutput_stdout encodeRecord args columns w1 trace Hs) as [E1|E1],
      (writeOutput_stdout encodeRecord args columns w2 trace Hs) as [E2|E2];
      rewrite E1, E2; cbn; try done.
    + exfalso. unfold writeOutput, writeRows in E1, E2. rewrite Hs in E1, E2.
      destruct (writeCsv _ _ columns); cbn in *; congruence.
    + exfalso. unfold writeOutput, writeRows in E1, E2. rewrite Hs in E1, E2.
      destruct (writeCsv _ _ columns); cbn in *; congruence.
  - destruct (writeOutput_file encodeRecord args columns w1 trace Hs)
      as [[R1 E1]|[R1 [E1|E1]]],
      (writeOutput_file encodeRecord args columns w2 trace Hs)
      as [[R2 E2]|[R2 [E2|E2]]];
      try (exfalso; tauto); rewrite E1, E2; cbn; try done.
    + split; [done|]. split; [done|]. intros _ _.
      by rewrite !lookup_insert_eq.
    + exfalso. unfold writeOutput, writeRows, os_Create in E1, E2.
      rewrite Hs in E1, E2.
      destruct (decide _); [done|]. destruct (decide _); [done|].
      destruct (writeCsv _ _ columns); cbn in *; congruence.
    + exfalso. unfold writeOutput, writeRows, os_Create in E1, E2.
      rewrite Hs in E1, E2.
      destruct (decide _); [done|]. destruct (decide _); [done|].
      destruct (writeCsv _ _ columns); cbn in *; congruence.
Qed.

(** ** The sort step *)




(** ** The event selector *)

(** C2, as amended: for every list of calendar events that all carry a
    SUMMARY property and every filter string, the selector returns the
    events whose summary equals the filter, in input order, when the filter
    is not empty, and all events unchanged when it is empty. *)
Theorem selectEvents_selected (filter : string) (cal : ics.Calendar) :
  Forall has_summary (ics.Events cal) ->
  (filter = "" -> selectEvents filter cal = Done (ics.Events cal))
  /\ (filter <> "" ->
      selectEvents filter cal
      = Done (List.filter (summary_is filter) (ics.Events cal))).
Proof.
  intros Hall. unfold selectEvents.
  rewrite filterEvents_with_summaries by done. cbn [app].
  split.
  - intros ->. by rewrite selected_nil_filter.
  - intros Hne. by rewrite selected_filter.
Qed.

Lemma selectEvents_selected_witness :
  Forall has_summary (ics.Events sample_calendar)
  /\ ("Lunch" = "" -> selectEvents "Lunch" sample_calendar
                      = Done (ics.Events sample_calendar))
  /\ ("Lunch" <> "" ->
      selectEvents "Lunch" sample_calendar
      = Done (List.filter (summary_is "Lunch") (ics.Events sample_calendar))).
Proof.
  assert (Forall has_summary (ics.Events sample_calendar)) as Hall
    by (repeat constructor; by eexists).
  split; [exact Hall|].
  exact (selectEvents_selected "Lunch" sample_calendar Hall).
Defined.

(** C2 as stated fails: an event without SUMMARY makes the selector panic,
    with the empty filter and with any other. *)
Lemma selectEvents_untitled :
  selectEvents "" (ics.mkCalendar [lunch; untitled]) = Panicked
  /\ selectEvents "Lunch" (ics.mkCalendar [lunch; untitled]) = Panicked.
Proof. by split. Qed.

(** ** Rows that cannot be built *)




(** ** The time parser *)

(** C4, as amended: for every input string, the time parser succeeds
    exactly when the string is the text YYYYMMDDThhmmss of a date and time
    of day that exist, followed or not by a fractional second (a period or
    comma and digits); it then returns the fields as written, with the
    fraction as nanoseconds, and otherwise it returns a parse error that
    carries the string. *)
Theorem parseTime_accepts (s : string) :
  (forall t,
      parseTime s = Done t
      <-> valid_civil t
          /\ exists frac, fraction frac (time.nsec t) /\ s = compact t +:+ frac)
  /\ ((exists t, parseTime s = Done t)
      \/ parseTime s = Failed (ParseError "20060102T150405" s)).
Proof.
  split; [|apply parseTime_total].
  intros t. split.
  - apply Parse_Done_inv.
  - intros (Hvalid & frac & Hfrac & ->). by apply Parse_compact.
Qed.

(** C4 as stated fails: a string with a fractional second does not match
    the pattern, and the parser accepts it. *)
Lemma parseTime_fraction :
  parseTime "20240101T090000.5" = Done (time.mkTime 2024 1 1 9 0 0 500000000)
  /\ ~ matches_pattern "20240101T090000.5".
Proof.
  split; [by vm_compute|].
  intros (t & Hvalid & _ & Heq).
  pose proof (compact_length t Hvalid) as Hlen.
  rewrite <- Heq in Hlen. by vm_compute in Hlen.
Qed.

(** ** The duration formatter *)




(** ** The sort key and the order of time *)

(** C6: for every two timestamps that the time parser returns, the order of
    their keys, the formatted date and then the formatted start time
    compared lexicographically, agrees with their order in time: the key of
    one is before the key of the other exactly when its minute is earlier,
    so a key that is before belongs to the earlier timestamp, and an earlier
    timestamp never has the later key. *)
Theorem key_before_chronological (s1 s2 : string) (t1 t2 : time.Time) :
  parseTime s1 = Done t1 ->
  parseTime s2 = Done t2 ->
  (key_before t1 t2 = true <-> minute_of t1 < minute_of t2)
  /\ (key_before t1 t2 = true -> time.Before t1 t2 = true)
  /\ (time.Before t1 t2 = true -> key_before t2 t1 = false).
Proof.
  intros H1 H2.
  destruct (Parse_Done_inv _ _ H1) as [V1 _].
  destruct (Parse_Done_inv _ _ H2) as [V2 _].
  pose proof (parseTime_nsec _ _ H1) as N1.
  pose proof (parseTime_nsec _ _ H2) as N2.
  destruct (minute_of_Before t1 t2 N1 N2) as [Hlt Hle].
  rewrite !key_before_minute by done.
  rewrite Z.ltb_lt, Z.ltb_ge. by repeat split.
Qed.

Lemma key_before_chronological_witness :
  parseTime "20240101T090000" = Done (time.mkTime 2024 1 1 9 0 0 0)
  /\ parseTime "20240101T120000" = Done (time.mkTime 2024 1 1 12 0 0 0)
  /\ (key_before (time.mkTime 2024 1 1 9 0 0 0) (time.mkTime 2024 1 1 12 0 0 0)
      = true
      -> time.Before (time.mkTime 2024 1 1 9 0 0 0)
           (time.mkTime 2024 1 1 12 0 0 0) = true).
Proof.
  split; [reflexivity|]. split; [reflexivity|].
  exact (proj1 (proj2
    (key_before_chronological "20240101T090000" "20240101T120000"
       (time.mkTime 2024 1 1 9 0 0 0) (time.mkTime 2024 1 1 12 0 0 0)
       eq_refl eq_refl))).
Defined.

(** ** Standard output *)



(** ** Two runs *)

(** C8: for a fixed calendar and fixed arguments, two runs produce the same
    output, byte for byte: in two worlds that hold the same calendar file,
    and in which the output path can be created or cannot, the runs end
    the same way and make the same calls with the same bytes, and a run to
    a file that succeeds leaves the same content in it. *)
Theorem main_deterministic (ParseCalendar : string -> option ics.Calendar)
    (encodeRecord : Z -> list string -> string) (sorter : sort.Implementation)
    (args : CliArgs) (w1 w2 : World) :
  files w1 !! icsPath args = files w2 !! icsPath args ->
  (outPath args ∈ readonly w1 <-> outPath args ∈ readonly w2) ->
  run_exit (main ParseCalendar encodeRecord sorter args w1)
  = run_exit (main ParseCalendar encodeRecord sorter args w2)
  /\ run_trace (main ParseCalendar encodeRecord sorter args w1)
     = run_trace (main ParseCalendar encodeRecord sorter args w2)
  /\ (isStdout args = false ->
      run_exit (main ParseCalendar encodeRecord sorter args w1) = ExitOk ->
      files (run_world (main ParseCalendar encodeRecord sorter args w1))
        !! outPath args
      = files (run_world (main ParseCalendar encodeRecord sorter args w2))
          !! outPath args).
Proof.
  intros Hfile Hro. rewrite !main_rows, <- Hfile.
  destruct (files w1 !! icsPath args) as [content|]; [|done].
  destruct (rows_of ParseCalendar sorter args content) as [columns|e|];
    [|done..].
  by apply writeOutput_two_worlds.
Qed.

Lemma main_deterministic_witness :
  files sample_world !! icsPath sample_args
  = files other_world !! icsPath sample_args
  /\ (outPath sample_args ∈ readonly sample_world
      <-> outPath sample_args ∈ readonly other_world)
  /\ run_trace (main sample_parser sample_encode sort.Slice sample_args
                  sample_world)
     = run_trace (main sample_parser sample_encode sort.Slice sample_args
                    other_world).
Proof.
  assert (outPath sample_args ∈ readonly sample_world
          <-> outPath sample_args ∈ readonly other_world) as Hro by done.
  split; [reflexivity|]. split; [exact Hro|].
  exact (proj1 (proj2
    (main_deterministic sample_parser sample_encode sort.Slice sample_args
       sample_world other_world eq_refl Hro))).
Defined.

(** ** The delimiter *)


(** ** Events without SUMMARY *)

(** C10: the selection step panics, on the nil property of an event,
    exactly when some event of the calendar lacks a SUMMARY property; it
    never reports an error, it returns the selected events when every
    event carries one, and the run of the program on a calendar with such
    an event ends by that panic. *)
Theorem selectEvents_panics (filter : string) (cal : ics.Calendar) :
  (selectEvents filter cal = Panicked
   <-> Exists (fun event => ics.GetProperty event "SUMMARY" = None)
         (ics.Events cal))
  /\ (forall e, selectEvents filter cal <> Failed e)
  /\ (Forall has_summary (ics.Events cal)
      <-> exists events, selectEvents filter cal = Done events)
  /\ (forall ParseCalendar encodeRecord sorter args w content,
        eventSummaryFilter args = filter ->
        files w !! icsPath args = Some content ->
        ParseCalendar content = Some cal ->
        Exists (fun event => ics.GetProperty event "SUMMARY" = None)
          (ics.Events cal) ->
        main ParseCalendar encodeRecord sorter args w
        = mkRun ExitPanic w [EvOpen (icsPath args); EvClose (icsPath args)]).
Proof.
  unfold selectEvents. split; [|split; [|split]].
  - split; [|apply filterEvents_without_summary].
    intros Hp. destruct (summaries_dec (ics.Events cal)) as [Hall|Hex]; [|done].
    by rewrite filterEvents_with_summaries in Hp.
  - intros e. apply filterEvents_never_fails.
  - split.
    + intros Hall. rewrite filterEvents_with_summaries by done. eauto.
    + intros [events Hdone].
      destruct (summaries_dec (ics.Events cal)) as [Hall|Hex]; [done|].
      by rewrite filterEvents_without_summary in Hdone.
  - intros ParseCalendar encodeRecord sorter args w content <- Hfile Hcal Hex.
    unfold main, selectEvents. rewrite Hfile, Hcal.
    by rewrite filterEvents_without_summary.
Qed.

(** * More properties of the converter *)

(** ** Facts shared by the statements below *)

(** The formatted date and time of day are the digits of the timestamp. *)
Lemma Format_copies (s : string) (t : time.Time) :
  parseTime s = Done t ->
  time.Format t time.layout_2006_01_02
  = String.substring 0 4 s +:+ "/" +:+ String.substring 4 2 s +:+ "/"
    +:+ String.substring 6 2 s
  /\ time.Format t time.layout_15_04
     = String.substring 9 2 s +:+ ":" +:+ String.substring 11 2 s.
Proof.
  intros Hparse.
  destruct (Parse_Done_inv s t Hparse) as (Hvalid & frac & _ & ->).
  rewrite Format_date_valid, Format_clock_valid, compact_valid by done.
  unfold four_digits, two_digits. rewrite !append_cons, !append_nil_l.
  by cbn [String.substring].
Qed.

(** The row of an event whose two timestamps parse. *)
Lemma NewColumn_parsed (event : ics.VEvent) (name : string)
    (p q : ics.IANAProperty) (t u : time.Time) :
  ics.GetProperty event "DTSTART" = Some p ->
  parseTime (ics.Value p) = Done t ->
  ics.GetProperty event "DTEND" = Some q ->
  parseTime (ics.Value q) = Done u ->
  NewColumn event name
  = Done (mkColumn name (time.Format t time.layout_2006_01_02)
            (time.Format t time.layout_15_04) (time.Format u time.layout_15_04)
            (formatDuration (time.Sub u t))).
Proof.
  intros Hp Ht Hq Hu. unfold NewColumn.
  rewrite Hp. cbn. rewrite Ht. cbn. rewrite Hq. cbn. by rewrite Hu.
Qed.

Lemma NewColumn_Done_inv (event : ics.VEvent) (name : string) (col : Column) :
  NewColumn event name = Done col ->
  exists p q t u,
    ics.GetProperty event "DTSTART" = Some p
    /\ parseTime (ics.Value p) = Done t
    /\ ics.GetProperty event "DTEND" = Some q
    /\ parseTime (ics.Value q) = Done u.
Proof.
  unfold NewColumn.
  destruct (ics.GetProperty event "DTSTART") as [p|]; cbn; [|done].
  destruct (parseTime (ics.Value p)) as [t| |] eqn:Ht; cbn; [|done..].
  destruct (ics.GetProperty event "DTEND") as [q|]; cbn; [|done].
  destruct (parseTime (ics.Value q)) as [u| |] eqn:Hu; cbn; [|done..].
  intros _. by exists p, q, t, u.
Qed.

Lemma buildAll_Forall2 (events : list ics.VEvent) (name : string)
    (columns : list Column) :
  buildAll events name = Done columns
  <-> Forall2 (fun event column => NewColumn event name = Done column)
        events columns.
Proof.
  revert columns. induction events as [|event rest IH]; intros columns; cbn.
  - split; [intros [= <-]; constructor|]. by intros ->%Forall2_nil_inv_l.
  - split.
    + destruct (NewColumn event name) as [column| |] eqn:E; cbn; [|done..].
      destruct (buildAll rest name) as [built| |] eqn:Eb; cbn; [|done..].
      intros [= <-]. constructor; [done|]. by apply IH.
    + intros (column & built & Hc & Hrest & ->)%Forall2_cons_inv_l.
      apply IH in Hrest. by rewrite Hc, Hrest.
Qed.

(** The rows before the first event that has none decide nothing. *)
Lemma buildAll_app_bad (good : list ics.VEvent) (bad : ics.VEvent)
    (rest : list ics.VEvent) (name : string) :
  Forall (fun event => exists column, NewColumn event name = Done column) good ->
  buildAll (good ++ bad :: rest) name
  = match NewColumn bad name with
    | Done column =>
        built ← buildAll (good ++ bad :: rest) name; Done built
    | Failed e => Failed e
    | Panicked => Panicked
    end.
Proof.
  induction 1 as [|event good [column Hc] Hgood IH]; cbn.
  - destruct (NewColumn bad name) as [column| |]; cbn; [|done..].
    by destruct (buildAll rest name).
  - rewrite Hc. cbn. rewrite IH.
    destruct (NewColumn bad name) as [column'| |]; cbn; [|done..].
    by destruct (buildAll (good ++ bad :: rest) name).
Qed.

(** ** The rows of the events *)

(** X1: an event gives a row exactly when its DTSTART and DTEND are present
    and parse; the row then holds the name, the date of the start as
    YYYY/MM/DD, the start and the end as HH:MM, and the duration between
    them. *)
Theorem NewColumn_Done_iff (event : ics.VEvent) (name : string) (col : Column) :
  NewColumn event name = Done col
  <-> exists p q t u,
        ics.GetProperty event "DTSTART" = Some p
        /\ parseTime (ics.Value p) = Done t
        /\ ics.GetProperty event "DTEND" = Some q
        /\ parseTime (ics.Value q) = Done u
        /\ col = mkColumn name
             (four_digits (time.year t) +:+ "/" +:+ two_digits (time.month t)
              +:+ "/" +:+ two_digits (time.day t))
             (two_digits (time.hour t) +:+ ":" +:+ two_digits (time.min t))
             (two_digits (time.hour u) +:+ ":" +:+ two_digits (time.min u))
             (formatDuration (time.Sub u t)).
Proof.
  split.
  - intros Hcol.
    destruct (NewColumn_Done_inv event name col Hcol)
      as (p & q & t & u & Hp & Ht & Hq & Hu).
    exists p, q, t, u. repeat (split; [done|]).
    rewrite (NewColumn_parsed event name p q t u Hp Ht Hq Hu) in Hcol.
    destruct (Parse_Done_inv _ _ Ht) as [Vt _].
    destruct (Parse_Done_inv _ _ Hu) as [Vu _].
    rewrite Format_date_valid, !Format_clock_valid in Hcol by done.
    by injection Hcol as <-.
  - intros (p & q & t & u & Hp & Ht & Hq & Hu & ->).
    rewrite (NewColumn_parsed event name p q t u Hp Ht Hq Hu).
    destruct (Parse_Done_inv _ _ Ht) as [Vt _].
    destruct (Parse_Done_inv _ _ Hu) as [Vu _].
    by rewrite Format_date_valid, !Format_clock_valid.
Qed.

(** X2: the date and the two times of a row are the digits of the
    timestamps as they stand in the calendar: characters 0-3, 4-5 and 6-7
    of DTSTART for the date, 9-10 and 11-12 for the start, and the same
    characters of DTEND for the end; the seconds, a fractional second and
    the date of the end are dropped. *)
Theorem NewColumn_copies_digits (event : ics.VEvent) (name : string)
    (col : Column) (p q : ics.IANAProperty) :
  ics.GetProperty event "DTSTART" = Some p ->
  ics.GetProperty event "DTEND" = Some q ->
  NewColumn event name = Done col ->
  col_name col = name
  /\ date col
     = String.substring 0 4 (ics.Value p) +:+ "/"
       +:+ String.substring 4 2 (ics.Value p) +:+ "/"
       +:+ String.substring 6 2 (ics.Value p)
  /\ startTime col
     = String.substring 9 2 (ics.Value p) +:+ ":"
       +:+ String.substring 11 2 (ics.Value p)
  /\ endTime col
     = String.substring 9 2 (ics.Value q) +:+ ":"
       +:+ String.substring 11 2 (ics.Value q).
Proof.
  intros Hp Hq Hcol.
  destruct (NewColumn_Done_inv event name col Hcol)
    as (p' & q' & t & u & Hp' & Ht & Hq' & Hu).
  rewrite Hp in Hp'. rewrite Hq in Hq'. simplify_eq.
  rewrite (NewColumn_parsed event name p' q' t u Hp Ht Hq Hu) in Hcol.
  injection Hcol as <-. cbn [col_name date startTime endTime].
  destruct (Format_copies _ _ Ht) as [Hdate Hstart].
  destruct (Format_copies _ _ Hu) as [_ Hend].
  split; [done|]. split; [exact Hdate|]. split; [exact Hstart|exact Hend].
Qed.

Lemma NewColumn_copies_digits_witness :
  ics.GetProperty standup "DTSTART"
  = Some (ics.mkProperty "DTSTART" "20240101T090000")
  /\ ics.GetProperty standup "DTEND"
     = Some (ics.mkProperty "DTEND" "20240101T091500")
  /\ NewColumn standup "Alice"
     = Done (mkColumn "Alice" "2024/01/01" "09:00" "09:15" "00:15")
  /\ date (mkColumn "Alice" "2024/01/01" "09:00" "09:15" "00:15")
     = String.substring 0 4 "20240101T090000" +:+ "/"
       +:+ String.substring 4 2 "20240101T090000" +:+ "/"
       +:+ String.substring 6 2 "20240101T090000".
Proof.
  split; [reflexivity|]. split; [reflexivity|].
  assert (NewColumn standup "Alice"
          = Done (mkColumn "Alice" "2024/01/01" "09:00" "09:15" "00:15")) as H
    by (by vm_compute).
  split; [exact H|].
  exact (proj1 (proj2
    (NewColumn_copies_digits standup "Alice" _
       (ics.mkProperty "DTSTART" "20240101T090000")
       (ics.mkProperty "DTEND" "20240101T091500") eq_refl eq_refl H))).
Defined.

(** X3: the rows are built one per selected event and in the order of the
    events: the loop over the events succeeds exactly when every event
    gives a row, and the row at each index is the row of the event at that
    index. *)
Theorem createColumns_Forall2 (events : list ics.VEvent) (name : string)
    (columns : list Column) :
  createColumns events name = Done columns
  <-> Forall2 (fun event column => NewColumn event name = Done column)
        events columns.
Proof. rewrite createColumns_buildAll. apply buildAll_Forall2. Qed.

(** X4: the first event that gives no row decides how the loop ends: with
    the parse error of that event, or with its panic, whatever the events
    after it are. *)
Theorem createColumns_first_failure (good : list ics.VEvent) (bad : ics.VEvent)
    (rest : list ics.VEvent) (name : string) :
  Forall (fun event => exists column, NewColumn event name = Done column) good ->
  (forall e, NewColumn bad name = Failed e ->
             createColumns (good ++ bad :: rest) name = Failed e)
  /\ (NewColumn bad name = Panicked ->
      createColumns (good ++ bad :: rest) name = Panicked).
Proof.
  intros Hgood. rewrite createColumns_buildAll, buildAll_app_bad by done.
  split; [intros e|]; by intros ->.
Qed.

Lemma createColumns_first_failure_witness :
  Forall (fun event => exists column, NewColumn event "Alice" = Done column)
    [lunch]
  /\ (NewColumn open_ended "Alice" = Panicked ->
      createColumns ([lunch] ++ open_ended :: [standup]) "Alice" = Panicked).
Proof.
  assert (Forall (fun event => exists column, NewColumn event "Alice" = Done column)
            [lunch]) as Hgood.
  { constructor; [|constructor].
    exists (mkColumn "Alice" "2024/01/01" "12:00" "13:00" "01:00").
    by vm_compute. }
  split; [exact Hgood|].
  exact (proj2 (createColumns_first_failure [lunch] open_ended [standup] "Alice"
                  Hgood)).
Defined.

(** ** Writing the rows *)

(** What [writeCsv] returns, by the delimiter and the rows. *)
Lemma writeCsv_by_delimiter (encodeRecord : Z -> list string -> string)
    (delim : Z) (buf : string) (columns : list Column) :
  writeCsv encodeRecord (csv.mkWriter delim buf) columns
  = if csv.validDelim delim || bool_decide (columns = [])
    then Done (csv.mkWriter delim
                 (buf +:+ serialize encodeRecord delim columns))
    else Failed ErrInvalidDelim.
Proof.
  destruct (csv.validDelim delim) eqn:Hv; cbn [orb].
  - by apply writeCsv_valid.
  - destruct columns as [|col rest].
    + cbn. by rewrite append_nil_r.
    + rewrite bool_decide_eq_false_2 by done. by apply writeCsv_invalid.
Qed.



(** ** Runs of main *)

Section MoreRuns.
Variable ParseCalendar : string -> option ics.Calendar.
Variable encodeRecord : Z -> list string -> string.
Variable sorter : sort.Implementation.

(** The three ways the output stage ends, with the world it leaves. *)
Lemma writeOutput_cases (args : CliArgs) (columns : list Column) (w : World)
    (trace : list effect) :
  (run_exit (writeOutput encodeRecord args columns w trace) = ExitOk
   /\ run_world (writeOutput encodeRecord args columns w trace)
      = (if isStdout args
         then mkWorld (files w) (readonly w)
                (stdout w +:+ serialize encodeRecord (delimiter args) columns)
         else mkWorld
                (<[outPath args
                   := serialize encodeRecord (delimiter args) columns]> (files w))
                (readonly w) (stdout w))
   /\ (csv.validDelim (delimiter args) = true \/ columns = [])
   /\ (isStdout args = false -> outPath args ∉ readonly w))
  \/ (exists e, run_exit (writeOutput encodeRecord args columns w trace)
                = ExitFatal e
      /\ (e = ErrInvalidDelim \/ e = PathError "open" (outPath args))
      /\ run_world (writeOutput encodeRecord args columns w trace) = w)
  \/ (run_exit (writeOutput encodeRecord args columns w trace)
      = ExitFatal ErrInvalidDelim
      /\ isStdout args = false
      /\ (outPath args ∉ readonly w)
      /\ run_world (writeOutput encodeRecord args columns w trace)
         = mkWorld (<[outPath args := ""]> (files w)) (readonly w) (stdout w)).
Proof.
  pose proof (writeCsv_by_delimiter encodeRecord (delimiter args) "" columns) as Hw.
  rewrite append_nil_l in Hw.
  unfold writeOutput, writeRows, os_Create. cbn [csv.NewWriter csv.buffered].
  destruct (isStdout args) eqn:Hs.
  - rewrite Hw.
    destruct (csv.validDelim (delimiter args) || bool_decide (columns = []))
      eqn:Hok; cbn.
    + left. repeat split; [|done].
      apply orb_true_iff in Hok as [Hok|Hok]; [by left|right].
      by apply bool_decide_eq_true in Hok.
    + right. left. exists ErrInvalidDelim. repeat split. by left.
  - destruct (decide (outPath args ∈ readonly w)) as [Hro|Hro].
    + right. left. exists (PathError "open" (outPath args)).
      repeat split. by right.
    + rewrite Hw.
      destruct (csv.validDelim (delimiter args) || bool_decide (columns = []))
        eqn:Hok; cbn.
      * left. rewrite lookup_insert_eq. cbn. rewrite append_nil_l.
        rewrite insert_insert_eq. repeat split; [|done].
        apply orb_true_iff in Hok as [Hok|Hok]; [by left|right].
        by apply bool_decide_eq_true in Hok.
      * right. right. by repeat split.
Qed.


(** X7: whatever the arguments and the world, a run changes no file but the
    one at the output path, changes no path that cannot be created, and
    only adds to standard output; it adds nothing there unless the flag for
    standard output is set. *)
Theorem main_frame (args : CliArgs) (w : World) :
  readonly (run_world (main ParseCalendar encodeRecord sorter args w))
  = readonly w
  /\ (forall path,
        path <> outPath args ->
        files (run_world (main ParseCalendar encodeRecord sorter args w)) !! path
        = files w !! path)
  /\ (exists out,
        stdout (run_world (main ParseCalendar encodeRecord sorter args w))
        = stdout w +:+ out)
  /\ (isStdout args = false ->
      stdout (run_world (main ParseCalendar encodeRecord sorter args w))
      = stdout w).
Proof.
  assert (stdout w = stdout w +:+ "") as Hnil by (by rewrite append_nil_r).
  rewrite main_rows.
  destruct (files w !! icsPath args) as [content|];
    [|cbn; split; [done|]; split; [done|]; split; [by exists ""|done]].
  destruct (rows_of ParseCalendar sorter args content) as [columns|e|];
    [|cbn; split; [done|]; split; [done|]; split; [by exists ""|done]..].
  destruct (writeOutput_cases args columns w [EvOpen (icsPath args)])
    as [(_ & -> & _)|[(e & _ & _ & ->)|(_ & Hs & _ & ->)]].
  - destruct (isStdout args); cbn.
    + split; [done|]. split; [done|]. split; [eauto|done].
    + split; [done|].
      split; [intros path Hne; by rewrite lookup_insert_ne|].
      split; [by exists ""|done].
  - split; [done|]. split; [done|]. split; [by exists ""|done].
  - cbn. split; [done|].
    split; [intros path Hne; by rewrite lookup_insert_ne|].
    split; [by exists ""|done].
Qed.


(** X9: with a delimiter that the writer does not accept and at least one
    row, a run to standard output fails on the delimiter and writes
    nothing, and a run to a file whose path can be created fails on it
    after it has created the file, which is left empty. *)
Theorem main_invalid_delimiter (args : CliArgs) (w : World) (content : string)
    (columns : list Column) :
  files w !! icsPath args = Some content ->
  rows_of ParseCalendar sorter args content = Done columns ->
  columns <> [] ->
  csv.validDelim (delimiter args) = false ->
  (isStdout args = true ->
   main ParseCalendar encodeRecord sorter args w
   = mkRun (ExitFatal ErrInvalidDelim) w [EvOpen (icsPath args)])
  /\ (isStdout args = false ->
      outPath args ∉ readonly w ->
      main ParseCalendar encodeRecord sorter args w
      = mkRun (ExitFatal ErrInvalidDelim)
          (mkWorld (<[outPath args := ""]> (files w)) (readonly w) (stdout w))
          [EvOpen (icsPath args); EvCreate (outPath args)]).
Proof.
  intros Hfile Hrows Hne Hv. rewrite main_rows, Hfile, Hrows.
  pose proof (writeCsv_invalid encodeRecord (delimiter args) "" columns Hv Hne)
    as Hw.
  unfold writeOutput, writeRows, os_Create. cbn [csv.NewWriter csv.buffered].
  split; intros Hs; rewrite Hs.
  - by rewrite Hw.
  - intros Hro. destruct (decide (outPath args ∈ readonly w)); [done|].
    by rewrite Hw.
Qed.

(** X10: when there is no row to write, because the calendar has no event
    or the filter matches none, the run succeeds whatever the delimiter
    is: standard output gets nothing, or the output file is created
    empty. *)
Theorem main_no_rows (args : CliArgs) (w : World) (content : string) :
  files w !! icsPath args = Some content ->
  rows_of ParseCalendar sorter args content = Done [] ->
  (isStdout args = true ->
   main ParseCalendar encodeRecord sorter args w
   = mkRun ExitOk w
       [EvOpen (icsPath args); EvWrite Stdout ""; EvClose (icsPath args)])
  /\ (isStdout args = false ->
      outPath args ∉ readonly w ->
      main ParseCalendar encodeRecord sorter args w
      = mkRun ExitOk
          (mkWorld (<[outPath args := ""]> (files w)) (readonly w) (stdout w))
          [EvOpen (icsPath args); EvCreate (outPath args);
           EvWrite (File (outPath args)) ""; EvClose (outPath args);
           EvClose (icsPath args)]).
Proof.
  intros Hfile Hrows. rewrite main_rows, Hfile, Hrows.
  unfold writeOutput, writeRows, os_Create. cbn [csv.NewWriter csv.buffered].
  split; intros Hs; rewrite Hs.
  - cbn. rewrite append_nil_r. by destruct w.
  - intros Hro. destruct (decide (outPath args ∈ readonly w)); [done|].
    cbn. rewrite lookup_insert_eq. cbn. by rewrite insert_insert_eq.
Qed.

End MoreRuns.


Lemma main_frame_witness :
  files (run_world
           (main sample_parser sample_encode sort.Slice file_args other_world))
    !! "notes.txt"
  = files other_world !! "notes.txt".
Proof.
  assert ("notes.txt" <> outPath file_args) as Hne by done.
  exact (proj1 (proj2
    (main_frame sample_parser sample_encode sort.Slice file_args other_world))
    "notes.txt" Hne).
Defined.


Lemma main_invalid_delimiter_witness :
  files sample_world !! icsPath bare_args = Some "lunch, standup"
  /\ rows_of sample_parser sort.Slice bare_args "lunch, standup"
     = Done sample_rows
  /\ csv.validDelim (delimiter bare_args) = false
  /\ isStdout bare_args = false
  /\ main sample_parser sample_encode sort.Slice bare_args sample_world
     = mkRun (ExitFatal ErrInvalidDelim)
         (mkWorld (<[outPath bare_args := ""]> (files sample_world))
            (readonly sample_world) (stdout sample_world))
         [EvOpen (icsPath bare_args); EvCreate (outPath bare_args)].
Proof.
  assert (rows_of sample_parser sort.Slice bare_args "lunch, standup"
          = Done sample_rows) as Hrows by (by vm_compute).
  assert (sample_rows <> []) as Hne by done.
  assert (outPath bare_args ∉ readonly sample_world) as Hro
    by apply not_elem_of_empty.
  split; [reflexivity|]. split; [exact Hrows|]. split; [reflexivity|].
  split; [reflexivity|].
  exact (proj2 (main_invalid_delimiter sample_parser sample_encode sort.Slice
                  bare_args sample_world "lunch, standup" sample_rows
                  eq_refl Hrows Hne eq_refl) eq_refl Hro).
Defined.

Lemma main_no_rows_witness :
  files sample_world !! icsPath dinner_args = Some "lunch, standup"
  /\ rows_of sample_parser sort.Slice dinner_args "lunch, standup" = Done []
  /\ isStdout dinner_args = true
  /\ main sample_parser sample_encode sort.Slice dinner_args sample_world
     = mkRun ExitOk sample_world
         [EvOpen (icsPath dinner_args); EvWrite Stdout "";
          EvClose (icsPath dinner_args)].
Proof.
  assert (rows_of sample_parser sort.Slice dinner_args "lunch, standup"
          = Done []) as Hrows by (by vm_compute).
  split; [reflexivity|]. split; [exact Hrows|]. split; [reflexivity|].
  exact (proj1 (main_no_rows sample_parser sample_encode sort.Slice
                  dinner_args sample_world "lunch, standup" eq_refl Hrows)
           eq_refl).
Defined.

(** ** The delimiter *)

(** X11: which delimiters the writer accepts.  The empty string and a
    string whose first byte cannot start a rune give U+FFFD, which is
    refused; a string that starts with an ASCII byte gives that byte, which
    is accepted unless it is NUL, a double quote, a carriage return or a
    line feed. *)
Theorem delimiter_validity (args : CliArgs) :
  (comma args = "" -> csv.validDelim (delimiter args) = false)
  /\ (forall c rest,
        comma args = String c rest ->
        128 <= byte_of c < 194 \/ 245 <= byte_of c ->
        delimiter args = utf8.RuneError
        /\ csv.validDelim (delimiter args) = false)
  /\ (forall c rest,
        comma args = String c rest ->
        byte_of c < 128 ->
        delimiter args = byte_of c
        /\ (csv.validDelim (delimiter args) = true
            <-> byte_of c <> 0 /\ byte_of c <> 34 /\ byte_of c <> 13
                /\ byte_of c <> 10)).
Proof.
  unfold delimiter. split; [by intros ->|]. split.
  - intros c rest -> Hc. cbn [utf8.DecodeRuneInString].
    assert (utf8.first (byte_of c) = utf8.Invalid) as ->; [|done].
    unfold utf8.first.
    repeat (match goal with
            | |- context [?x <? ?y] => destruct (Z.ltb_spec x y); try lia
            | |- context [?x =? ?y] => destruct (Z.eqb_spec x y); try lia
            end); done.
  - intros c rest -> Hc. cbn [utf8.DecodeRuneInString].
    assert (utf8.first (byte_of c) = utf8.ASCII) as ->
      by (unfold utf8.first; by destruct (Z.ltb_spec (byte_of c) 128); [|lia]).
    cbn [fst]. split; [done|].
    assert (0 <= byte_of c) by (unfold byte_of; lia).
    unfold csv.validDelim, utf8.ValidRune, utf8.RuneError, utf8.MaxRune.
    rewrite !andb_true_iff, !negb_true_iff, !Z.eqb_neq, orb_true_iff,
      !andb_true_iff, Z.leb_le, Z.ltb_lt.
    lia.
Qed.

Lemma delimiter_validity_witness :
  comma bare_args = ""
  /\ csv.validDelim (delimiter bare_args) = false.
Proof.
  split; [reflexivity|].
  exact (proj1 (delimiter_validity bare_args) eq_refl).
Defined.

(** ** The sort of the library *)

(** X12: the sort of the library, as it stands behind [sort.Slice], returns
    for every slice and every [less], be it an ordering or not, and what
    it returns is a rearrangement of the slice: no row is lost and none is
    written twice. *)
Theorem Slice_rearranges (A : Type) (less : A -> A -> bool) (x : list A) :
  sort.pdqsort_func less (S (List.length x)) x 0 (Z.of_nat (List.length x))
    (sort.bits_Len (Z.of_nat (List.length x)))
  = Some (sort.Slice A less x)
  /\ Permutation (sort.Slice A less x) x
  /\ List.length (sort.Slice A less x) = List.length x.
Proof.
  split; [apply Slice_returns|].
  pose proof (Slice_Permutation_library less x) as H.
  split; [done|]. by apply Permutation_length.
Qed.

(** X13: up to twelve rows, the sort of the library is insertion sort: the
    rows come out ordered by date and start time, and rows with one date
    and start time keep the order they had. *)
Theorem sortColumns_short_stable (columns : list Column) :
  (List.length columns <= 12)%nat ->
  sortColumns sort.Slice columns = sort.insertionSort less columns
  /\ Permutation (sortColumns sort.Slice columns) columns
  /\ StronglySorted key_le (sortColumns sort.Slice columns)
  /\ stable columns (sortColumns sort.Slice columns).
Proof.
  intros Hlen. unfold sortColumns. rewrite Slice_short by done.
  split; [done|]. split; [apply insertionSort_Permutation|]. split.
  - eapply StronglySorted_weaken;
      [|apply insertionSort_Ascending, less_StrictWeakOrder].
    intros x y H. by apply less_false_iff.
  - intros k. apply insertionSort_filter. apply same_key_not_less.
Qed.

Lemma sortColumns_short_stable_witness :
  (List.length [tie_first; tie_second] <= 12)%nat
  /\ stable [tie_first; tie_second]
       (sortColumns sort.Slice [tie_first; tie_second]).
Proof.
  assert (List.length [tie_first; tie_second] <= 12)%nat as Hlen
    by (cbn; lia).
  split; [exact Hlen|].
  exact (proj2 (proj2 (proj2
    (sortColumns_short_stable [tie_first; tie_second] Hlen)))).
Defined.

(** X14: on the rows of two events, the [less] of the sort is the order of
    the minutes in which the events start: a row is less than another
    exactly when its event starts in an earlier minute, and two rows tie
    exactly when their events start in the same minute. *)
Theorem less_minute_order (e1 e2 : ics.VEvent) (name : string)
    (c1 c2 : Column) (p1 p2 : ics.IANAProperty) (t1 t2 : time.Time) :
  ics.GetProperty e1 "DTSTART" = Some p1 ->
  parseTime (ics.Value p1) = Done t1 ->
  ics.GetProperty e2 "DTSTART" = Some p2 ->
  parseTime (ics.Value p2) = Done t2 ->
  NewColumn e1 name = Done c1 ->
  NewColumn e2 name = Done c2 ->
  less c1 c2 = (minute_of t1 <? minute_of t2)
  /\ (less c1 c2 = false /\ less c2 c1 = false
      <-> minute_of t1 = minute_of t2).
Proof.
  intros Hp1 Ht1 Hp2 Ht2 Hc1 Hc2.
  destruct (NewColumn_Done_inv e1 name c1 Hc1)
    as (p1' & q1 & t1' & u1 & Hp1' & Ht1' & Hq1 & Hu1).
  destruct (NewColumn_Done_inv e2 name c2 Hc2)
    as (p2' & q2 & t2' & u2 & Hp2' & Ht2' & Hq2 & Hu2).
  rewrite (NewColumn_parsed e1 name p1' q1 t1' u1 Hp1' Ht1' Hq1 Hu1) in Hc1.
  rewrite (NewColumn_parsed e2 name p2' q2 t2' u2 Hp2' Ht2' Hq2 Hu2) in Hc2.
  assert (p1' = p1) as -> by congruence. assert (p2' = p2) as -> by congruence.
  assert (t1' = t1) as -> by congruence. assert (t2' = t2) as -> by congruence.
  injection Hc1 as <-. injection Hc2 as <-.
  destruct (Parse_Done_inv _ _ Ht1) as [V1 _].
  destruct (Parse_Done_inv _ _ Ht2) as [V2 _].
  change (less _ _) with (key_before t1 t2) at 1 2.
  change (less _ _) with (key_before t2 t1).
  rewrite !key_before_minute by done.
  split; [done|]. rewrite !Z.ltb_ge. lia.
Qed.

Lemma less_minute_order_witness :
  NewColumn standup "Alice"
  = Done (mkColumn "Alice" "2024/01/01" "09:00" "09:15" "00:15")
  /\ NewColumn lunch "Alice"
     = Done (mkColumn "Alice" "2024/01/01" "12:00" "13:00" "01:00")
  /\ less (mkColumn "Alice" "2024/01/01" "09:00" "09:15" "00:15")
       (mkColumn "Alice" "2024/01/01" "12:00" "13:00" "01:00")
     = (minute_of (time.mkTime 2024 1 1 9 0 0 0)
        <? minute_of (time.mkTime 2024 1 1 12 0 0 0)).
Proof.
  assert (NewColumn standup "Alice"
          = Done (mkColumn "Alice" "2024/01/01" "09:00" "09:15" "00:15")) as H1
    by (by vm_compute).
  assert (NewColumn lunch "Alice"
          = Done (mkColumn "Alice" "2024/01/01" "12:00" "13:00" "01:00")) as H2
    by (by vm_compute).
  split; [exact H1|]. split; [exact H2|].
  exact (proj1
    (less_minute_order standup lunch "Alice" _ _
       (ics.mkProperty "DTSTART" "20240101T090000")
       (ics.mkProperty "DTSTART" "20240101T120000")
       (time.mkTime 2024 1 1 9 0 0 0) (time.mkTime 2024 1 1 12 0 0 0)
       eq_refl eq_refl eq_refl eq_refl H1 H2)).
Defined.

(** ** Durations *)

(** X15: for an event whose timestamps have no fractional second and whose
    end is not before its start nor more than 9223372036 seconds (about
    292 years) after it, the duration of the row is exact: the whole hours
    of the seconds elapsed between start and end, leap days counted, and
    the whole minutes that remain. *)
Theorem NewColumn_duration_exact (event : ics.VEvent) (name : string)
    (p q : ics.IANAProperty) (t u : time.Time) :
  ics.GetProperty event "DTSTART" = Some p ->
  parseTime (ics.Value p) = Done t ->
  ics.GetProperty event "DTEND" = Some q ->
  parseTime (ics.Value q) = Done u ->
  time.nsec t = 0 -> time.nsec u = 0 ->
  0 <= time.seconds u - time.seconds t <= 9223372036 ->
  exists col,
    NewColumn event name = Done col
    /\ duration col
       = fmt.verb_02d ((time.seconds u - time.seconds t) / 3600) +:+ ":"
         +:+ fmt.verb_02d ((time.seconds u - time.seconds t) / 60 mod 60)
    /\ 0 <= (time.seconds u - time.seconds t) / 60 mod 60 <= 59.
Proof.
  intros Hp Ht Hq Hu Nt Nu Hd.
  rewrite (NewColumn_parsed event name p q t u Hp Ht Hq Hu).
  eexists. split; [done|]. cbn [duration].
  set (delta := time.seconds u - time.seconds t) in *.
  assert (time.Sub u t = delta * time.Second) as ->.
  { unfold time.Sub, time.nanoseconds. cbv zeta. rewrite Nt, Nu.
    replace (time.seconds u * time.Second + 0 - (time.seconds t * time.Second + 0))
      with (delta * time.Second) by (unfold delta; lia).
    assert (time.minDuration <= delta * time.Second <= time.maxDuration)
      as [H1 H2]
      by (unfold time.minDuration, time.maxDuration, time.Second; lia).
    apply Z.ltb_ge in H1, H2. by rewrite H1, H2. }
  split; [|div_lia].
  rewrite formatDuration_hh_mm.
  - unfold hh_mm. f_equal; [|f_equal]; f_equal;
      unfold time.Hour, time.Minute, time.Second; div_lia.
  - unfold time.maxDuration, time.Second.
    change (2 ^ 63) with 9223372036854775808. lia.
  - unfold time.Minute, time.Second. div_lia.
Qed.

Lemma NewColumn_duration_exact_witness :
  ics.GetProperty standup "DTSTART"
  = Some (ics.mkProperty "DTSTART" "20240101T090000")
  /\ parseTime "20240101T090000" = Done (time.mkTime 2024 1 1 9 0 0 0)
  /\ parseTime "20240101T091500" = Done (time.mkTime 2024 1 1 9 15 0 0)
  /\ 0 <= time.seconds (time.mkTime 2024 1 1 9 15 0 0)
          - time.seconds (time.mkTime 2024 1 1 9 0 0 0) <= 9223372036
  /\ exists col,
       NewColumn standup "Alice" = Done col
       /\ duration col
          = fmt.verb_02d
              ((time.seconds (time.mkTime 2024 1 1 9 15 0 0)
                - time.seconds (time.mkTime 2024 1 1 9 0 0 0)) / 3600)
            +:+ ":"
            +:+ fmt.verb_02d
                  ((time.seconds (time.mkTime 2024 1 1 9 15 0 0)
                    - time.seconds (time.mkTime 2024 1 1 9 0 0 0)) / 60 mod 60)
       /\ 0 <= (time.seconds (time.mkTime 2024 1 1 9 15 0 0)
                - time.seconds (time.mkTime 2024 1 1 9 0 0 0)) / 60 mod 60 <= 59.
Proof.
  assert (0 <= time.seconds (time.mkTime 2024 1 1 9 15 0 0)
               - time.seconds (time.mkTime 2024 1 1 9 0 0 0) <= 9223372036)
    as Hd by (by vm_compute).
  split; [reflexivity|]. split; [reflexivity|]. split; [reflexivity|].
  split; [exact Hd|].
  exact (NewColumn_duration_exact standup "Alice"
           (ics.mkProperty "DTSTART" "20240101T090000")
           (ics.mkProperty "DTEND" "20240101T091500")
           (time.mkTime 2024 1 1 9 0 0 0) (time.mkTime 2024 1 1 9 15 0 0)
           eq_refl eq_refl eq_refl eq_refl eq_refl eq_refl Hd).
Defined.

(** X16: the difference of two timestamps is clamped to the range of a
    [Duration]: when the end is more than about 292 years after the start
    the duration reads 2562047:47, and when it is as much before the
    start it reads -2562047:-47, however far apart the two are. *)
Theorem duration_saturates (t u : time.Time) :
  (time.maxDuration < time.nanoseconds u - time.nanoseconds t ->
   formatDuration (time.Sub u t) = "2562047:47")
  /\ (time.nanoseconds u - time.nanoseconds t < time.minDuration ->
      formatDuration (time.Sub u t) = "-2562047:-47").
Proof.
  unfold time.Sub. split; intros H.
  - destruct (Z.ltb_spec (time.nanoseconds u - time.nanoseconds t)
                time.minDuration) as [H'|H'].
    + unfold time.minDuration, time.maxDuration in *. lia.
    + destruct (Z.ltb_spec time.maxDuration
                  (time.nanoseconds u - time.nanoseconds t)); [|lia].
      by vm_compute.
  - destruct (Z.ltb_spec (time.nanoseconds u - time.nanoseconds t)
                time.minDuration); [|lia].
    by vm_compute.
Qed.

Lemma duration_saturates_witness :
  time.maxDuration
  < time.nanoseconds (time.mkTime 9999 1 1 0 0 0 0)
    - time.nanoseconds (time.mkTime 1 1 1 0 0 0 0)
  /\ formatDuration
       (time.Sub (time.mkTime 9999 1 1 0 0 0 0) (time.mkTime 1 1 1 0 0 0 0))
     = "2562047:47".
Proof.
  assert (time.maxDuration
          < time.nanoseconds (time.mkTime 9999 1 1 0 0 0 0)
            - time.nanoseconds (time.mkTime 1 1 1 0 0 0 0)) as H
    by (by vm_compute).
  split; [exact H|].
  exact (proj1 (duration_saturates (time.mkTime 1 1 1 0 0 0 0)
                  (time.mkTime 9999 1 1 0 0 0 0)) H).
Defined.

(** ** Negative spans *)

Lemma binary_round_aux_opp (s : bool) (m e : Z) (l : location) :
  binary_round_aux time.prec time.emax (negb s) m e l
  = SFopp (binary_round_aux time.prec time.emax s m e l).
Proof.
  unfold binary_round_aux.
  destruct (shr_fexp _ _ _ _ _) as [mrs' e'].
  destruct (shr_fexp _ _ _ _ _) as [mrs'' e''].
  destruct (shr_m mrs''); [done| |done]. by destruct (_ <=? _).
Qed.

Lemma of_int_opp (n : Z) :
  n <> 0 -> time.of_int (- n) = SFopp (time.of_int n).
Proof.
  destruct n as [|p|p]; [done| |]; intros _.
  - change (- Z.pos p) with (Z.neg p).
    unfold time.of_int, binary_normalize, binary_round.
    destruct (shl_align _ _ _) as [mz ez].
    apply (binary_round_aux_opp false).
  - change (- Z.neg p) with (Z.pos p).
    unfold time.of_int, binary_normalize, binary_round.
    destruct (shl_align _ _ _) as [mz ez].
    by rewrite <- (binary_round_aux_opp true).
Qed.

Lemma int_opp (f : time.float64) : time.int (SFopp f) = - time.int f.
Proof.
  destruct f as [s|s| |s m e]; cbn; try done.
  destruct s; cbn; lia.
Qed.

Lemma div_opp_l (x y : time.float64) :
  time.div (SFopp x) y = SFopp (time.div x y).
Proof.
  unfold time.div, SFdiv.
  destruct x as [sx|sx| |sx mx ex], y as [sy|sy| |sy my ey]; cbn [SFopp];
    try done; try (by destruct sx, sy).
  destruct (SFdiv_core_binary _ _ _ _ _ _) as [[mz ez] lz].
  rewrite <- binary_round_aux_opp. by destruct sx, sy.
Qed.

(** The quotient of two positive floats has no minus sign. *)
Lemma div_pos_shape (mx my : positive) (ex ey : Z) :
  match time.div (S754_finite false mx ex) (S754_finite false my ey) with
  | S754_zero s | S754_infinity s | S754_finite s _ _ => s = false
  | S754_nan => True
  end.
Proof.
  unfold time.div, SFdiv. cbn [xorb].
  destruct (SFdiv_core_binary _ _ _ _ _ _) as [[mz ez] lz].
  unfold binary_round_aux.
  destruct (shr_fexp _ _ _ _ _) as [mrs' e'].
  destruct (shr_fexp _ _ _ _ _) as [mrs'' e''].
  destruct (shr_m mrs''); [done| |done]. by destruct (_ <=? _).
Qed.

Lemma add_opp_pos (mx : positive) (ex : Z) (y : time.float64) :
  match y with
  | S754_zero s | S754_infinity s | S754_finite s _ _ => s = false
  | S754_nan => True
  end ->
  time.int (time.add (S754_finite true mx ex) (SFopp y))
  = - time.int (time.add (S754_finite false mx ex) y).
Proof.
  destruct y as [s|s| |s my ey]; cbn [SFopp]; try (intros ->); try done.
  unfold time.add, SFadd. cbn [cond_Zopp negb].
  destruct (shl_align mx ex _) as [a ea], (shl_align my ey _) as [b eb].
  cbn [fst].
  change (- Z.pos a + - Z.pos b) with (Z.neg (a + b)).
  change (Z.pos a + Z.pos b) with (Z.pos (a + b)).
  unfold binary_normalize, binary_round.
  destruct (shl_align _ _ _) as [mz ez].
  rewrite (binary_round_aux_opp false). apply int_opp.
Qed.

Lemma add_zero_opp (y : time.float64) :
  match y with
  | S754_zero s | S754_infinity s | S754_finite s _ _ => s = false
  | S754_nan => True
  end ->
  time.int (time.add (S754_zero false) (SFopp y))
  = - time.int (time.add (S754_zero false) y).
Proof.
  destruct y as [s|s| |s my ey]; cbn [SFopp]; try (intros ->); done.
Qed.

(** The integer part of [-a - r / c] is the opposite of that of
    [a + r / c]. *)
Lemma int_add_div_opp (a r c : Z) :
  0 <= a < 2 ^ 53 -> 0 <= r < 2 ^ 53 -> 0 < c < 2 ^ 53 ->
  time.int (time.add (time.of_int (- a))
              (time.div (time.of_int (- r)) (time.of_int c)))
  = - time.int (time.add (time.of_int a)
                  (time.div (time.of_int r) (time.of_int c))).
Proof.
  intros Ha Hr Hc.
  destruct (of_int_pos c Hc) as (mc & Ec & _ & _).
  assert (match time.div (time.of_int r) (time.of_int c) with
          | S754_zero s | S754_infinity s | S754_finite s _ _ => s = false
          | S754_nan => True
          end) as Hshape.
  { destruct (Z.eq_dec r 0) as [->|Hr0].
    - rewrite of_int_zero, Ec. done.
    - destruct (of_int_pos r ltac:(lia)) as (mr & -> & _ & _). rewrite Ec.
      apply div_pos_shape. }
  assert (time.div (time.of_int (- r)) (time.of_int c)
          = SFopp (time.div (time.of_int r) (time.of_int c))
          \/ (r = 0 /\ time.div (time.of_int r) (time.of_int c) = S754_zero false))
    as Hdiv.
  { destruct (Z.eq_dec r 0) as [->|Hr0].
    - right. split; [done|]. by rewrite of_int_zero, Ec.
    - left. by rewrite of_int_opp, div_opp_l. }
  destruct (Z.eq_dec a 0) as [->|Ha0].
  - change (- 0) with 0. rewrite of_int_zero.
    destruct Hdiv as [->|[-> Hz]]; [by apply add_zero_opp|].
    change (- 0) with 0. by rewrite Hz.
  - destruct (of_int_pos a ltac:(lia)) as (ma & Ea & _ & _).
    rewrite of_int_opp, Ea by done. cbn [SFopp negb].
    destruct Hdiv as [->|[-> Hz]]; [by apply add_opp_pos|].
    change (- 0) with 0. rewrite Hz. unfold time.add, SFadd. cbn. lia.
Qed.

Lemma Hours_int_opp (d : time.Duration) :
  0 <= d <= time.maxDuration -> d mod time.Minute <= time.Minute - 4000 ->
  time.int (time.Hours (- d)) = - (d / time.Hour).
Proof.
  intros Hd Hm. rewrite <- (Hours_int d Hd Hm).
  unfold time.Hours. rewrite Z.quot_opp_l, Z.rem_opp_l by done.
  unfold time.maxDuration, time.Hour, time.Minute, time.Second in *.
  change (2 ^ 63 - 1) with 9223372036854775807 in Hd.
  apply int_add_div_opp; change (2 ^ 53) with 9007199254740992.
  - rewrite Z.quot_div_nonneg by lia. div_lia.
  - rewrite Z.rem_mod_nonneg by lia. div_lia.
  - lia.
Qed.

Lemma Minutes_int_opp (d : time.Duration) :
  0 <= d <= time.maxDuration -> d mod time.Minute <= time.Minute - 4000 ->
  time.int (time.Minutes (- d)) = - (d / time.Minute).
Proof.
  intros Hd Hm. rewrite <- (Minutes_int d Hd Hm).
  unfold time.Minutes. rewrite Z.quot_opp_l, Z.rem_opp_l by done.
  unfold time.maxDuration, time.Minute, time.Second in *.
  change (2 ^ 63 - 1) with 9223372036854775807 in Hd.
  apply int_add_div_opp; change (2 ^ 53) with 9007199254740992.
  - rewrite Z.quot_div_nonneg by lia. div_lia.
  - rewrite Z.rem_mod_nonneg by lia. div_lia.
  - lia.
Qed.

(** X17: for a time span of either sign whose part beyond the whole minutes
    is at most 59.999996 seconds in size, the duration formatter prints
    the hours and the minutes both rounded toward zero, so that a negative
    span gives a negative number of minutes, and negative hours once it
    reaches an hour. *)
Theorem formatDuration_truncates (d : time.Duration) :
  - time.maxDuration <= d <= time.maxDuration ->
  Z.abs d mod time.Minute <= time.Minute - 4000 ->
  formatDuration d
  = fmt.verb_02d (Z.quot d time.Hour) +:+ ":"
    +:+ fmt.verb_02d (Z.rem (Z.quot d time.Minute) 60).
Proof.
  intros Hd Hm. destruct (Z.le_gt_cases 0 d) as [Hpos|Hneg].
  - rewrite Z.abs_eq in Hm by done.
    rewrite formatDuration_hh_mm by (done || lia). unfold hh_mm.
    unfold time.Hour, time.Minute, time.Second in *.
    rewrite !Z.quot_div_nonneg, Z.rem_mod_nonneg by (div_lia || lia).
    done.
  - rewrite Z.abs_neq in Hm by lia.
    assert (exists e, d = - e /\ 0 < e) as (e & -> & He)
      by (exists (- d); lia).
    rewrite Z.opp_involutive in Hm.
    unfold formatDuration, fmt.Sprintf_02d_02d. cbv zeta.
    rewrite Hours_int_opp, Minutes_int_opp by (done || lia).
    rewrite !Z.quot_opp_l
      by (unfold time.Hour, time.Minute, time.Second; lia).
    rewrite Z.rem_opp_l by lia.
    unfold time.Hour, time.Minute, time.Second in *.
    rewrite !Z.quot_div_nonneg, Z.rem_mod_nonneg by (div_lia || lia).
    do 3 f_equal. div_lia.
Qed.

Lemma formatDuration_truncates_witness :
  - time.maxDuration <= -90 * time.Minute <= time.maxDuration
  /\ Z.abs (-90 * time.Minute) mod time.Minute <= time.Minute - 4000
  /\ formatDuration (-90 * time.Minute)
     = fmt.verb_02d (Z.quot (-90 * time.Minute) time.Hour) +:+ ":"
       +:+ fmt.verb_02d (Z.rem (Z.quot (-90 * time.Minute) time.Minute) 60).
Proof.
  assert (- time.maxDuration <= -90 * time.Minute <= time.maxDuration) as Hd
    by (by vm_compute).
  assert (Z.abs (-90 * time.Minute) mod time.Minute <= time.Minute - 4000)
    as Hm by (by vm_compute).
  split; [exact Hd|]. split; [exact Hm|].
  exact (formatDuration_truncates (-90 * time.Minute) Hd Hm).
Defined.
